(** * Blynk protocol engine for CircuitPython: a shallow embedding

    The development follows [blynk_legacy_library/blynklib_circuitpython.py]:
    the wire codec ([struct.pack]/[struct.unpack] with format [!BHH], UTF-8,
    NUL-joined fields), the event dispatcher ([emit]), the outbound API built
    on [_send], the socket transport ([_write]) and the receive loop
    ([process]).  Python objects are modelled by a record, mutation by a
    state/exception/trace monad, and the two environment capabilities (the
    socket and the millisecond clock) by scripts carried in the record. *)

From Stdlib Require Import ZArith Lia.
From Stdlib.Strings Require Import Byte.
From stdpp Require Import base list strings gmap pretty.

Local Open Scope Z_scope.

(* ================================================================== *)
(** * Part I: definitions *)
(* ================================================================== *)

(** ** Bytes and the [!BHH] header *)

Abbreviation bytes := (list byte).

#[global] Instance byte_eq_decision : EqDecision byte := Byte.byte_eq_dec.

Definition byte_to_Z (b : byte) : Z := Z.of_N (Byte.to_N b).

Definition byte_of_Z (z : Z) : byte :=
  default x00 (Byte.of_N (Z.to_N (z mod 256))).

(** [struct.pack("!BHH", cmd, msg_id, dlen)]: one unsigned byte and two
    big-endian unsigned 16-bit fields; a value out of range raises
    [struct.error], modelled by [None]. *)
Definition struct_pack (cmd msg_id dlen : Z) : option bytes :=
  if (0 <=? cmd) && (cmd <=? 255) && (0 <=? msg_id) && (msg_id <=? 65535)
     && (0 <=? dlen) && (dlen <=? 65535)
  then Some [ byte_of_Z cmd;
              byte_of_Z (msg_id / 256); byte_of_Z (msg_id mod 256);
              byte_of_Z (dlen / 256); byte_of_Z (dlen mod 256) ]
  else None.

(** [struct.unpack("!BHH", hdr)] on exactly five bytes. *)
Definition struct_unpack (hdr : bytes) : option (Z * Z * Z) :=
  match hdr with
  | [c; i1; i0; l1; l0] =>
      Some (byte_to_Z c,
            byte_to_Z i1 * 256 + byte_to_Z i0,
            byte_to_Z l1 * 256 + byte_to_Z l0)
  | _ => None
  end.

(** ** Python [str] and the UTF-8 codec *)

(** A Python [str] is a sequence of code points. *)
Abbreviation pystr := (list Z).

Definition str (s : string) : pystr :=
  (λ a, Z.of_N (Ascii.N_of_ascii a)) <$> String.list_ascii_of_string s.

Definition is_surrogate (cp : Z) : bool := (0xD800 <=? cp) && (cp <=? 0xDFFF).

(** One code point of [s.encode("utf-8")]; [None] is [UnicodeEncodeError]. *)
Definition encode_cp (cp : Z) : option bytes :=
  if cp <? 0 then None
  else if cp <? 0x80 then Some [byte_of_Z cp]
  else if cp <? 0x800 then
    Some [byte_of_Z (0xC0 + cp / 64); byte_of_Z (0x80 + cp mod 64)]
  else if is_surrogate cp then None
  else if cp <? 0x10000 then
    Some [byte_of_Z (0xE0 + cp / 4096);
          byte_of_Z (0x80 + (cp / 64) mod 64);
          byte_of_Z (0x80 + cp mod 64)]
  else if cp <? 0x110000 then
    Some [byte_of_Z (0xF0 + cp / 262144);
          byte_of_Z (0x80 + (cp / 4096) mod 64);
          byte_of_Z (0x80 + (cp / 64) mod 64);
          byte_of_Z (0x80 + cp mod 64)]
  else None.

Fixpoint utf8_encode (s : pystr) : option bytes :=
  match s with
  | [] => Some []
  | cp :: t =>
      match encode_cp cp, utf8_encode t with
      | Some b, Some r => Some (b ++ r)
      | _, _ => None
      end
  end.

Definition is_cont (z : Z) : bool := (0x80 <=? z) && (z <=? 0xBF).

(** [b.decode("utf8")] in strict mode; [None] is [UnicodeDecodeError]
    (stray or missing continuation bytes, overlong forms, surrogates and
    code points above U+10FFFF are rejected). *)
Fixpoint utf8_decode (bs : bytes) : option pystr :=
  match bs with
  | [] => Some []
  | b0 :: t0 =>
      let z0 := byte_to_Z b0 in
      if z0 <? 0x80 then cons z0 <$> utf8_decode t0
      else if z0 <? 0xC2 then None
      else if z0 <? 0xE0 then
        match t0 with
        | b1 :: t1 =>
            let z1 := byte_to_Z b1 in
            if is_cont z1
            then cons ((z0 - 0xC0) * 64 + (z1 - 0x80)) <$> utf8_decode t1
            else None
        | _ => None
        end
      else if z0 <? 0xF0 then
        match t0 with
        | b1 :: b2 :: t2 =>
            let z1 := byte_to_Z b1 in
            let z2 := byte_to_Z b2 in
            let cp := (z0 - 0xE0) * 4096 + (z1 - 0x80) * 64 + (z2 - 0x80) in
            if is_cont z1 && is_cont z2 && (0x800 <=? cp)
               && negb (is_surrogate cp)
            then cons cp <$> utf8_decode t2
            else None
        | _ => None
        end
      else if z0 <? 0xF5 then
        match t0 with
        | b1 :: b2 :: b3 :: t3 =>
            let z1 := byte_to_Z b1 in
            let z2 := byte_to_Z b2 in
            let z3 := byte_to_Z b3 in
            let cp := (z0 - 0xF0) * 262144 + (z1 - 0x80) * 4096
                      + (z2 - 0x80) * 64 + (z3 - 0x80) in
            if is_cont z1 && is_cont z2 && is_cont z3
               && (0x10000 <=? cp) && (cp <? 0x110000)
            then cons cp <$> utf8_decode t3
            else None
        | _ => None
        end
      else None
  end.

(** The separator ["\0"] of the wire format. *)
Definition NUL : pystr := [0].

(** [sep.join(l)] *)
Fixpoint join {A} (sep : list A) (l : list (list A)) : list A :=
  match l with
  | [] => []
  | x :: t =>
      match t with
      | [] => x
      | _ :: _ => x ++ sep ++ join sep t
      end
  end.

(** [data.split(sep)] for a one-element separator: never the empty list. *)
Fixpoint split_on {A} `{EqDecision A} (sep : A) (l : list A) : list (list A) :=
  match l with
  | [] => [[]]
  | a :: t =>
      if decide (a = sep) then [] :: split_on sep t
      else match split_on sep t with
           | [] => [[a]]
           | h :: r => (a :: h) :: r
           end
  end.

(** [list(map(lambda x: x.decode('utf8'), data.split(b'\0')))];
    [None] when some fragment raises [UnicodeDecodeError]. *)
Definition decode_fields (data : bytes) : option (list pystr) :=
  mapM utf8_decode (split_on x00 data).


(** ** Constants *)

Definition _VERSION : string := "0.2.1".

Definition MSG_RSP : Z := 0.
Definition MSG_LOGIN : Z := 2.
Definition MSG_PING : Z := 6.
Definition MSG_TWEET : Z := 12.
Definition MSG_EMAIL : Z := 13.
Definition MSG_NOTIFY : Z := 14.
Definition MSG_BRIDGE : Z := 15.
Definition MSG_HW_SYNC : Z := 16.
Definition MSG_INTERNAL : Z := 17.
Definition MSG_PROPERTY : Z := 19.
Definition MSG_HW : Z := 20.
Definition MSG_HW_LOGIN : Z := 29.
Definition MSG_EVENT_LOG : Z := 64.

Definition STA_SUCCESS : Z := 200.
Definition STA_INVALID_TOKEN : Z := 9.

(** [DISCONNECTED = 0], [CONNECTING = 1], [CONNECTED = 2] *)
Inductive ConnState := DISCONNECTED | CONNECTING | CONNECTED.

#[global] Instance ConnState_eq_dec : EqDecision ConnState.
Proof. solve_decision. Defined.

(** ** Python values, exceptions, callbacks *)

(** Arguments of the outbound API: what [str(arg)] is applied to. *)
Inductive sarg := AStr (s : pystr) | AInt (z : Z).

(** [str(arg)] *)
Definition py_str (a : sarg) : pystr :=
  match a with
  | AStr s => s
  | AInt z => str (pretty z)
  end.

(** Values handed to callbacks. *)
Inductive pyval := VStr (s : pystr) | VInt (z : Z) | VList (l : list pystr).

(** Exception classes that occur; all are subclasses of [Exception]. *)
Inductive exn :=
  TypeError | OSError | MemoryError | StructError | UnicodeError
| AttributeError | OtherError.

(** A call with positional and keyword arguments. *)
Record call := Call { c_args : list pyval; c_kwargs : list (pystr * pyval) }.

Inductive outcome := Returns | Raises (e : exn).

(** A registered callback: user code, seen through what a call does.
    Callbacks are taken not to touch the engine object themselves. *)
Definition handler : Type := call → outcome.

(** ** The socket *)

(** What the next [conn.send(chunk)] does: accept up to [n] bytes and return
    that count, or raise [OSError].  When the script is exhausted the socket
    accepts everything. *)
Inductive send_result := Accepts (n : nat) | SendFails.

Record socket := Socket {
  send_script : list send_result;
  close_fails : bool (* conn.close() raises OSError *)
}.

(** ** Observable actions *)

Inductive log_msg :=
| LogEvent (evt : pystr) (a : list pyval)
| LogLegacyCallbackError (evt : pystr) (e : exn)
| LogCallbackError (evt : pystr) (e : exn)
| LogWarnCannotSend
| LogHwLoginNoToken
| LogEncodeError (cmd : Z)
| LogSendAuth (cmd msg_id : Z) (dlen : sarg)
| LogSend (cmd msg_id : Z) (dlen : sarg) (args : list sarg)
| LogSendError (e : exn)
| LogWarnConnectState (st : ConnState)
| LogProtocolDisconnected
| LogHeartbeatTimeout
| LogPingError (e : exn)
| LogInvalidMsgId
| LogInvalidLen (dlen buffin : Z)
| LogRecvRsp (cmd msg_id status : Z)
| LogConnOK
| LogConnFailed (status : Z)
| LogUtf8Error
| LogRecv (cmd msg_id : Z) (args : list pystr)
| LogUnsupportedHW (a0 : pystr)
| LogMalformedHW (args : list pystr)
| LogMalformedInternal (args : list pystr)
| LogIgnoring (cmd : Z)
| LogAlreadyConnected
| LogConnecting
| LogResolved
| LogSocketConnected
| LogConnectMemoryError
| LogConnectFailed
| LogConnectUnexpected (e : exn)
| LogSocketClosed
| LogSocketCloseError
| LogSocketWriteError
| LogProtocolError (e : exn)
| LogSocketReadError
| LogRecvUnexpected (e : exn)
| LogProcessError (e : exn).

Inductive event :=
| Log (m : log_msg)            (* self.log(...) *)
| Print (s : string)           (* print(...) *)
| Invoke (evt : pystr) (c : call) (* self.callbacks[evt] is called *)
| Wire (data : bytes)          (* bytes accepted by conn.send *)
| SockClose.                   (* conn.close() succeeded *)

(** ** The object and its environment *)

Record Blynk := mkBlynk {
  callbacks : gmap pystr handler; (* self.callbacks *)
  heartbeat : Z; (* self.heartbeat, in milliseconds *)
  buffin : Z; (* self.buffin *)
  auth : sarg; (* self.auth *)
  state : ConnState; (* self.state *)
  msg_id : Z; (* self.msg_id *)
  lastRecv : Z; (* self.lastRecv *)
  lastSend : Z; (* self.lastSend *)
  lastPing : Z; (* self.lastPing *)
  bin : bytes; (* self.bin *)
  conn : option socket; (* self.conn *)
  last_connect_attempt : Z; (* self._last_connect_attempt *)
  connect_retry_interval : Z; (* self._connect_retry_interval *)
  clock_now : Z; (* last value returned by gettime() *)
  clock_next : list Z (* values the coming gettime() calls return *)
}.

Definition set_callbacks (v : gmap pystr handler) (w : Blynk) : Blynk :=
  {| callbacks := v; heartbeat := heartbeat w; buffin := buffin w;
     auth := auth w; state := state w; msg_id := msg_id w;
     lastRecv := lastRecv w; lastSend := lastSend w;
     lastPing := lastPing w; bin := bin w; conn := conn w;
     last_connect_attempt := last_connect_attempt w;
     connect_retry_interval := connect_retry_interval w;
     clock_now := clock_now w; clock_next := clock_next w |}.

Definition set_state (v : ConnState) (w : Blynk) : Blynk :=
  {| callbacks := callbacks w; heartbeat := heartbeat w;
     buffin := buffin w; auth := auth w; state := v; msg_id := msg_id w;
     lastRecv := lastRecv w; lastSend := lastSend w;
     lastPing := lastPing w; bin := bin w; conn := conn w;
     last_connect_attempt := last_connect_attempt w;
     connect_retry_interval := connect_retry_interval w;
     clock_now := clock_now w; clock_next := clock_next w |}.

Definition set_msg_id (v : Z) (w : Blynk) : Blynk :=
  {| callbacks := callbacks w; heartbeat := heartbeat w;
     buffin := buffin w; auth := auth w; state := state w; msg_id := v;
     lastRecv := lastRecv w; lastSend := lastSend w;
     lastPing := lastPing w; bin := bin w; conn := conn w;
     last_connect_attempt := last_connect_attempt w;
     connect_retry_interval := connect_retry_interval w;
     clock_now := clock_now w; clock_next := clock_next w |}.

Definition set_lastRecv (v : Z) (w : Blynk) : Blynk :=
  {| callbacks := callbacks w; heartbeat := heartbeat w;
     buffin := buffin w; auth := auth w; state := state w;
     msg_id := msg_id w; lastRecv := v; lastSend := lastSend w;
     lastPing := lastPing w; bin := bin w; conn := conn w;
     last_connect_attempt := last_connect_attempt w;
     connect_retry_interval := connect_retry_interval w;
     clock_now := clock_now w; clock_next := clock_next w |}.

Definition set_lastSend (v : Z) (w : Blynk) : Blynk :=
  {| callbacks := callbacks w; heartbeat := heartbeat w;
     buffin := buffin w; auth := auth w; state := state w;
     msg_id := msg_id w; lastRecv := lastRecv w; lastSend := v;
     lastPing := lastPing w; bin := bin w; conn := conn w;
     last_connect_attempt := last_connect_attempt w;
     connect_retry_interval := connect_retry_interval w;
     clock_now := clock_now w; clock_next := clock_next w |}.

Definition set_lastPing (v : Z) (w : Blynk) : Blynk :=
  {| callbacks := callbacks w; heartbeat := heartbeat w;
     buffin := buffin w; auth := auth w; state := state w;
     msg_id := msg_id w; lastRecv := lastRecv w; lastSend := lastSend w;
     lastPing := v; bin := bin w; conn := conn w;
     last_connect_attempt := last_connect_attempt w;
     connect_retry_interval := connect_retry_interval w;
     clock_now := clock_now w; clock_next := clock_next w |}.

Definition set_bin (v : bytes) (w : Blynk) : Blynk :=
  {| callbacks := callbacks w; heartbeat := heartbeat w;
     buffin := buffin w; auth := auth w; state := state w;
     msg_id := msg_id w; lastRecv := lastRecv w; lastSend := lastSend w;
     lastPing := lastPing w; bin := v; conn := conn w;
     last_connect_attempt := last_connect_attempt w;
     connect_retry_interval := connect_retry_interval w;
     clock_now := clock_now w; clock_next := clock_next w |}.

Definition set_conn (v : option socket) (w : Blynk) : Blynk :=
  {| callbacks := callbacks w; heartbeat := heartbeat w;
     buffin := buffin w; auth := auth w; state := state w;
     msg_id := msg_id w; lastRecv := lastRecv w; lastSend := lastSend w;
     lastPing := lastPing w; bin := bin w; conn := v;
     last_connect_attempt := last_connect_attempt w;
     connect_retry_interval := connect_retry_interval w;
     clock_now := clock_now w; clock_next := clock_next w |}.

Definition set_last_connect_attempt (v : Z) (w : Blynk) : Blynk :=
  {| callbacks := callbacks w; heartbeat := heartbeat w;
     buffin := buffin w; auth := auth w; state := state w;
     msg_id := msg_id w; lastRecv := lastRecv w; lastSend := lastSend w;
     lastPing := lastPing w; bin := bin w; conn := conn w;
     last_connect_attempt := v;
     connect_retry_interval := connect_retry_interval w;
     clock_now := clock_now w; clock_next := clock_next w |}.

Definition set_clock (t : Z) (r : list Z) (w : Blynk) : Blynk :=
  {| callbacks := callbacks w; heartbeat := heartbeat w;
     buffin := buffin w; auth := auth w; state := state w;
     msg_id := msg_id w; lastRecv := lastRecv w; lastSend := lastSend w;
     lastPing := lastPing w; bin := bin w; conn := conn w;
     last_connect_attempt := last_connect_attempt w;
     connect_retry_interval := connect_retry_interval w; clock_now := t;
     clock_next := r |}.


(** [BlynkProtocol.__init__] followed by [Blynk.__init__]; the clock is
    the environment's. *)
Definition init (auth : sarg) (heartbeat buffin : Z) (t : Z) (r : list Z)
  : Blynk :=
  {| callbacks := ∅; heartbeat := heartbeat * 1000; buffin := buffin;
     auth := auth; state := DISCONNECTED; msg_id := 1; lastRecv := 0;
     lastSend := 0; lastPing := 0; bin := []; conn := None;
     last_connect_attempt := 0; connect_retry_interval := 5000;
     clock_now := t; clock_next := r |}.

(** ** The monad: state, exceptions and a trace of actions *)

Inductive res (A : Type) :=
| Ok (a : A)      (* normal completion *)
| Exc (e : exn)   (* an exception propagates *)
| NoFuel.         (* a loop bound of the model was hit; shown unreachable *)
Arguments Ok {A} a.
Arguments Exc {A} e.
Arguments NoFuel {A}.

Record run (A : Type) := Run {
  world : Blynk;
  trace : list event;
  result : res A
}.
Arguments Run {A} world trace result.
Arguments world {A} r.
Arguments trace {A} r.
Arguments result {A} r.

Definition M (A : Type) : Type := Blynk → run A.

Definition ret {A} (a : A) : M A := λ w, Run w [] (Ok a).

Definition bind {A B} (m : M A) (f : A → M B) : M B := λ w,
  let r := m w in
  match result r with
  | Ok a => let r' := f a (world r) in
            Run (world r') (trace r ++ trace r') (result r')
  | Exc e => Run (world r) (trace r) (Exc e)
  | NoFuel => Run (world r) (trace r) NoFuel
  end.

Definition raise {A} (e : exn) : M A := λ w, Run w [] (Exc e).

Definition out_of_fuel {A} : M A := λ w, Run w [] NoFuel.

(** [try: m  except Exception as e: h e] *)
Definition try_except {A} (m : M A) (h : exn → M A) : M A := λ w,
  let r := m w in
  match result r with
  | Exc e => let r' := h e (world r) in
             Run (world r') (trace r ++ trace r') (result r')
  | _ => r
  end.

Definition gets {A} (f : Blynk → A) : M A := λ w, Run w [] (Ok (f w)).

Definition modify (f : Blynk → Blynk) : M unit := λ w, Run (f w) [] (Ok tt).

Definition tell (e : event) : M unit := λ w, Run w [e] (Ok tt).

Declare Scope blynk_scope.
Delimit Scope blynk_scope with blynk.
Notation "'let*' x ':=' m 'in' k" := (bind m (λ x, k))
  (at level 10, x name, m at level 100, k at level 200) : blynk_scope.
Notation "m ;; k" := (bind m (λ _, k))
  (at level 100, k at level 200, right associativity) : blynk_scope.
Local Open Scope blynk_scope.

Definition log (m : log_msg) : M unit := tell (Log m).

Definition when (b : bool) (m : M unit) : M unit := if b then m else ret tt.

(** [gettime()]: the next reading of the monotonic clock, in ms. *)
Definition gettime : M Z :=
  let* nxt := gets clock_next in
  match nxt with
  | [] => gets clock_now
  | t :: r => modify (set_clock t r) ;; ret t
  end.

(** ** BlynkProtocol: callbacks *)

(** [on(evt, func)] *)
Definition on (evt : pystr) (func : handler) : M unit :=
  let* cbs := gets callbacks in
  modify (set_callbacks (<[evt := func]> cbs)).

(** A call of [self.callbacks[evt]]. *)
Definition invoke (evt : pystr) (f : handler) (c : call) : M unit :=
  tell (Invoke evt c) ;;
  match f c with
  | Returns => ret tt
  | Raises e => raise e
  end.

Definition emit (evt : pystr) (a : list pyval) (kv : list (pystr * pyval))
  : M unit :=
  log (LogEvent evt a) ;;
  let* cbs := gets callbacks in
  match cbs !! evt with
  | None => ret tt
  | Some f =>
      try_except (invoke evt f (Call a kv))
        (λ e,
          match e with
          | TypeError =>
              if bool_decide (evt = str "connected")
                 && bool_decide (str "ping" ∈ kv.*1)
              then try_except (invoke evt f (Call [] []))
                     (λ inner_e, log (LogLegacyCallbackError evt inner_e))
              else log (LogCallbackError evt e)
          | _ => raise e
          end)
  end.

(** ** Disconnecting *)

(** [BlynkProtocol.disconnect] *)
Definition protocol_disconnect : M unit :=
  let* prev_state := gets state in
  if bool_decide (prev_state = DISCONNECTED) then ret tt
  else
    modify (set_state DISCONNECTED) ;;
    when (negb (bool_decide (prev_state = DISCONNECTED)))
         (emit (str "disconnected") [] []) ;;
    log LogProtocolDisconnected.

(** [Blynk.disconnect]: what [self.disconnect()] runs on a [Blynk] object. *)
Definition disconnect : M unit :=
  let* c := gets conn in
  match c with
  | Some s =>
      (if close_fails s then log LogSocketCloseError
       else tell SockClose ;; log LogSocketClosed) ;;
      modify (set_conn None)
  | None => ret tt
  end ;;
  protocol_disconnect.

(** ** Blynk: the transport write *)

(** [self.conn.send(chunk)] *)
Definition conn_send (chunk : bytes) : M nat :=
  let* c := gets conn in
  match c with
  | None => raise AttributeError
  | Some s =>
      match send_script s with
      | [] => tell (Wire chunk) ;; ret (length chunk)
      | Accepts n :: r =>
          modify (set_conn (Some (Socket r (close_fails s)))) ;;
          tell (Wire (take n chunk)) ;;
          ret (n `min` length chunk)%nat
      | SendFails :: r =>
          modify (set_conn (Some (Socket r (close_fails s)))) ;;
          raise OSError
      end
  end.

(** The [while bytes_sent < len(data)] loop of [_write]. *)
Fixpoint send_loop (fuel : nat) (data : bytes) (bytes_sent : nat) : M unit :=
  if (bytes_sent <? length data)%nat then
    match fuel with
    | O => out_of_fuel
    | S fuel' =>
        let* sent := conn_send (drop bytes_sent data) in
        if (sent =? 0)%nat then raise OSError
        else send_loop fuel' data (bytes_sent + sent)%nat
    end
  else ret tt.

Definition _write (data : bytes) : M unit :=
  let* c := gets conn in
  let* st := gets state in
  if negb (bool_decide (is_Some c)) || bool_decide (st = DISCONNECTED)
  then raise OSError
  else
    try_except (send_loop (length data) data 0)
      (λ e,
        match e with
        | OSError => log LogSocketWriteError ;; disconnect ;; raise OSError
        | _ => raise e
        end).

(** ** BlynkProtocol: sending *)

(** The message-id block of [_send]: the [id] keyword if given, else the
    counter, which then advances and wraps from 0xFFFF to 1. *)
Definition alloc_msg_id (id_kw : option Z) : M Z :=
  match id_kw with
  | Some i => ret i
  | None =>
      let* i := gets msg_id in
      modify (set_msg_id (i + 1)) ;;
      let* j := gets msg_id in
      when (j >? 0xFFFF) (modify (set_msg_id 1)) ;;
      ret i
  end.

(** The payload block of [_send]: the body and the value of the length
    field, an early [return] after a log line, or an exception. *)
Inductive payload :=
| PayloadOk (data : bytes) (dlen : sarg)
| PayloadReturn (m : log_msg)
| PayloadRaise (e : exn).

Definition encode_payload (cmd : Z) (args : list sarg) : payload :=
  if cmd =? MSG_RSP then
    PayloadOk [] (match args with
                  | a :: _ => a
                  | [] => AInt STA_SUCCESS
                  end)
  else if cmd =? MSG_HW_LOGIN then
    match args with
    | AStr token :: _ =>
        match utf8_encode token with
        | Some data => PayloadOk data (AInt (Z.of_nat (length data)))
        | None => PayloadRaise UnicodeError
        end
    | _ => PayloadReturn LogHwLoginNoToken
    end
  else
    match utf8_encode (join NUL (py_str <$> args)) with
    | Some data => PayloadOk data (AInt (Z.of_nat (length data)))
    | None => PayloadReturn (LogEncodeError cmd)
    end.

(** [struct.pack("!BHH", cmd, msg_id, dlen)] on Python values; [None] is
    [struct.error]. *)
Definition pack_header (cmd msg_id : Z) (dlen : sarg) : option bytes :=
  match dlen with
  | AInt n => struct_pack cmd msg_id n
  | AStr _ => None
  end.

Definition _send (cmd : Z) (args : list sarg) (id_kw : option Z) : M unit :=
  let* st := gets state in
  if bool_decide (st = DISCONNECTED) then log LogWarnCannotSend
  else
    let* msg_id := alloc_msg_id id_kw in
    match encode_payload cmd args with
    | PayloadReturn m => log m
    | PayloadRaise e => raise e
    | PayloadOk data dlen =>
        (if cmd =? MSG_HW_LOGIN then log (LogSendAuth cmd msg_id dlen)
         else log (LogSend cmd msg_id dlen args)) ;;
        match pack_header cmd msg_id dlen with
        | None => raise StructError
        | Some hdr =>
            let msg := hdr ++ data in
            let* t := gettime in
            modify (set_lastSend t) ;;
            try_except (_write msg)
              (λ e, log (LogSendError e) ;; disconnect)
        end
    end.

(** ** BlynkProtocol: the outbound API *)

Definition virtual_write (pin : sarg) (val : list sarg) : M unit :=
  _send MSG_HW (AStr (str "vw") :: pin :: val) None.

Definition set_property (pin prop : sarg) (val : list sarg) : M unit :=
  _send MSG_PROPERTY (pin :: prop :: val) None.

Definition sync_virtual (pins : list sarg) : M unit :=
  _send MSG_HW_SYNC (AStr (str "vr") :: pins) None.

Definition notify (msg : sarg) : M unit := _send MSG_NOTIFY [msg] None.

Definition tweet (msg : sarg) : M unit := _send MSG_TWEET [msg] None.

Definition log_event (event : sarg) (descr : option sarg) : M unit :=
  match descr with
  | None => _send MSG_EVENT_LOG [event] None
  | Some d => _send MSG_EVENT_LOG [event; d] None
  end.

(** ** BlynkProtocol: connecting *)

(** [BlynkProtocol.connect] *)
Definition protocol_connect : M unit :=
  let* st := gets state in
  when (negb (bool_decide (st = CONNECTING)))
       (log (LogWarnConnectState st) ;; modify (set_state CONNECTING)) ;;
  modify (set_msg_id 1) ;;
  let* t := gettime in
  modify (set_lastRecv t) ;;
  modify (set_lastSend 0) ;;
  modify (set_lastPing 0) ;;
  modify (set_bin []) ;;
  let* a := gets auth in
  _send MSG_HW_LOGIN [a] None.

(** ** BlynkProtocol: processing received data *)

(** The dispatch block of [process]. *)
Definition dispatch (cmd msg_id : Z) (args : list pystr) : M unit :=
  if cmd =? MSG_PING then _send MSG_RSP [AInt STA_SUCCESS] (Some msg_id)
  else if (cmd =? MSG_HW) || (cmd =? MSG_BRIDGE) then
    match args with
    | a0 :: pin_str :: rest =>
        if bool_decide (a0 = str "vw") then
          emit (str "V" ++ pin_str) [VList rest] [] ;;
          emit (str "V*") [VStr pin_str; VList rest] []
        else if bool_decide (a0 = str "vr") then
          emit (str "readV" ++ pin_str) [] [] ;;
          emit (str "readV*") [VStr pin_str] []
        else log (LogUnsupportedHW a0)
    | _ => log (LogMalformedHW args)
    end
  else if cmd =? MSG_INTERNAL then
    match args with
    | a0 :: rest => emit (str "int_" ++ a0) [VList rest] []
    | [] => log (LogMalformedInternal args)
    end
  else log (LogIgnoring cmd).

(** How one turn of the [while True] loop ends. *)
Inductive ctl := Continue | Return.

(** The fields of the client-info message sent after a successful login. *)
Definition client_info (hb bf : Z) : list sarg :=
  [AStr (str "ver"); AStr (str _VERSION); AStr (str "h-beat");
   AInt (hb / 1000); AStr (str "buff-in"); AInt bf;
   AStr (str "dev"); AStr (str "cp")].

(** The login-response block of [process]. *)
Definition login_response (now status_code : Z) : M ctl :=
  if status_code =? STA_SUCCESS then
    modify (set_state CONNECTED) ;;
    let* ls := gets lastSend in
    let connect_time := now - ls in
    let* hb := gets heartbeat in
    let* bf := gets buffin in
    _send MSG_INTERNAL (client_info hb bf) None ;;
    log LogConnOK ;;
    emit (str "connected") [] [(str "ping", VInt connect_time)] ;;
    ret Continue
  else
    log (LogConnFailed status_code) ;;
    when (status_code =? STA_INVALID_TOKEN)
         (tell (Print "!!! ERROR: Invalid Blynk auth token !!!")) ;;
    disconnect ;;
    ret Return.

(** One turn of the [while True] loop of [process]. *)
Definition process_one (now : Z) : M ctl :=
  let* b := gets bin in
  if (length b <? 5)%nat then ret Return
  else
    match struct_unpack (take 5 b) with
    | None => raise StructError
    | Some (cmd, msg_id, dlen) =>
        if msg_id =? 0 then log LogInvalidMsgId ;; disconnect ;; ret Return
        else
          let* bf := gets buffin in
          if (dlen <? 0) || (dlen >? bf * 2) then
            log (LogInvalidLen dlen bf) ;; disconnect ;; ret Return
          else
            modify (set_lastRecv now) ;;
            if cmd =? MSG_RSP then
              modify (set_bin (drop 5 b)) ;;
              log (LogRecvRsp cmd msg_id dlen) ;;
              let* st := gets state in
              if bool_decide (st = CONNECTING) && (msg_id =? 1)
              then login_response now dlen
              else ret Continue
            else if (Z.of_nat (length b) <? 5 + dlen) then ret Return
            else
              let data := take (Z.to_nat dlen) (drop 5 b) in
              modify (set_bin (drop (5 + Z.to_nat dlen) b)) ;;
              let* args :=
                match decode_fields data with
                | Some a => ret a
                | None => log LogUtf8Error ;; ret []
                end in
              log (LogRecv cmd msg_id args) ;;
              dispatch cmd msg_id args ;;
              ret Continue
    end.

Fixpoint process_loop (fuel : nat) (now : Z) : M unit :=
  match fuel with
  | O => out_of_fuel
  | S fuel' =>
      let* c := process_one now in
      match c with
      | Return => ret tt
      | Continue => process_loop fuel' now
      end
  end.

(** The heartbeat block of [process]: a ping when one is due. *)
Definition ping_due (now : Z) (w : Blynk) : bool :=
  bool_decide (state w = CONNECTED)
  && (now - lastPing w >? heartbeat w / 10)
  && ((now - lastSend w >? heartbeat w)
      || (now - lastRecv w >? heartbeat w)).

Definition send_ping (now : Z) : M unit :=
  let* due := gets (ping_due now) in
  when due
    (try_except (_send MSG_PING [] None ;; modify (set_lastPing now))
       (λ e, log (LogPingError e))).

(** [if data: self.bin += data] *)
Definition append_data (data : option bytes) : M unit :=
  match data with
  | Some ((_ :: _) as d) => let* b := gets bin in modify (set_bin (b ++ d))
  | _ => ret tt
  end.

(** The timeout test of [process]. *)
Definition timed_out (now : Z) (w : Blynk) : bool :=
  now - lastRecv w >? heartbeat w + heartbeat w / 2.

(** [BlynkProtocol.process(data)]; [None] is the timer-only call. *)
Definition process (data : option bytes) : M unit :=
  let* st := gets state in
  if bool_decide (st = DISCONNECTED) then ret tt
  else
    let* now := gettime in
    let* late := gets (timed_out now) in
    if late : bool then log LogHeartbeatTimeout ;; disconnect
    else
      send_ping now ;;
      append_data data ;;
      let* b := gets bin in
      process_loop (S (length b)) now.

(** ** Blynk: connecting and the polling driver *)

(** What the socket pool does during [Blynk.connect]. *)
Inductive pool_result :=
| ResolveFails (e : exn)              (* pool.getaddrinfo raises *)
| SocketFails (e : exn)               (* pool.socket raises *)
| ConnectFails (s : socket) (e : exn) (* conn.connect raises *)
| Connects (s : socket).

(** [Blynk.connect] *)
Definition connect (p : pool_result) : M bool :=
  let* st := gets state in
  if negb (bool_decide (st = DISCONNECTED)) then
    log LogAlreadyConnected ;; ret true
  else
    let* now := gettime in
    let* last := gets last_connect_attempt in
    let* interval := gets connect_retry_interval in
    if now - last <? interval then ret false
    else
      modify (set_last_connect_attempt now) ;;
      log LogConnecting ;;
      modify (set_state CONNECTING) ;;
      try_except
        (match p with
         | ResolveFails e => raise e
         | SocketFails e => log LogResolved ;; raise e
         | ConnectFails s e =>
             log LogResolved ;; modify (set_conn (Some s)) ;; raise e
         | Connects s =>
             log LogResolved ;;
             modify (set_conn (Some s)) ;;
             log LogSocketConnected ;;
             protocol_connect ;;
             ret true
         end)
        (λ e,
          match e with
          | MemoryError =>
              log LogConnectMemoryError ;; disconnect ;; raise MemoryError
          | OSError => log LogConnectFailed ;; disconnect ;; ret false
          | _ => log (LogConnectUnexpected e) ;; disconnect ;; ret false
          end).

(** What [conn.recv_into(self.recv_buffer)] does in one [run]. *)
Inductive recv_result :=
| RecvBytes (d : bytes)  (* that many bytes were available *)
| RecvAgain              (* OSError with errno EAGAIN / EWOULDBLOCK *)
| RecvFails              (* any other OSError *)
| RecvRaises (e : exn).

(** [Blynk.run] *)
Definition run_once (p : pool_result) (rcv : recv_result) : M unit :=
  let* st := gets state in
  if bool_decide (st = DISCONNECTED) then connect p ;; ret tt
  else
    let* stop :=
      try_except
        (process None ;;
         let* st := gets state in ret (bool_decide (st = DISCONNECTED)))
        (λ e, log (LogProtocolError e) ;; disconnect ;; ret true) in
    if stop : bool then ret tt
    else
      let* c := gets conn in
      let* bf := gets buffin in
      let* data_received :=
        match c with
        | None => ret None
        | Some _ =>
            match rcv with
            | RecvBytes d => ret (Some (take (Z.to_nat bf) d))
            | RecvAgain => ret None
            | RecvFails => log LogSocketReadError ;; disconnect ;; ret None
            | RecvRaises OSError =>
                log LogSocketReadError ;; disconnect ;; ret None
            | RecvRaises e =>
                log (LogRecvUnexpected e) ;; disconnect ;; ret None
            end
        end in
      match data_received with
      | None => ret tt
      | Some [] => ret tt
      | Some d =>
          try_except (process (Some d))
            (λ e, log (LogProcessError e) ;; disconnect)
      end.

(** ** Observations used in the statements *)

(** The events emitted in a trace: [emit] logs each one first. *)
Definition emitted (tr : list event) : list pystr :=
  omap (λ e, match e with Log (LogEvent evt _) => Some evt | _ => None end) tr.

(** The bytes put on the wire in a trace. *)
Definition wired (tr : list event) : bytes :=
  mjoin (omap (λ e, match e with Wire d => Some d | _ => None end) tr).

(** The reading the next [gettime()] returns. *)
Definition next_time (w : Blynk) : Z :=
  match clock_next w with
  | [] => clock_now w
  | t :: _ => t
  end.

(** The clock stands still at [now]. *)
Definition frozen_at (now : Z) (w : Blynk) : Prop :=
  clock_now w = now ∧ clock_next w = [].

(** The socket is open and takes every write whole. *)
Definition reliable (w : Blynk) : Prop :=
  ∃ cf, conn w = Some (Socket [] cf).

(** A wire message as [_send] lays it out for commands other than the
    response and the hardware login. *)
Definition frame (cmd msg_id : Z) (body : bytes) : bytes :=
  default [] (struct_pack cmd msg_id (Z.of_nat (length body))) ++ body.

(** A response message: a bare header whose length field is the status. *)
Definition rsp_frame (msg_id status : Z) : bytes :=
  default [] (struct_pack MSG_RSP msg_id status).

(** ** Judgements, invariants and scenarios of the proofs *)

Definition map_world {A} (f : Blynk → Blynk) (r : run A) : run A :=
  Run (f (world r)) (trace r) (result r).

Definition prepend {A} (t : list event) (r : run A) : run A :=
  Run (world r) (t ++ trace r) (result r).

(** The run of [m] does not depend on the receive buffer and leaves it
    alone. *)
Definition blind {A} (m : M A) : Prop :=
  ∀ b w, m (set_bin b w) = map_world (set_bin b) (m w).

(** [m] never exhausts a loop bound and never reports a heartbeat
    timeout. *)
Definition tame {A} (m : M A) : Prop :=
  ∀ w, result (m w) ≠ NoFuel ∧ Log LogHeartbeatTimeout ∉ trace (m w).

Definition good {A} (m : M A) : Prop := blind m ∧ tame m.

Definition keeps {A} (P : Blynk → Prop) (m : M A) : Prop :=
  ∀ w, P w → P (world (m w)).

(** The message-id counter stays within [1, 0xFFFF]. *)
Definition msg_id_ok (w : Blynk) : Prop := 1 ≤ msg_id w ≤ 0xFFFF.

(** No event of the trace is an emission or a write. *)
Definition silent (t : list event) : Prop := emitted t = [] ∧ wired t = [].

Definition disc_trace (t : list event) : Prop :=
  wired t = [] ∧ (emitted t = [] ∨ emitted t = [str "disconnected"]).

(** The id [_send] uses and the counter it leaves behind. *)
Definition pick_id (id_kw : option Z) (w : Blynk) : Z :=
  match id_kw with
  | Some i => i
  | None => msg_id w
  end.

Definition bump_id (id_kw : option Z) (w : Blynk) : Blynk :=
  match id_kw with
  | Some _ => w
  | None => set_msg_id (if msg_id w + 1 >? 0xFFFF then 1 else msg_id w + 1) w
  end.

(** The line [_send] logs before packing. *)
Definition send_log (cmd msg_id : Z) (dlen : sarg) (args : list sarg) : log_msg :=
  if cmd =? MSG_HW_LOGIN then LogSendAuth cmd msg_id dlen
  else LogSend cmd msg_id dlen args.

(** The world after one reading of the clock. *)
Definition tick (w : Blynk) : Blynk :=
  match clock_next w with
  | [] => w
  | t :: r => set_clock t r w
  end.

(** What [_send] does on an open socket that takes every write. *)
Definition send_outcome (cmd : Z) (args : list sarg)
    (id_kw : option Z) (w : Blynk) : run unit :=
  let i := pick_id id_kw w in
  let w1 := bump_id id_kw w in
  match encode_payload cmd args with
  | PayloadReturn m => Run w1 [Log m] (Ok tt)
  | PayloadRaise e => Run w1 [] (Exc e)
  | PayloadOk data dlen =>
      match pack_header cmd i dlen with
      | None => Run w1 [Log (send_log cmd i dlen args)] (Exc StructError)
      | Some hdr =>
          Run (set_lastSend (next_time w1) (tick w1))
              [Log (send_log cmd i dlen args); Wire (hdr ++ data)] (Ok tt)
      end
  end.

Inductive api_call :=
| VirtualWrite (pin : sarg) (val : list sarg)
| SetProperty (pin prop : sarg) (val : list sarg)
| SyncVirtual (pins : list sarg)
| Notify (msg : sarg)
| Tweet (msg : sarg)
| LogEventCall (event : sarg) (descr : option sarg).

Definition api_run (c : api_call) : M unit :=
  match c with
  | VirtualWrite pin val => virtual_write pin val
  | SetProperty pin prop val => set_property pin prop val
  | SyncVirtual pins => sync_virtual pins
  | Notify msg => notify msg
  | Tweet msg => tweet msg
  | LogEventCall event descr => log_event event descr
  end.

(** The command and the fields an API call hands to [_send]. *)
Definition api_cmd (c : api_call) : Z :=
  match c with
  | VirtualWrite _ _ => MSG_HW
  | SetProperty _ _ _ => MSG_PROPERTY
  | SyncVirtual _ => MSG_HW_SYNC
  | Notify _ => MSG_NOTIFY
  | Tweet _ => MSG_TWEET
  | LogEventCall _ _ => MSG_EVENT_LOG
  end.

Definition api_args (c : api_call) : list sarg :=
  match c with
  | VirtualWrite pin val => AStr (str "vw") :: pin :: val
  | SetProperty pin prop val => pin :: prop :: val
  | SyncVirtual pins => AStr (str "vr") :: pins
  | Notify msg => [msg]
  | Tweet msg => [msg]
  | LogEventCall event None => [event]
  | LogEventCall event (Some d) => [event; d]
  end.

Definition retries (evt : pystr) (kv : list (pystr * pyval)) : bool :=
  bool_decide (evt = str "connected") && bool_decide (str "ping" ∈ kv.*1).

Definition refuses (s0 : send_result) : Prop :=
  s0 = SendFails ∨ s0 = Accepts 0.

(** How a write of [n] bytes ends on a socket with the given script:
    [Some k] when a [send] raises or returns 0 after [k] bytes have been
    taken, [None] when all the bytes get through. *)
Fixpoint write_outcome (script : list send_result) (n : nat) : option nat :=
  if (n =? 0)%nat then None
  else
    match script with
    | [] => None
    | SendFails :: _ => Some 0%nat
    | Accepts k :: r =>
        if (k =? 0)%nat then Some 0%nat
        else if (n <=? k)%nat then None
        else (λ j, (k + j)%nat) <$> write_outcome r (n - k)
    end.

(** What a program using the library, and the world around it, can do. *)
Inductive op :=
| OpOn (evt : pystr) (func : handler)
| OpConnect (p : pool_result)
| OpDisconnect
| OpProcess (data : option bytes)
| OpRun (p : pool_result) (rcv : recv_result)
| OpApi (c : api_call)
| OpClock (t : Z) (r : list Z).

Definition exec (o : op) : M unit :=
  match o with
  | OpOn evt func => on evt func
  | OpConnect p => connect p ;; ret tt
  | OpDisconnect => disconnect
  | OpProcess data => process data
  | OpRun p rcv => run_once p rcv
  | OpApi c => api_run c
  | OpClock t r => modify (set_clock t r)
  end.

Inductive reachable : Blynk → Prop :=
| reach_init auth heartbeat buffin t r :
    reachable (init auth heartbeat buffin t r)
| reach_step w o : reachable w → reachable (world (exec o w)).

Definition received (data : option bytes) : bytes := default [] data.

(** The loop with the fuel [process] gives it. *)
Definition drain (now : Z) : M unit :=
  λ w, process_loop (S (length (bin w))) now w.

(** [self.bin += d] *)
Definition app_bin (d : bytes) (w : Blynk) : Blynk := set_bin (bin w ++ d) w.

(** The world a turn leaves when it ends for lack of data, if it does. *)
Definition pending (now : Z) (w : Blynk) : option Blynk :=
  if (length (bin w) <? 5)%nat then Some w
  else
    match struct_unpack (take 5 (bin w)) with
    | Some (cmd, i, n) =>
        if (i =? 0) || (n >? buffin w * 2) || (cmd =? MSG_RSP) then None
        else if Z.of_nat (length (bin w)) <? 5 + n
             then Some (set_lastRecv now w)
             else None
    | None => None
    end.

Definition latin (s : pystr) : Prop := Forall (λ c, 0 ≤ c < 256) s.

(** The clock stands still at [now], the socket takes every write, the
    engine is not disconnected and neither a timeout nor a ping is due. *)
Record live (now : Z) (w : Blynk) : Prop := Live {
  live_clock : frozen_at now w;
  live_hb : 0 ≤ heartbeat w;
  live_id : msg_id_ok w;
  live_state : state w ≠ DISCONNECTED;
  live_conn : reliable w;
  live_timer : timed_out now w = false;
  live_ping : ping_due now w = false
}.

(** What a run hands on: a live engine, unless an exception ends it. *)
Definition carries {A} (now : Z) (r : run A) : Prop :=
  match result r with
  | Ok _ => live now (world r)
  | Exc _ => True
  | NoFuel => False
  end.

(** How a turn of the loop leaves a live engine. *)
Definition turn_ok (now : Z) (r : run ctl) : Prop :=
  match result r with
  | Ok Continue => live now (world r)
  | Ok Return => state (world r) = DISCONNECTED
  | Exc _ => True
  | NoFuel => False
  end.

(** How the loop on [w] relates to the loop on [w] with [d] behind its
    buffer, [r] being the run on [w]. *)
Definition resumes (now : Z) (d : bytes) (w : Blynk) (r : run unit) : Prop :=
  match result r with
  | Ok _ =>
      if decide (state (world r) = DISCONNECTED)
      then drain now (app_bin d w) = map_world (app_bin d) r
      else live now (world r)
           ∧ drain now (app_bin d w)
             = prepend (trace r) (drain now (app_bin d (world r)))
  | Exc _ => drain now (app_bin d w) = map_world (app_bin d) r
  | NoFuel => False
  end.

(** The timers stand still, pings are answered by the socket and the
    counter is in range: what the theorem on chunks asks of the start. *)
Definition steady (now : Z) (w : Blynk) : Prop :=
  frozen_at now w ∧ 0 ≤ heartbeat w ∧ 1 ≤ msg_id w ≤ 0xFFFF
  ∧ (state w ≠ DISCONNECTED → reliable w).

(** Two runs that differ at most in what is left in the receive buffer,
    and not even in that when they end normally and not disconnected. *)
Definition agree (r r' : run unit) : Prop :=
  trace r = trace r'
  ∧ result r = result r'
  ∧ set_bin [] (world r) = set_bin [] (world r')
  ∧ (result r = Ok tt → state (world r) ≠ DISCONNECTED → world r = world r').

(** Feeding a byte string in any number of calls. *)
Fixpoint feed (chunks : list bytes) : M unit :=
  match chunks with
  | [] => ret tt
  | c :: cs => process (Some c) ;; feed cs
  end.

(** ** Sample engines

    A device built with [Blynk(token, pool, heartbeat=10, buffin=1024)] at
    time 6000 on a clock that then stands still, the same device after
    [connect()] on a socket that takes every write, and after the server
    has accepted the login. *)
Definition fresh : Blynk := init (AStr (str "token")) 10 1024 6000 [].

Definition dialled : Blynk :=
  world (connect (Connects (Socket [] false)) fresh).

Definition online : Blynk :=
  world (process (Some (rsp_frame 1 STA_SUCCESS)) dialled).

(** The hardware message [vw 3 42] with id 2, as the server sends it. *)
Definition hw_msg : bytes :=
  frame MSG_HW 2
    (default [] (utf8_encode (join NUL [str "vw"; str "3"; str "42"]))).

(** A callback that only takes the call without arguments. *)
Definition legacy_cb : handler :=
  λ c, match c with Call [] [] => Returns | _ => Raises TypeError end.

(** A callback that fails with an exception that is not a [TypeError]. *)
Definition broken_cb : handler := λ _, Raises OtherError.

(** ** Further definitions: decorators and judgements *)

(** ** The registration decorators

    [@blynk.ON(evt)], [@blynk.VIRTUAL_READ(pin)] and
    [@blynk.VIRTUAL_WRITE(pin)] applied to [func]: the [__init__] of the
    decorator object stores [func] itself under the key. *)
Definition ON (evt : pystr) (func : handler) : M unit :=
  let* cbs := gets callbacks in
  modify (set_callbacks (<[evt := func]> cbs)).

Definition VIRTUAL_READ (pin : sarg) (func : handler) : M unit :=
  let* cbs := gets callbacks in
  modify (set_callbacks (<[str "readV" ++ py_str pin := func]> cbs)).

Definition VIRTUAL_WRITE (pin : sarg) (func : handler) : M unit :=
  let* cbs := gets callbacks in
  modify (set_callbacks (<[str "V" ++ py_str pin := func]> cbs)).

(** A [send] that takes at least one byte. *)
Definition takes_some (s : send_result) : Prop := ∃ n, s = Accepts (S n).

(** The callback registered for [evt], if any, does not let an exception
    other than [TypeError] out when called as [c]. *)
Definition contained (w : Blynk) (evt : pystr) (c : call) : Prop :=
  ∀ f : handler, callbacks w !! evt = Some f →
    f c = Returns ∨ f c = Raises TypeError.

(** What the pool makes of a connection attempt that fails. *)
Definition pool_failure (p : pool_result) : option exn :=
  match p with
  | ResolveFails e | SocketFails e | ConnectFails _ e => Some e
  | Connects _ => None
  end.

(** The receive buffer holds no complete message: it is shorter than a
    header, or it starts with the header of a message, not a response,
    that passes the checks on the id and the length and whose body has
    not arrived in full. *)
Definition waiting (w : Blynk) : Prop :=
  (length (bin w) < 5)%nat
  ∨ ∃ cmd i n,
      struct_unpack (take 5 (bin w)) = Some (cmd, i, n)
      ∧ cmd ≠ MSG_RSP ∧ i ≠ 0 ∧ n ≤ buffin w * 2
      ∧ Z.of_nat (length (bin w)) < 5 + n.

(** What holds of the final state and the value whenever [m] returns. *)
Definition yields {A} (P : Blynk → A → Prop) (m : M A) : Prop :=
  ∀ w a, result (m w) = Ok a → P (world (m w)) a.

(** A turn of the loop that returns has disconnected the engine. *)
Definition stopped (w : Blynk) (c : ctl) : Prop :=
  c = Return → state w = DISCONNECTED.

(** What the constructor and the registrations fix: the callbacks, the
    heartbeat, the buffer size, the token and the retry interval. *)
Definition config (w : Blynk)
  : gmap pystr handler * Z * Z * sarg * Z :=
  (callbacks w, heartbeat w, buffin w, auth w, connect_retry_interval w).

Definition configured (c : gmap pystr handler * Z * Z * sarg * Z)
    (w : Blynk) : Prop :=
  config w = c.

(** The socket is held exactly while the engine is not disconnected. *)
Definition tidy (w : Blynk) : Prop :=
  state w = DISCONNECTED ↔ conn w = None.

(** From [w] to [w']: the engine has shut down, or it is disconnected, and
    without a socket, exactly if it was before. *)
Definition follows (w w' : Blynk) : Prop :=
  (state w' = DISCONNECTED ∧ conn w' = None)
  ∨ ((state w' = DISCONNECTED ↔ state w = DISCONNECTED)
     ∧ (conn w' = None ↔ conn w = None)).

Definition moves {A} (m : M A) : Prop := ∀ w, follows w (world (m w)).

(** With the callbacks [cbs] registered, [m] comes back, possibly with an
    exception, and leaves the callbacks as they are. *)
Definition sound (cbs : gmap pystr handler) {A} (m : M A) : Prop :=
  ∀ w, callbacks w = cbs →
    result (m w) ≠ NoFuel ∧ callbacks (world (m w)) = cbs.

(** With the callbacks [cbs] registered, [m] returns normally and leaves
    the callbacks as they are. *)
Definition calm (cbs : gmap pystr handler) {A} (m : M A) : Prop :=
  ∀ w, callbacks w = cbs →
    (∃ a, result (m w) = Ok a) ∧ callbacks (world (m w)) = cbs.

(** [m] comes back: the bound on the loops of the model is not reached. *)
Definition returns {A} (m : M A) : Prop := ∀ w, result (m w) ≠ NoFuel.

(** [l] doubled [n] times over: a long string from a short one. *)
Fixpoint doubled {A} (n : nat) (l : list A) : list A :=
  match n with
  | O => l
  | S n' => doubled n' l ++ doubled n' l
  end.

(* ================================================================== *)
(** * Part II: theorems *)
(* ================================================================== *)

(** ** The codec on examples *)

Example e1 : utf8_decode [x41; xc3; xa9] = Some [0x41; 0xE9]. Proof. reflexivity. Qed.
Example e2 : utf8_encode [0x41; 0xE9; 0x20AC; 0x1F600] = Some [x41; xc3; xa9; xe2; x82; xac; xf0; x9f; x98; x80]. Proof. reflexivity. Qed.
Example e3 : utf8_decode [x41; xc3; xa9; xe2; x82; xac; xf0; x9f; x98; x80] = Some [0x41; 0xE9; 0x20AC; 0x1F600]. Proof. reflexivity. Qed.
Example e4 : decode_fields [x76; x77; x00; x33; x00; x34; x32] = Some [str "vw"; str "3"; str "42"]. Proof. reflexivity. Qed.
Example e5 : decode_fields [] = Some [[]]. Proof. reflexivity. Qed.
Example e6 : struct_pack 20 258 7 = Some [x14; x01; x02; x00; x07]. Proof. reflexivity. Qed.

Section Bytes.

Lemma byte_to_Z_range (b : byte) : 0 ≤ byte_to_Z b < 256.
Proof.
unfold byte_to_Z. pose proof (Byte.to_N_bounded b). lia.
Qed.

Lemma byte_to_of_Z (z : Z) : 0 ≤ z < 256 → byte_to_Z (byte_of_Z z) = z.
Proof.
intros Hz. unfold byte_to_Z, byte_of_Z.
rewrite Z.mod_small by lia.
destruct (Byte.of_N (Z.to_N z)) as [b|] eqn:E; simpl.
- apply Byte.to_of_N in E. lia.
- apply Byte.of_N_None_iff in E. lia.
Qed.

Lemma byte_of_to_Z (b : byte) : byte_of_Z (byte_to_Z b) = b.
Proof.
unfold byte_of_Z. pose proof (byte_to_Z_range b) as Hr.
rewrite Z.mod_small by lia. unfold byte_to_Z.
rewrite N2Z.id, Byte.of_to_N. reflexivity.
Qed.

Lemma byte_to_Z_inj (a b : byte) : byte_to_Z a = byte_to_Z b → a = b.
Proof.
intros H. rewrite <- (byte_of_to_Z a), <- (byte_of_to_Z b). by rewrite H.
Qed.

Lemma struct_pack_length cmd i n hdr :
struct_pack cmd i n = Some hdr → length hdr = 5%nat.
Proof.
unfold struct_pack. case_match; [|done]. by intros [= <-].
Qed.

Lemma struct_pack_Some cmd i n :
0 ≤ cmd ≤ 255 → 0 ≤ i ≤ 65535 → 0 ≤ n ≤ 65535 →
is_Some (struct_pack cmd i n).
Proof.
intros. unfold struct_pack.
replace (_ && _) with true; [by eexists|].
symmetry. repeat (apply andb_true_intro; split); lia.
Qed.

Lemma struct_pack_range cmd i n hdr :
struct_pack cmd i n = Some hdr →
0 ≤ cmd ≤ 255 ∧ 0 ≤ i ≤ 65535 ∧ 0 ≤ n ≤ 65535.
Proof.
unfold struct_pack. case_match eqn:E; [|done]. intros _.
repeat (apply andb_prop in E as [E ?]). lia.
Qed.

Lemma struct_unpack_pack cmd i n hdr :
struct_pack cmd i n = Some hdr → struct_unpack hdr = Some (cmd, i, n).
Proof.
intros H. pose proof (struct_pack_range _ _ _ _ H) as (Hc & Hi & Hn).
revert H. unfold struct_pack. case_match; [|done]. intros [= <-].
unfold struct_unpack.
rewrite !byte_to_of_Z by (Z.div_mod_to_equations; lia).
do 2 f_equal; [f_equal|]; Z.div_mod_to_equations; lia.
Qed.

End Bytes.

Section Utf8.

Ltac bool_to_prop :=
repeat match goal with
| H : (_ <? _) = true |- _ => apply Z.ltb_lt in H
| H : (_ <? _) = false |- _ => apply Z.ltb_ge in H
| H : (_ <=? _) = true |- _ => apply Z.leb_le in H
| H : (_ <=? _) = false |- _ => apply Z.leb_gt in H
| H : (_ >? _) = true |- _ => rewrite Z.gtb_ltb in H
| H : (_ >? _) = false |- _ => rewrite Z.gtb_ltb in H
| H : (_ =? _) = true |- _ => apply Z.eqb_eq in H
| H : (_ =? _) = false |- _ => apply Z.eqb_neq in H
| H : _ && _ = true |- _ => apply andb_prop in H as [? ?]
| H : _ && _ = false |- _ => apply andb_false_iff in H as [?|?]
| H : _ || _ = true |- _ => apply orb_prop in H as [?|?]
| H : _ || _ = false |- _ => apply orb_false_elim in H as [? ?]
| H : negb _ = true |- _ => apply negb_true_iff in H
| H : negb _ = false |- _ => apply negb_false_iff in H
end.

Lemma ltb_true a b : a < b → (a <? b) = true.
Proof. apply Z.ltb_lt. Qed.
Lemma ltb_false a b : b ≤ a → (a <? b) = false.
Proof. apply Z.ltb_ge. Qed.
Lemma leb_true a b : a ≤ b → (a <=? b) = true.
Proof. apply Z.leb_le. Qed.
Lemma leb_false a b : b < a → (a <=? b) = false.
Proof. apply Z.leb_gt. Qed.

Lemma utf8_decode_cons b0 t0 :
utf8_decode (b0 :: t0) =
    let z0 := byte_to_Z b0 in
    if z0 <? 0x80 then cons z0 <$> utf8_decode t0
    else if z0 <? 0xC2 then None
    else if z0 <? 0xE0 then
      match t0 with
      | b1 :: t1 =>
          let z1 := byte_to_Z b1 in
          if is_cont z1
          then cons ((z0 - 0xC0) * 64 + (z1 - 0x80)) <$> utf8_decode t1
          else None
      | _ => None
      end
    else if z0 <? 0xF0 then
      match t0 with
      | b1 :: b2 :: t2 =>
          let z1 := byte_to_Z b1 in
          let z2 := byte_to_Z b2 in
          let cp := (z0 - 0xE0) * 4096 + (z1 - 0x80) * 64 + (z2 - 0x80) in
          if is_cont z1 && is_cont z2 && (0x800 <=? cp)
             && negb (is_surrogate cp)
          then cons cp <$> utf8_decode t2
          else None
      | _ => None
      end
    else if z0 <? 0xF5 then
      match t0 with
      | b1 :: b2 :: b3 :: t3 =>
          let z1 := byte_to_Z b1 in
          let z2 := byte_to_Z b2 in
          let z3 := byte_to_Z b3 in
          let cp := (z0 - 0xF0) * 262144 + (z1 - 0x80) * 4096
                    + (z2 - 0x80) * 64 + (z3 - 0x80) in
          if is_cont z1 && is_cont z2 && is_cont z3
             && (0x10000 <=? cp) && (cp <? 0x110000)
          then cons cp <$> utf8_decode t3
          else None
      | _ => None
      end
    else None.
Proof. reflexivity. Qed.

Ltac zdm := Z.div_mod_to_equations; lia.

Lemma decode_encode_cp cp bs rest :
encode_cp cp = Some bs →
utf8_decode (bs ++ rest) = cons cp <$> utf8_decode rest.
Proof.
unfold encode_cp, is_surrogate.
repeat case_match; try done; intros [= <-]; bool_to_prop;
  cbn [app]; rewrite utf8_decode_cons; cbv beta iota zeta;
  rewrite !byte_to_of_Z by zdm;
  unfold is_cont, is_surrogate.
all: repeat match goal with
  | |- context [?a <? ?b] =>
      first [rewrite (ltb_true a b) by zdm | rewrite (ltb_false a b) by zdm]
  | |- context [?a <=? ?b] =>
      first [rewrite (leb_true a b) by zdm | rewrite (leb_false a b) by zdm]
  end.
all: cbn [andb negb]; do 2 f_equal; zdm.
Qed.

Lemma utf8_decode_encode s bs :
utf8_encode s = Some bs → utf8_decode bs = Some s.
Proof.
revert bs. induction s as [|cp s IH]; intros bs; cbn [utf8_encode].
- by intros [= <-].
- destruct (encode_cp cp) as [b|] eqn:Hb; [|done].
  destruct (utf8_encode s) as [r|]; [|done]. intros [= <-].
  rewrite (decode_encode_cp _ _ _ Hb), (IH r eq_refl). done.
Qed.

Lemma encode_cp_zero_free cp bs :
encode_cp cp = Some bs → cp ≠ 0 → x00 ∉ bs.
Proof.
unfold encode_cp, is_surrogate.
repeat case_match; try done; intros [= <-] Hnz; bool_to_prop;
  rewrite !not_elem_of_cons; repeat split; try apply not_elem_of_nil;
  intros E; apply (f_equal byte_to_Z) in E;
  rewrite byte_to_of_Z in E by zdm; cbn in E; zdm.
Qed.

Lemma utf8_encode_zero_free s bs :
utf8_encode s = Some bs → 0 ∉ s → x00 ∉ bs.
Proof.
revert bs. induction s as [|cp s IH]; intros bs; cbn [utf8_encode].
- intros [= <-] _. apply not_elem_of_nil.
- destruct (encode_cp cp) as [b|] eqn:Hb; [|done].
  destruct (utf8_encode s) as [r|]; [|done]. intros [= <-] Hn.
  rewrite not_elem_of_cons in Hn. destruct Hn as [Hn1 Hn2].
  rewrite not_elem_of_app. split.
  + eapply encode_cp_zero_free; eauto.
  + by apply IH.
Qed.

Lemma utf8_encode_app a b :
utf8_encode (a ++ b) =
match utf8_encode a, utf8_encode b with
| Some x, Some y => Some (x ++ y)
| _, _ => None
end.
Proof.
induction a as [|cp a IH]; cbn [app utf8_encode].
- by destruct (utf8_encode b).
- rewrite IH. destruct (encode_cp cp), (utf8_encode a), (utf8_encode b);
    try done. by rewrite app_assoc.
Qed.

Lemma utf8_encode_NUL : utf8_encode NUL = Some [x00].
Proof. reflexivity. Qed.

(** Every string built from 8-bit characters can be encoded. *)
Lemma utf8_encode_str (s : string) : is_Some (utf8_encode (str s)).
Proof.
unfold str. induction (String.list_ascii_of_string s) as [|a l IH];
  cbn [fmap list_fmap utf8_encode].
- by eexists.
- destruct IH as [r ->].
  assert (is_Some (encode_cp (Z.of_N (Ascii.N_of_ascii a)))) as [b ->];
    [|by eexists].
  pose proof (Ascii.N_ascii_bounded a) as Hb.
  unfold encode_cp. repeat case_match; try (by eexists); bool_to_prop; lia.
Qed.

End Utf8.

Section SplitJoin.
Context {A : Type} `{EqDecision A}.
Implicit Types (sep : A) (l : list A) (parts : list (list A)).

Lemma split_on_nonempty sep l : split_on sep l ≠ [].
Proof.
  destruct l as [|a t]; cbn; [done|].
  case_decide; [done|]. by destruct (split_on sep t).
Qed.

Lemma split_on_no_sep sep l : sep ∉ l → split_on sep l = [l].
Proof.
  induction l as [|a t IH]; cbn; [done|].
  rewrite not_elem_of_cons. intros [Hne Ht].
  rewrite decide_False by done. by rewrite IH.
Qed.

Lemma split_on_app_sep sep l t :
  sep ∉ l → split_on sep (l ++ sep :: t) = l :: split_on sep t.
Proof.
  induction l as [|a l IH]; cbn.
  - intros _. by rewrite decide_True.
  - rewrite not_elem_of_cons. intros [Hne Hl].
    rewrite decide_False by done. by rewrite IH.
Qed.

Lemma split_on_join sep parts :
  parts ≠ [] → Forall (λ p, sep ∉ p) parts →
  split_on sep (join [sep] parts) = parts.
Proof.
  induction parts as [|p ps IH]; [done|]. intros _ Hall.
  apply Forall_cons in Hall as [Hp Hps]. cbn [join].
  destruct ps as [|q qs].
  - by apply split_on_no_sep.
  - cbn [app]. rewrite split_on_app_sep by done. f_equal. by apply IH.
Qed.

End SplitJoin.

Lemma utf8_encode_join fields body :
  utf8_encode (join NUL fields) = Some body →
  ∃ parts, Forall2 (λ f p, utf8_encode f = Some p) fields parts
           ∧ body = join [x00] parts.
Proof.
  revert body. induction fields as [|f fs IH]; intros body.
  - intros [= <-]. exists []. by split.
  - cbn [join]. destruct fs as [|g gs].
    + intros Hf. exists [body]. split; [|done]. by repeat constructor.
    + rewrite utf8_encode_app.
      destruct (utf8_encode f) as [bf|] eqn:Ef; [|done].
      rewrite utf8_encode_app, utf8_encode_NUL.
      destruct (utf8_encode (join NUL (g :: gs))) as [br|] eqn:Er; [|done].
      intros [= <-]. destruct (IH br eq_refl) as (parts & Hparts & ->).
      exists (bf :: parts). split; [by constructor|].
      cbn [join]. inversion Hparts; subst. done.
Qed.

(** Fields that were joined and encoded are read back by [decode_fields],
    provided there is at least one and none contains a NUL character. *)
Lemma decode_fields_encode fields body :
  fields ≠ [] → Forall (λ f, 0 ∉ f) fields →
  utf8_encode (join NUL fields) = Some body →
  decode_fields body = Some fields.
Proof.
  intros Hne Hnul Henc.
  destruct (utf8_encode_join _ _ Henc) as (parts & Hparts & ->).
  unfold decode_fields. rewrite split_on_join.
  - apply mapM_Some. clear Hne Henc.
    induction Hparts as [|f p fs ps Hf _ IH]; constructor.
    + by apply utf8_decode_encode.
    + apply IH. by inversion Hnul.
  - intros ->. inversion Hparts; subst. done.
  - clear Hne Henc.
    induction Hparts as [|f p fs ps Hf _ IH]; constructor.
    + eapply utf8_encode_zero_free; eauto. by inversion Hnul.
    + apply IH. by inversion Hnul.
Qed.

Section Monad.
Context {A B : Type}.
Implicit Types (m : M A) (k : A → M B) (w : Blynk).

Lemma run_eta (r : run A) : Run (world r) (trace r) (result r) = r.
Proof. by destruct r. Qed.

Lemma bind_ok m k w a :
  result (m w) = Ok a →
  bind m k w = prepend (trace (m w)) (k a (world (m w))).
Proof. unfold bind, prepend. by intros ->. Qed.

Lemma bind_exc m k w e :
  result (m w) = Exc e →
  bind m k w = Run (world (m w)) (trace (m w)) (Exc e).
Proof. unfold bind. by intros ->. Qed.

Lemma bind_run m k w w1 t1 a :
  m w = Run w1 t1 (Ok a) → bind m k w = prepend t1 (k a w1).
Proof. intros H. unfold bind. by rewrite H. Qed.

Lemma blind_bind m k : blind m → (∀ a, blind (k a)) → blind (bind m k).
Proof.
  intros Hb Hk b w. unfold bind. rewrite (Hb b w).
  destruct (m w) as [w1 t1 [a| |]]; cbn; [|done..].
  by rewrite (Hk a b w1).
Qed.

Lemma tame_bind m k : tame m → (∀ a, tame (k a)) → tame (bind m k).
Proof.
  intros Hm Hk w. unfold bind. destruct (Hm w) as [Ht Hq].
  destruct (m w) as [w1 t1 [a| |]]; cbn in *; [|by split|done].
  destruct (Hk a w1) as [Ht' Hq']. split; [done|].
  rewrite elem_of_app. by intros [?|?].
Qed.

Lemma good_bind m k : good m → (∀ a, good (k a)) → good (bind m k).
Proof.
  intros [? ?] Hk. split.
  - apply blind_bind; [done|]. intros a. apply Hk.
  - apply tame_bind; [done|]. intros a. apply Hk.
Qed.

Lemma keeps_bind P m k : keeps P m → (∀ a, keeps P (k a)) → keeps P (bind m k).
Proof.
  intros Hm Hk w Hw. unfold bind. specialize (Hm w Hw).
  destruct (m w) as [w1 t1 [a| |]]; cbn in *; [|done..].
  by apply Hk.
Qed.
End Monad.

Section Rules.
Context {A : Type}.

Lemma tame_ret (a : A) : tame (ret a).
Proof. intros w. split; [done|apply not_elem_of_nil]. Qed.

Lemma tame_raise e : tame (raise e : M A).
Proof. intros w. split; [done|apply not_elem_of_nil]. Qed.

Lemma tame_gets (f : Blynk → A) : tame (gets f).
Proof. intros w. split; [done|apply not_elem_of_nil]. Qed.

Lemma tame_try (m : M A) h : tame m → (∀ e, tame (h e)) → tame (try_except m h).
Proof.
  intros Hm Hh w. unfold try_except. destruct (Hm w) as [Ht Hq].
  destruct (m w) as [w1 t1 [a|e|]]; cbn in *; [by split| |done].
  destruct (Hh e w1) as [Ht' Hq']. split; [done|].
  rewrite elem_of_app. by intros [?|?].
Qed.

Lemma good_ret (a : A) : good (ret a).
Proof. split; [done|apply tame_ret]. Qed.

Lemma good_raise e : good (raise e : M A).
Proof. split; [done|apply tame_raise]. Qed.

Lemma good_gets (f : Blynk → A) :
  (∀ b w, f (set_bin b w) = f w) → good (gets f).
Proof.
  intros Hf. split; [|apply tame_gets].
  intros b w. unfold gets, map_world; cbn. by rewrite Hf.
Qed.

Lemma good_try (m : M A) h : good m → (∀ e, good (h e)) → good (try_except m h).
Proof.
  intros [Hb Ht] Hh. split; [|apply tame_try; [done|intros e; apply Hh]].
  intros b w. unfold try_except. rewrite (Hb b w).
  destruct (m w) as [w1 t1 [a|e|]]; cbn; [done| |done].
  destruct (Hh e) as [Hkb _]. by rewrite (Hkb b w1).
Qed.

Lemma keeps_ret P (a : A) : keeps P (ret a).
Proof. by intros w. Qed.

Lemma keeps_raise P e : keeps P (raise e : M A).
Proof. by intros w. Qed.

Lemma keeps_fuel P : keeps P (out_of_fuel : M A).
Proof. by intros w. Qed.

Lemma keeps_gets P (f : Blynk → A) : keeps P (gets f).
Proof. by intros w. Qed.

Lemma keeps_try P (m : M A) h : keeps P m → (∀ e, keeps P (h e)) → keeps P (try_except m h).
Proof.
  intros Hm Hh w Hw. unfold try_except. specialize (Hm w Hw).
  destruct (m w) as [w1 t1 [a|e|]]; cbn in *; [done| |done].
  by apply Hh.
Qed.
End Rules.

Lemma tame_modify f : tame (modify f).
Proof. intros w. split; [done|apply not_elem_of_nil]. Qed.

Lemma tame_tell e : e ≠ Log LogHeartbeatTimeout → tame (tell e).
Proof.
  intros He w. split; [done|]. cbn.
  intros Hin. apply list_elem_of_singleton in Hin. congruence.
Qed.

Lemma tame_log m : m ≠ LogHeartbeatTimeout → tame (log m).
Proof. intros. apply tame_tell. congruence. Qed.

Lemma tame_when b m : tame m → tame (when b m).
Proof. destruct b; [done|]. intros _. apply tame_ret. Qed.

Lemma good_modify f :
  (∀ b w, f (set_bin b w) = set_bin b (f w)) → good (modify f).
Proof.
  intros Hf. split; [|apply tame_modify].
  intros b w. unfold modify, map_world; cbn. by rewrite Hf.
Qed.

Lemma good_tell e : e ≠ Log LogHeartbeatTimeout → good (tell e).
Proof. intros He. split; [done|by apply tame_tell]. Qed.

Lemma good_log m : m ≠ LogHeartbeatTimeout → good (log m).
Proof. intros. apply good_tell. congruence. Qed.

Lemma good_when b m : good m → good (when b m).
Proof. destruct b; [done|]. intros _. apply good_ret. Qed.

Lemma good_tame {A} (m : M A) : good m → tame m.
Proof. by intros [_ ?]. Qed.

Lemma keeps_modify P f : (∀ w, P w → P (f w)) → keeps P (modify f).
Proof. intros Hf w Hw. by apply Hf. Qed.

Lemma keeps_tell P e : keeps P (tell e).
Proof. by intros w. Qed.

Lemma keeps_log P m : keeps P (log m).
Proof. by intros w. Qed.

Lemma keeps_when P b m : keeps P m → keeps P (when b m).
Proof. destruct b; [done|]. intros _. apply keeps_ret. Qed.

Create HintDb good discriminated.
Create HintDb keeps discriminated.

Ltac good_step :=
  lazymatch goal with
  | |- good (bind _ _) => apply good_bind; [|intros ?]
  | |- good (ret _) => apply good_ret
  | |- good (raise _) => apply good_raise
  | |- good (gets _) => apply good_gets; reflexivity
  | |- good (modify _) => apply good_modify; reflexivity
  | |- good (tell _) => apply good_tell; discriminate
  | |- good (log _) => apply good_log; discriminate
  | |- good (try_except _ _) => apply good_try; [|intros ?]
  | |- good (when _ _) => apply good_when
  | |- good (if ?b then _ else _) => destruct b
  | |- good (match ?x with _ => _ end) => destruct x
  | |- good (let _ := _ in _) => cbv zeta
  | |- good _ => solve [eauto with good]
  end.
Ltac good_tac := repeat good_step.

Ltac tame_step :=
  lazymatch goal with
  | |- tame (bind _ _) => apply tame_bind; [|intros ?]
  | |- tame (ret _) => apply tame_ret
  | |- tame (raise _) => apply tame_raise
  | |- tame (gets _) => apply tame_gets
  | |- tame (modify _) => apply tame_modify
  | |- tame (tell _) => apply tame_tell; discriminate
  | |- tame (log _) => apply tame_log; discriminate
  | |- tame (try_except _ _) => apply tame_try; [|intros ?]
  | |- tame (when _ _) => apply tame_when
  | |- tame (if ?b then _ else _) => destruct b
  | |- tame (match ?x with _ => _ end) => destruct x
  | |- tame (let _ := _ in _) => cbv zeta
  | |- tame _ => solve [apply good_tame; eauto with good]
  end.
Ltac tame_tac := repeat tame_step.

Ltac keeps_step :=
  lazymatch goal with
  | |- keeps _ (bind _ _) => apply keeps_bind; [|intros ?]
  | |- keeps _ (ret _) => apply keeps_ret
  | |- keeps _ (raise _) => apply keeps_raise
  | |- keeps _ out_of_fuel => apply keeps_fuel
  | |- keeps _ (gets _) => apply keeps_gets
  | |- keeps _ (tell _) => apply keeps_tell
  | |- keeps _ (log _) => apply keeps_log
  | |- keeps _ (try_except _ _) => apply keeps_try; [|intros ?]
  | |- keeps _ (when _ _) => apply keeps_when
  | |- keeps _ (if ?b then _ else _) => destruct b
  | |- keeps _ (match ?x with _ => _ end) => destruct x
  | |- keeps _ (let _ := _ in _) => cbv zeta
  | |- keeps _ _ => solve [eauto with keeps]
  end.
Ltac keeps_tac := repeat keeps_step.

Lemma good_gettime : good gettime.
Proof. unfold gettime. good_tac. Qed.
#[export] Hint Resolve good_gettime : good.

Lemma good_invoke evt f c : good (invoke evt f c).
Proof. unfold invoke. good_tac. Qed.
#[export] Hint Resolve good_invoke : good.

Lemma good_emit evt a kv : good (emit evt a kv).
Proof. unfold emit. good_tac. Qed.
#[export] Hint Resolve good_emit : good.

Lemma good_protocol_disconnect : good protocol_disconnect.
Proof. unfold protocol_disconnect. good_tac. Qed.
#[export] Hint Resolve good_protocol_disconnect : good.

Lemma good_disconnect : good disconnect.
Proof. unfold disconnect. good_tac. Qed.
#[export] Hint Resolve good_disconnect : good.

Lemma good_conn_send chunk : good (conn_send chunk).
Proof. unfold conn_send. good_tac. Qed.
#[export] Hint Resolve good_conn_send : good.

Lemma good_send_loop fuel data n :
  (length data - n ≤ fuel)%nat → good (send_loop fuel data n).
Proof.
  revert n. induction fuel as [|fuel IH]; intros n Hn; cbn [send_loop].
  - destruct (n <? length data)%nat eqn:E; [|apply good_ret].
    apply Nat.ltb_lt in E. lia.
  - destruct (n <? length data)%nat eqn:E; [|apply good_ret].
    apply Nat.ltb_lt in E.
    apply good_bind; [apply good_conn_send|intros sent].
    destruct (sent =? 0)%nat eqn:E0; [apply good_raise|].
    apply Nat.eqb_neq in E0. apply IH. lia.
Qed.

Lemma good_write data : good (_write data).
Proof.
  unfold _write. good_tac. apply good_send_loop. lia.
Qed.
#[export] Hint Resolve good_write : good.

Lemma good_alloc_msg_id idk : good (alloc_msg_id idk).
Proof. unfold alloc_msg_id. good_tac. Qed.
#[export] Hint Resolve good_alloc_msg_id : good.

Lemma good_send cmd args idk : good (_send cmd args idk).
Proof.
  unfold _send. apply good_bind; [good_tac|intros st].
  destruct (bool_decide _); [good_tac|].
  apply good_bind; [good_tac|intros i].
  destruct (encode_payload cmd args) eqn:E; [good_tac| |good_tac].
  apply good_log. intros ->. revert E. unfold encode_payload.
  repeat case_match; discriminate.
Qed.
#[export] Hint Resolve good_send : good.

Lemma good_dispatch cmd i args : good (dispatch cmd i args).
Proof. unfold dispatch. good_tac. Qed.
#[export] Hint Resolve good_dispatch : good.

Lemma good_login_response now st : good (login_response now st).
Proof. unfold login_response. good_tac. Qed.
#[export] Hint Resolve good_login_response : good.

Lemma good_send_ping now : good (send_ping now).
Proof. unfold send_ping. good_tac. Qed.
#[export] Hint Resolve good_send_ping : good.

Ltac mid_step :=
  lazymatch goal with
  | |- keeps _ (modify _) => apply keeps_modify; intros ? ?; assumption
  | |- _ => keeps_step
  end.
Ltac mid_tac := repeat mid_step.

(** Everything below the id allocation leaves the counter alone. *)
Section CounterUntouched.
Variable Q : Z → Prop.
Let P (w : Blynk) : Prop := Q (msg_id w).

Lemma ctr_gettime : keeps P gettime.
Proof. unfold gettime. mid_tac. Qed.

Lemma ctr_emit evt a kv : keeps P (emit evt a kv).
Proof. unfold emit, invoke. mid_tac. Qed.

Lemma ctr_disconnect : keeps P disconnect.
Proof.
  pose proof ctr_emit. unfold disconnect, protocol_disconnect. mid_tac.
Qed.

Lemma ctr_send_loop fuel data n : keeps P (send_loop fuel data n).
Proof.
  revert n. induction fuel as [|fuel IH]; intros n; cbn [send_loop];
    unfold conn_send; mid_tac.
Qed.

Lemma ctr_write data : keeps P (_write data).
Proof.
  pose proof ctr_disconnect. pose proof ctr_send_loop.
  unfold _write. mid_tac.
Qed.
End CounterUntouched.

Lemma mid_gettime : keeps msg_id_ok gettime.
Proof. apply (ctr_gettime (λ z, 1 ≤ z ≤ 0xFFFF)). Qed.

Lemma mid_emit evt a kv : keeps msg_id_ok (emit evt a kv).
Proof. apply (ctr_emit (λ z, 1 ≤ z ≤ 0xFFFF)). Qed.

Lemma mid_disconnect : keeps msg_id_ok disconnect.
Proof. apply (ctr_disconnect (λ z, 1 ≤ z ≤ 0xFFFF)). Qed.

Lemma mid_write data : keeps msg_id_ok (_write data).
Proof. apply (ctr_write (λ z, 1 ≤ z ≤ 0xFFFF)). Qed.

#[export] Hint Resolve mid_gettime mid_emit mid_disconnect mid_write : keeps.

Lemma mid_alloc_msg_id idk : keeps msg_id_ok (alloc_msg_id idk).
Proof.
  intros w Hw. destruct idk as [i|]; [done|]. unfold msg_id_ok in *.
  unfold alloc_msg_id, bind, gets, modify, when, ret; cbn.
  destruct (msg_id w + 1 >? 65535) eqn:E; cbn; [lia|].
  rewrite Z.gtb_ltb in E. apply Z.ltb_ge in E. lia.
Qed.
#[export] Hint Resolve mid_alloc_msg_id : keeps.

Lemma mid_send cmd args idk : keeps msg_id_ok (_send cmd args idk).
Proof. unfold _send. mid_tac. Qed.
#[export] Hint Resolve mid_send : keeps.

Lemma mid_dispatch cmd i args : keeps msg_id_ok (dispatch cmd i args).
Proof. unfold dispatch. mid_tac. Qed.
#[export] Hint Resolve mid_dispatch : keeps.

Lemma mid_login_response now st : keeps msg_id_ok (login_response now st).
Proof. unfold login_response. mid_tac. Qed.
#[export] Hint Resolve mid_login_response : keeps.

Lemma mid_process_one now : keeps msg_id_ok (process_one now).
Proof. unfold process_one. mid_tac. Qed.
#[export] Hint Resolve mid_process_one : keeps.

Lemma mid_process_loop fuel now : keeps msg_id_ok (process_loop fuel now).
Proof. induction fuel as [|fuel IH]; cbn [process_loop]; mid_tac. Qed.
#[export] Hint Resolve mid_process_loop : keeps.

Lemma mid_process data : keeps msg_id_ok (process data).
Proof. unfold process, send_ping, append_data. mid_tac. Qed.
#[export] Hint Resolve mid_process : keeps.

Section RunLemmas.
Context {A B : Type}.
Implicit Types (k : A → M B) (w : Blynk).

Lemma prepend_nil (r : run A) : prepend [] r = r.
Proof. by destruct r. Qed.

Lemma prepend_prepend t t' (r : run A) :
  prepend t (prepend t' r) = prepend (t ++ t') r.
Proof. unfold prepend; cbn. by rewrite app_assoc. Qed.

Lemma map_world_prepend f t (r : run A) :
  map_world f (prepend t r) = prepend t (map_world f r).
Proof. reflexivity. Qed.

Lemma bind_gets {C} (f : Blynk → C) (k : C → M B) w :
  bind (gets f) k w = k (f w) w.
Proof. unfold bind, gets; cbn. by destruct (k (f w) w). Qed.

Lemma bind_modify f (k : unit → M B) w : bind (modify f) k w = k tt (f w).
Proof. unfold bind, modify; cbn. by destruct (k tt (f w)). Qed.

Lemma bind_tell e (k : unit → M B) w :
  bind (tell e) k w = prepend [e] (k tt w).
Proof. reflexivity. Qed.

Lemma bind_log m (k : unit → M B) w :
  bind (log m) k w = prepend [Log m] (k tt w).
Proof. reflexivity. Qed.

Lemma bind_ret a k w : bind (ret a) k w = k a w.
Proof. unfold bind, ret; cbn. by destruct (k a w). Qed.

Lemma bind_raise e k w : bind (raise e) k w = Run w [] (Exc e).
Proof. reflexivity. Qed.

Lemma bind_assoc {C} (m : M A) k (k' : B → M C) w :
  bind (bind m k) k' w = bind m (λ a, bind (k a) k') w.
Proof.
  unfold bind. destruct (m w) as [w1 t1 [a| |]]; cbn; [|done..].
  destruct (k a w1) as [w2 t2 [b| |]]; cbn; [|done..].
  by rewrite app_assoc.
Qed.
End RunLemmas.

Lemma bind_run_exc {A B} (m : M A) (k : A → M B) w w1 t1 e :
  m w = Run w1 t1 (Exc e) → bind m k w = Run w1 t1 (Exc e).
Proof. intros H. unfold bind. by rewrite H. Qed.

Lemma try_run_ok {A} (m : M A) h w w1 t1 a :
  m w = Run w1 t1 (Ok a) → try_except m h w = Run w1 t1 (Ok a).
Proof. intros H. unfold try_except. by rewrite H. Qed.

Lemma try_run_exc {A} (m : M A) h w w1 t1 e :
  m w = Run w1 t1 (Exc e) → try_except m h w = prepend t1 (h e w1).
Proof. intros H. unfold try_except. by rewrite H. Qed.

Lemma prepend_run {A} t w t' (r : res A) :
  prepend t (Run w t' r) = Run w (t ++ t') r.
Proof. reflexivity. Qed.

Ltac run_simp :=
  repeat first
    [ rewrite bind_assoc | rewrite bind_gets | rewrite bind_modify
    | rewrite bind_tell | rewrite bind_log | rewrite bind_ret
    | rewrite bind_raise | progress cbv beta ].

Lemma emitted_app t t' : emitted (t ++ t') = emitted t ++ emitted t'.
Proof. apply omap_app. Qed.

Lemma wired_app t t' : wired (t ++ t') = wired t ++ wired t'.
Proof. unfold wired. by rewrite omap_app, join_app. Qed.

Lemma emitted_cons e t :
  emitted (e :: t) =
  match e with
  | Log (LogEvent evt _) => evt :: emitted t
  | _ => emitted t
  end.
Proof. by destruct e as [[]| | | |]. Qed.

Lemma wired_cons e t :
  wired (e :: t) =
  match e with
  | Wire d => d ++ wired t
  | _ => wired t
  end.
Proof. by destruct e. Qed.

Lemma emitted_nil : emitted [] = [].
Proof. reflexivity. Qed.

Lemma wired_nil : wired [] = [].
Proof. reflexivity. Qed.

#[global] Arguments emitted : simpl never.
#[global] Arguments wired : simpl never.

Ltac obs_simp :=
  repeat first
    [ rewrite emitted_app | rewrite wired_app
    | rewrite emitted_cons | rewrite wired_cons
    | rewrite emitted_nil | rewrite wired_nil
    | rewrite app_nil_r | rewrite app_nil_l ].

Lemma silent_nil : silent [].
Proof. done. Qed.

Lemma silent_app t t' : silent t → silent t' → silent (t ++ t').
Proof.
  intros [? ?] [? ?]. split; [rewrite emitted_app|rewrite wired_app];
    by repeat match goal with H : _ = [] |- _ => rewrite H; clear H end.
Qed.

Lemma set_bin_id w : set_bin (bin w) w = w.
Proof. by destruct w. Qed.

Lemma good_bin {A} (m : M A) w : good m → bin (world (m w)) = bin w.
Proof.
  intros [Hm _]. pose proof (Hm (bin w) w) as H.
  rewrite set_bin_id in H. by rewrite H at 1.
Qed.

(** ** Callbacks *)

Lemma invoke_run evt f c w :
  invoke evt f c w =
  Run w [Invoke evt c] (match f c with Returns => Ok tt | Raises e => Exc e end).
Proof. unfold invoke. rewrite bind_tell. by destruct (f c). Qed.

Lemma emit_unregistered evt a kv w :
  callbacks w !! evt = None →
  emit evt a kv w = Run w [Log (LogEvent evt a)] (Ok tt).
Proof.
  intros H. unfold emit. rewrite bind_log, bind_gets. cbv beta.
  rewrite H. reflexivity.
Qed.

Lemma emit_run evt a kv w :
  ∃ t r, emit evt a kv w = Run w (Log (LogEvent evt a) :: t) r
         ∧ silent t ∧ r ≠ NoFuel.
Proof.
  unfold emit. rewrite bind_log, bind_gets. cbv beta.
  destruct (callbacks w !! evt) as [f|]; [|by eexists [], _].
  unfold try_except. rewrite (invoke_run evt f _ w).
  destruct (f (Call a kv)) as [|e]; cbn; [by eexists _, _|].
  destruct e; cbn; try by eexists _, _.
  destruct (_ && _); cbn; [|by eexists _, _].
  destruct (f (Call [] [])); cbn; by eexists _, _.
Qed.

(** ** Disconnecting *)

Lemma set_state_id w : set_state (state w) w = w.
Proof. by destruct w. Qed.

Lemma set_conn_id w : set_conn (conn w) w = w.
Proof. by destruct w. Qed.

Lemma protocol_disconnect_run w :
  ∃ t r, protocol_disconnect w = Run (set_state DISCONNECTED w) t r
         ∧ disc_trace t ∧ r ≠ NoFuel.
Proof.
  unfold protocol_disconnect. rewrite bind_gets. cbv beta.
  case_bool_decide as Hs.
  - exists [], (Ok tt). rewrite <- Hs, set_state_id. by repeat split; [left|].
  - rewrite bind_modify. cbn [negb when].
    destruct (emit_run (str "disconnected") [] [] (set_state DISCONNECTED w))
      as (t & r & Hrun & [Ht1 Ht2] & Hr).
    unfold bind at 1. rewrite Hrun. cbn.
    destruct r as [[]|e|]; [| |done]; eexists _, _; (split; [reflexivity|]).
    + split; [|done]. split.
      * change (wired (t ++ [Log LogProtocolDisconnected]) = []).
        rewrite wired_app, Ht2. done.
      * right. change (str "disconnected" :: emitted (t ++ [Log LogProtocolDisconnected]) = [str "disconnected"]).
        rewrite emitted_app, Ht1. done.
    + split; [|done]. split; [done|]. right.
      change (str "disconnected" :: emitted t = [str "disconnected"]).
      by rewrite Ht1.
Qed.

Lemma disconnect_run w :
  ∃ t r, disconnect w = Run (set_state DISCONNECTED (set_conn None w)) t r
         ∧ disc_trace t ∧ r ≠ NoFuel.
Proof.
  unfold disconnect. run_simp.
  destruct (conn w) as [s|] eqn:Hc.
  - destruct (protocol_disconnect_run (set_conn None w))
      as (t & r & Hrun & [Ht1 Ht2] & Hr).
    destruct (close_fails s); run_simp; rewrite Hrun;
      eexists _, _; (split; [reflexivity|]); (split; [|done]); by split.
  - run_simp.
    destruct (protocol_disconnect_run w) as (t & r & Hrun & Ht & Hr).
    exists t, r. split; [|done]. rewrite Hrun. do 2 f_equal.
    rewrite <- Hc. by rewrite set_conn_id.
Qed.

Lemma disconnect_state w : state (world (disconnect w)) = DISCONNECTED.
Proof. destruct (disconnect_run w) as (t & r & -> & _). reflexivity. Qed.

Lemma gettime_run w : gettime w = Run (tick w) [] (Ok (next_time w)).
Proof.
  unfold gettime, tick, next_time. run_simp.
  destruct (clock_next w); [done|]. by run_simp.
Qed.

Lemma tick_frozen now w : frozen_at now w → tick w = w.
Proof. intros [_ H]. unfold tick. by rewrite H. Qed.

Lemma next_time_frozen now w : frozen_at now w → next_time w = now.
Proof. intros [Hn H]. unfold next_time. by rewrite H. Qed.

Lemma gettime_frozen now w :
  frozen_at now w → gettime w = Run w [] (Ok now).
Proof.
  intros [Hn Hx]. unfold gettime. run_simp. rewrite Hx. unfold gets. by rewrite Hn.
Qed.

Lemma gettime_next w : result (gettime w) = Ok (next_time w).
Proof.
  unfold gettime, next_time. run_simp. by destruct (clock_next w).
Qed.

Lemma alloc_msg_id_run idk w :
  alloc_msg_id idk w = Run (bump_id idk w) [] (Ok (pick_id idk w)).
Proof.
  destruct idk as [i|]; [done|]. unfold alloc_msg_id. run_simp.
  cbn [msg_id set_msg_id bump_id pick_id].
  destruct (msg_id w + 1 >? 65535); cbn [when]; by run_simp.
Qed.

Lemma conn_send_reliable chunk w cf :
  conn w = Some (Socket [] cf) →
  conn_send chunk w = Run w [Wire chunk] (Ok (length chunk)).
Proof. intros H. unfold conn_send. run_simp. by rewrite H. Qed.

Lemma send_loop_reliable data w cf :
  conn w = Some (Socket [] cf) → data ≠ [] →
  send_loop (length data) data 0 w = Run w [Wire data] (Ok tt).
Proof.
  intros Hc Hd. destruct data as [|b data]; [done|].
  cbn [length send_loop]. 
  replace (0 <? S (length data))%nat with true by (symmetry; apply Nat.ltb_lt; lia).
  unfold bind at 1. rewrite (conn_send_reliable _ _ _ Hc). cbn [result world trace drop length].
  cbn [Nat.eqb]. replace (0 + S (length data))%nat with (S (length data)) by lia.
  destruct (length data) as [|n] eqn:E; cbn [send_loop].
  - replace (1 <? length (b :: data))%nat with false; [done|].
    symmetry. apply Nat.ltb_ge. cbn. lia.
  - replace (S (S n) <? length (b :: data))%nat with false; [done|].
    symmetry. apply Nat.ltb_ge. cbn. lia.
Qed.

Lemma write_reliable data w cf :
  conn w = Some (Socket [] cf) → state w ≠ DISCONNECTED → data ≠ [] →
  _write data w = Run w [Wire data] (Ok tt).
Proof.
  intros Hc Hs Hd. unfold _write. run_simp. rewrite Hc.
  rewrite bool_decide_true by by eexists. rewrite bool_decide_false by done.
  cbn [negb orb]. unfold try_except.
  by rewrite (send_loop_reliable _ _ _ Hc Hd).
Qed.

Lemma pack_header_nonempty cmd i dlen hdr :
  pack_header cmd i dlen = Some hdr → length hdr = 5%nat.
Proof. destruct dlen; [done|]. apply struct_pack_length. Qed.

Lemma bump_id_state idk w : state (bump_id idk w) = state w.
Proof. by destruct idk. Qed.

Lemma bump_id_conn idk w : conn (bump_id idk w) = conn w.
Proof. by destruct idk. Qed.

Lemma tick_state w : state (tick w) = state w.
Proof. unfold tick. by destruct (clock_next w). Qed.

Lemma tick_conn w : conn (tick w) = conn w.
Proof. unfold tick. by destruct (clock_next w). Qed.

Lemma send_prefix cmd args idk w dlen data :
  state w ≠ DISCONNECTED →
  encode_payload cmd args = PayloadOk data dlen →
  _send cmd args idk w =
  match pack_header cmd (pick_id idk w) dlen with
  | None => Run (bump_id idk w)
              [Log (send_log cmd (pick_id idk w) dlen args)] (Exc StructError)
  | Some hdr =>
      prepend [Log (send_log cmd (pick_id idk w) dlen args)]
        (try_except (_write (hdr ++ data))
           (λ e, log (LogSendError e) ;; disconnect)
           (set_lastSend (next_time (bump_id idk w)) (tick (bump_id idk w))))
  end.
Proof.
  intros Hs Hp. unfold _send. run_simp.
  rewrite bool_decide_false by done.
  rewrite (bind_run _ _ _ _ _ _ (alloc_msg_id_run idk w)), prepend_nil.
  rewrite Hp.
  assert (∀ k : unit → M unit,
    bind (if cmd =? MSG_HW_LOGIN
          then log (LogSendAuth cmd (pick_id idk w) dlen)
          else log (LogSend cmd (pick_id idk w) dlen args)) k (bump_id idk w)
    = prepend [Log (send_log cmd (pick_id idk w) dlen args)]
        (k tt (bump_id idk w))) as Hlog.
  { intros k'. unfold send_log. by destruct (cmd =? MSG_HW_LOGIN). }
  rewrite Hlog. clear Hlog.
  destruct (pack_header cmd (pick_id idk w) dlen) as [hdr|] eqn:Hh; [|done].
  rewrite (bind_run _ _ _ _ _ _ (gettime_run _)), prepend_nil.
  by run_simp.
Qed.

Lemma send_disconnected cmd args idk w :
  state w = DISCONNECTED →
  _send cmd args idk w = Run w [Log LogWarnCannotSend] (Ok tt).
Proof.
  intros Hs. unfold _send. run_simp. by rewrite bool_decide_true.
Qed.

Lemma send_reliable cmd args idk w :
  state w ≠ DISCONNECTED → reliable w →
  _send cmd args idk w = send_outcome cmd args idk w.
Proof.
  intros Hs [cf Hc]. unfold send_outcome.
  destruct (encode_payload cmd args) as [data dlen|m|e] eqn:Hp.
  - rewrite (send_prefix _ _ _ _ _ _ Hs Hp).
    destruct (pack_header cmd (pick_id idk w) dlen) as [hdr|] eqn:Hh; [|done].
    erewrite try_run_ok; [reflexivity|].
    apply (write_reliable _ _ cf).
    + cbn. by rewrite tick_conn, bump_id_conn.
    + cbn. by rewrite tick_state, bump_id_state.
    + apply pack_header_nonempty in Hh. by destruct hdr.
  - unfold _send. run_simp. rewrite bool_decide_false by done.
    rewrite (bind_run _ _ _ _ _ _ (alloc_msg_id_run idk w)), prepend_nil.
    by rewrite Hp.
  - unfold _send. run_simp. rewrite bool_decide_false by done.
    rewrite (bind_run _ _ _ _ _ _ (alloc_msg_id_run idk w)), prepend_nil.
    by rewrite Hp.
Qed.

(** ** The outbound API as data *)

Lemma api_run_send c : api_run c = _send (api_cmd c) (api_args c) None.
Proof. destruct c as [| | | | |? []]; reflexivity. Qed.

(** Claim C8.  Every call of the outbound API ([virtual_write],
    [set_property], [sync_virtual], [notify], [tweet], [log_event]) on a
    disconnected engine only logs a warning: nothing is written to the
    socket, and the message-id counter and every other field of the engine
    are what they were. *)
Theorem api_disconnected_noop (c : api_call) (w : Blynk) :
  state w = DISCONNECTED →
  api_run c w = Run w [Log LogWarnCannotSend] (Ok tt).
Proof. intros Hs. rewrite api_run_send. by apply send_disconnected. Qed.

(** Claim C6, as the code has it.  When the registered callback raises on
    the call [emit] makes, the engine object is left untouched.  A
    [TypeError] is caught: for the event [connected] called with the keyword
    [ping] the callback is called once more without arguments, and a failure
    of that second call is logged; for any other event the [TypeError] is
    logged; in both cases [emit] returns normally.  Any exception other than
    [TypeError] is not caught: it leaves [emit], nothing being logged after
    the call. *)
Theorem emit_handler_fault evt a kv (f : handler) w e :
  callbacks w !! evt = Some f →
  f (Call a kv) = Raises e →
  let r := emit evt a kv w in
  world r = w
  ∧ (e = TypeError →
       result r = Ok tt
       ∧ trace r =
           [Log (LogEvent evt a); Invoke evt (Call a kv)]
           ++ (if retries evt kv then
                 Invoke evt (Call [] [])
                 :: match f (Call [] []) with
                    | Returns => []
                    | Raises e' => [Log (LogLegacyCallbackError evt e')]
                    end
               else [Log (LogCallbackError evt TypeError)]))
  ∧ (e ≠ TypeError →
       result r = Exc e
       ∧ trace r = [Log (LogEvent evt a); Invoke evt (Call a kv)]).
Proof.
  intros Hcb Hf. cbv zeta. unfold emit. run_simp. rewrite Hcb.
  unfold try_except. rewrite (invoke_run evt f _ w), Hf.
  cbn [result world trace prepend].
  destruct e; cbn [result world trace]; try (split; [done|]; split; [done|]; by intros _).
  fold (retries evt kv). destruct (retries evt kv).
  - rewrite (invoke_run evt f _ w). cbn [result world trace].
    destruct (f (Call [] [])); cbn; (split; [done|]); (split; [done|]); done.
  - cbn. done.
Qed.

Lemma disconnect_idle w :
  state w = DISCONNECTED → conn w = None → disconnect w = Run w [] (Ok tt).
Proof.
  intros Hs Hc. unfold disconnect, protocol_disconnect. run_simp.
  rewrite Hc. run_simp. by rewrite bool_decide_true.
Qed.

Lemma send_loop_refused data w s0 r cf :
  conn w = Some (Socket (s0 :: r) cf) → refuses s0 → data ≠ [] →
  ∃ t, send_loop (length data) data 0 w
       = Run (set_conn (Some (Socket r cf)) w) t (Exc OSError)
       ∧ wired t = [].
Proof.
  intros Hc Hs0 Hd. destruct data as [|b data]; [done|].
  cbn [length send_loop].
  replace (0 <? S (length data))%nat with true
    by (symmetry; apply Nat.ltb_lt; lia).
  unfold conn_send. run_simp. rewrite Hc. cbn [send_script close_fails].
  destruct Hs0 as [-> | ->]; run_simp.
  - by exists [].
  - cbn [Nat.min Nat.eqb]. by exists [Wire (take 0 (drop 0 (b :: data)))].
Qed.

Lemma write_refused data w s0 r cf :
  conn w = Some (Socket (s0 :: r) cf) → refuses s0 →
  state w ≠ DISCONNECTED → data ≠ [] →
  ∃ t e w', _write data w = Run w' t (Exc e)
            ∧ state w' = DISCONNECTED ∧ conn w' = None
            ∧ wired t = [] ∧ Log LogSocketWriteError ∈ t.
Proof.
  intros Hc Hs0 Hs Hd. unfold _write. run_simp. rewrite Hc.
  rewrite bool_decide_true by by eexists. rewrite bool_decide_false by done.
  cbn [negb orb].
  destruct (send_loop_refused data w s0 r cf Hc Hs0 Hd) as (t0 & Hrun & Ht0).
  rewrite (try_run_exc _ _ _ _ _ _ Hrun). run_simp.
  set (w3 := set_conn _ w).
  destruct (disconnect_run w3) as (t & res & Hd3 & [Hw He] & Hres).
  destruct res as [[]|e|]; [| |done].
  - rewrite (bind_run _ _ _ _ _ _ Hd3). run_simp.
    eexists _, OSError, _. split; [reflexivity|]. repeat split.
    + cbn. obs_simp. by rewrite Ht0, Hw.
    + cbn. rewrite elem_of_app. right. apply list_elem_of_here.
  - rewrite (bind_run_exc _ _ _ _ _ _ Hd3).
    eexists _, e, _. split; [reflexivity|]. repeat split.
    + cbn. obs_simp. by rewrite Ht0, Hw.
    + cbn. rewrite elem_of_app. right. apply list_elem_of_here.
Qed.

Lemma write_outcome_zero script : write_outcome script 0 = None.
Proof. by destruct script. Qed.

(** The write loop ends as [write_outcome] says. *)
Lemma send_loop_outcome fuel : ∀ data sent w script cf,
  conn w = Some (Socket script cf) →
  (length data - sent ≤ fuel)%nat →
  ∃ script' t,
    emitted t = []
    ∧ match write_outcome script (length data - sent) with
      | Some k =>
          send_loop fuel data sent w
          = Run (set_conn (Some (Socket script' cf)) w) t (Exc OSError)
          ∧ wired t = take k (drop sent data)
          ∧ (k < length data - sent)%nat
      | None =>
          send_loop fuel data sent w
          = Run (set_conn (Some (Socket script' cf)) w) t (Ok tt)
          ∧ wired t = drop sent data
      end.
Proof.
  induction fuel as [|fuel IH]; intros data sent w script cf Hc Hf.
  - exists script, []. split; [done|].
    replace (length data - sent)%nat with 0%nat by lia.
    rewrite write_outcome_zero. cbn [send_loop].
    replace (sent <? length data)%nat with false
      by (symmetry; apply Nat.ltb_ge; lia).
    rewrite <-Hc, set_conn_id. split; [done|]. by rewrite drop_ge by lia.
  - cbn [send_loop].
    destruct (sent <? length data)%nat eqn:E.
    2:{ apply Nat.ltb_ge in E. exists script, []. split; [done|].
        replace (length data - sent)%nat with 0%nat by lia.
        rewrite write_outcome_zero, <-Hc, set_conn_id.
        split; [done|]. by rewrite drop_ge by lia. }
    apply Nat.ltb_lt in E.
    assert (Hlen : length (drop sent data) = (length data - sent)%nat)
      by apply length_drop.
    assert (Hn : (length data - sent =? 0)%nat = false)
      by (apply Nat.eqb_neq; lia).
    destruct script as [|[k|] script]; cbn [write_outcome]; rewrite Hn.
    + (* the script is over: the socket takes everything *)
      rewrite (bind_run _ _ _ _ _ _
                 (conn_send_reliable (drop sent data) w cf Hc)).
      replace (length (drop sent data) =? 0)%nat with false
        by (symmetry; apply Nat.eqb_neq; lia).
      destruct (IH data (sent + length (drop sent data))%nat w [] cf)
        as (s' & t & He & Hrun); [done|lia|].
      replace (length data - (sent + length (drop sent data)))%nat
        with 0%nat in Hrun by lia.
      rewrite write_outcome_zero in Hrun. destruct Hrun as [Hrun Hw].
      exists s', (Wire (drop sent data) :: t). split; [done|].
      rewrite Hrun. split; [done|].
      rewrite wired_cons, Hw.
      rewrite (drop_ge data (sent + length (drop sent data))) by lia.
      by rewrite app_nil_r.
    + (* the socket takes up to [k] bytes *)
      set (w' := set_conn (Some (Socket script cf)) w).
      assert (Hsend : conn_send (drop sent data) w
                = Run w' [Wire (take k (drop sent data))]
                    (Ok (k `min` length (drop sent data))%nat)).
      { unfold conn_send. rewrite bind_gets, Hc. cbn [send_script].
        by rewrite bind_modify, bind_tell. }
      rewrite (bind_run _ _ _ _ _ _ Hsend).
      destruct (k =? 0)%nat eqn:Ek.
      * apply Nat.eqb_eq in Ek. subst k. cbn [Nat.min Nat.eqb].
        exists script, [Wire (take 0 (drop sent data))].
        split; [done|]. split_and!; [done|done|lia].
      * apply Nat.eqb_neq in Ek.
        replace (k `min` length (drop sent data) =? 0)%nat with false
          by (symmetry; apply Nat.eqb_neq; lia).
        destruct (IH data (sent + k `min` length (drop sent data))%nat
                    w' script cf) as (s' & t & He & Hrun); [done|lia|].
        exists s', (Wire (take k (drop sent data)) :: t).
        split; [done|]. cbn [prepend world trace result].
        destruct (length data - sent <=? k)%nat eqn:Ele.
        -- apply Nat.leb_le in Ele.
           replace (length data - (sent + k `min` length (drop sent data)))%nat
             with 0%nat in Hrun by lia.
           rewrite write_outcome_zero in Hrun. destruct Hrun as [-> Hw].
           split; [done|]. cbn [trace]. rewrite wired_cons, Hw.
           rewrite take_ge by lia.
           rewrite (drop_ge data (sent + _)) by lia. by rewrite app_nil_r.
        -- apply Nat.leb_gt in Ele.
           replace (sent + k `min` length (drop sent data))%nat
             with (sent + k)%nat in Hrun by lia.
           replace (length data - (sent + k))%nat
             with (length data - sent - k)%nat in Hrun by lia.
           destruct (write_outcome script (length data - sent - k))
             as [j|]; cbn [fmap option_fmap option_map].
           ++ replace (sent + k `min` length (drop sent data))%nat
                with (sent + k)%nat by lia.
              destruct Hrun as (-> & Hw & Hj).
              split_and!; [done| |lia].
              cbn [trace]. rewrite wired_cons, Hw, <-drop_drop.
              rewrite <-(take_drop k (drop sent data)) at 3.
              rewrite take_app_add'; [done|].
              rewrite length_take. lia.
           ++ replace (sent + k `min` length (drop sent data))%nat
                with (sent + k)%nat by lia.
              destruct Hrun as (-> & Hw).
              split; [done|].
              cbn [trace]. rewrite wired_cons, Hw, <-drop_drop.
              apply take_drop.
    + (* the socket raises *)
      exists script, []. split; [done|].
      assert (Hsend : conn_send (drop sent data) w
                = Run (set_conn (Some (Socket script cf)) w) [] (Exc OSError)).
      { unfold conn_send. rewrite bind_gets, Hc. cbn [send_script].
        by rewrite bind_modify. }
      rewrite (bind_run_exc _ _ _ _ _ _ Hsend). split_and!; [done|done|lia].
Qed.

Lemma write_fails data w script cf k :
  conn w = Some (Socket script cf) → state w ≠ DISCONNECTED →
  write_outcome script (length data) = Some k →
  ∃ t e w', _write data w = Run w' t (Exc e)
            ∧ state w' = DISCONNECTED ∧ conn w' = None
            ∧ wired t = take k data ∧ (k < length data)%nat
            ∧ Log LogSocketWriteError ∈ t.
Proof.
  intros Hc Hs Hk. unfold _write. run_simp. rewrite Hc.
  rewrite bool_decide_true by by eexists. rewrite bool_decide_false by done.
  cbn [negb orb].
  destruct (send_loop_outcome (length data) data 0 w script cf Hc)
    as (s' & t0 & He0 & Hrun); [lia|].
  rewrite Nat.sub_0_r, Hk in Hrun. destruct Hrun as (Hrun & Ht0 & Hlt).
  rewrite drop_0 in Ht0.
  rewrite (try_run_exc _ _ _ _ _ _ Hrun). run_simp.
  set (w3 := set_conn _ w).
  destruct (disconnect_run w3) as (t & res & Hd3 & [Hw He] & Hres).
  destruct res as [[]|e|]; [| |done].
  - rewrite (bind_run _ _ _ _ _ _ Hd3). run_simp.
    eexists _, OSError, _. split; [reflexivity|]. split_and!; [done..| | |].
    + cbn. obs_simp. by rewrite Ht0, Hw, app_nil_r.
    + done.
    + cbn. rewrite elem_of_app. right. apply list_elem_of_here.
  - rewrite (bind_run_exc _ _ _ _ _ _ Hd3).
    eexists _, e, _. split; [reflexivity|]. split_and!; [done..| | |].
    + cbn. obs_simp. by rewrite Ht0, Hw, app_nil_r.
    + done.
    + cbn. rewrite elem_of_app. right. apply list_elem_of_here.
Qed.

(** Claim C7, as the code has it.  When a [send] of the socket raises or
    returns 0 during the write of an outbound API call, at the first byte
    or after part of the message has been taken, on an engine that is not
    disconnected: the engine disconnects (state [DISCONNECTED], no
    socket), the failure is logged by [_write] and by [_send], the bytes
    taken before the failure, fewer than the message has, stay on the
    wire, and the API call returns normally: the exception that [_write]
    raises again is caught in [_send] and goes no further. *)
Theorem send_failure_disconnects_and_returns
    (c : api_call) (w : Blynk) script cf data dlen hdr k :
  state w ≠ DISCONNECTED →
  conn w = Some (Socket script cf) →
  encode_payload (api_cmd c) (api_args c) = PayloadOk data dlen →
  pack_header (api_cmd c) (msg_id w) dlen = Some hdr →
  write_outcome script (length (hdr ++ data)) = Some k →
  let res := api_run c w in
  state (world res) = DISCONNECTED
  ∧ conn (world res) = None
  ∧ result res = Ok tt
  ∧ Log LogSocketWriteError ∈ trace res
  ∧ (∃ e, Log (LogSendError e) ∈ trace res)
  ∧ (k < length (hdr ++ data))%nat
  ∧ wired (trace res) = take k (hdr ++ data).
Proof.
  intros Hs Hc Hp Hh Hk. cbv zeta. rewrite api_run_send.
  rewrite (send_prefix _ _ _ _ _ _ Hs Hp). cbn [pick_id]. rewrite Hh.
  set (w2 := set_lastSend _ _).
  assert (conn w2 = Some (Socket script cf)) as Hc2.
  { subst w2. cbn. by rewrite tick_conn. }
  assert (state w2 ≠ DISCONNECTED) as Hs2.
  { subst w2. cbn. by rewrite tick_state. }
  destruct (write_fails _ _ _ _ _ Hc2 Hs2 Hk)
    as (t & e & w' & Hrun & Hs' & Hc' & Hw & Hlt & Hin).
  rewrite (try_run_exc _ _ _ _ _ _ Hrun). run_simp.
  rewrite (disconnect_idle _ Hs' Hc'). cbn.
  split_and!; [done|done|done| |by exists e; set_solver|done|].
  - set_solver.
  - obs_simp. by rewrite Hw.
Qed.

(** [BlynkProtocol.connect] restarts the counter: the login takes id 1
    and leaves the counter at 2. *)
Lemma protocol_connect_msg_id w : msg_id (world (protocol_connect w)) = 2.
Proof.
  unfold protocol_connect. run_simp. unfold when.
  set (w0 := world ((if negb (bool_decide (state w = CONNECTING))
                     then log (LogWarnConnectState (state w)) ;;
                          modify (set_state CONNECTING)
                     else ret tt) w)).
  assert (state w0 = CONNECTING) as Hs0.
  { subst w0. case_bool_decide; cbn; [done|]. by run_simp. }
  assert (∀ k : unit → M unit,
    world (bind (if negb (bool_decide (state w = CONNECTING))
                 then log (LogWarnConnectState (state w)) ;;
                      modify (set_state CONNECTING)
                 else ret tt) k w) = world (k tt w0)) as ->.
  { intros k. subst w0. case_bool_decide; cbn [negb]; by run_simp. }
  run_simp. rewrite (bind_run _ _ _ _ _ _ (gettime_run _)). run_simp.
  rewrite prepend_nil.
  set (w1 := set_bin _ _).
  assert (state w1 = CONNECTING) as Hs1.
  { subst w1. cbn. by rewrite tick_state. }
  assert (msg_id w1 = 1) as Hm1.
  { subst w1. cbn. unfold tick. by destruct (clock_next _). }
  clearbody w1.
  unfold _send. run_simp. rewrite Hs1, bool_decide_false by done.
  rewrite (bind_run _ _ _ _ _ _ (alloc_msg_id_run None w1)), prepend_nil.
  assert (msg_id (bump_id None w1) = 2) as Hb.
  { cbn. by rewrite Hm1. }
  revert Hb. generalize (bump_id None w1). cbn [pick_id]. intros w2 Hw2.
  pose proof (ctr_gettime (λ z, z = 2)) as Hg.
  pose proof (ctr_write (λ z, z = 2)) as Hw.
  pose proof (ctr_disconnect (λ z, z = 2)) as Hd.
  revert w2 Hw2.
  change (keeps (λ w, msg_id w = 2)
    (match encode_payload MSG_HW_LOGIN [auth w1] with
     | PayloadOk data dlen =>
         (if MSG_HW_LOGIN =? MSG_HW_LOGIN
          then log (LogSendAuth MSG_HW_LOGIN (msg_id w1) dlen)
          else log (LogSend MSG_HW_LOGIN (msg_id w1) dlen [auth w1])) ;;
         match pack_header MSG_HW_LOGIN (msg_id w1) dlen with
         | Some hdr =>
             let msg := hdr ++ data in
             let* t := gettime in
             modify (set_lastSend t) ;;
             try_except (_write msg)
               (λ e, log (LogSendError e) ;; disconnect)
         | None => raise StructError
         end
     | PayloadReturn m => log m
     | PayloadRaise e => raise e
     end)).
  mid_tac.
Qed.

Lemma mid_protocol_connect : keeps msg_id_ok protocol_connect.
Proof.
  intros w _. unfold msg_id_ok. rewrite protocol_connect_msg_id. lia.
Qed.
#[export] Hint Resolve mid_protocol_connect : keeps.

Lemma mid_connect p : keeps msg_id_ok (connect p).
Proof. unfold connect. mid_tac. Qed.
#[export] Hint Resolve mid_connect : keeps.

Lemma mid_run_once p rcv : keeps msg_id_ok (run_once p rcv).
Proof. unfold run_once. mid_tac. Qed.
#[export] Hint Resolve mid_run_once : keeps.

Lemma mid_on evt f : keeps msg_id_ok (on evt f).
Proof. unfold on. mid_tac. Qed.
#[export] Hint Resolve mid_on : keeps.

(** ** Reachable states *)

Lemma mid_exec o : keeps msg_id_ok (exec o).
Proof.
  destruct o; cbn [exec]; try rewrite api_run_send; mid_tac.
Qed.

Lemma reachable_msg_id_ok w : reachable w → msg_id_ok w.
Proof.
  induction 1 as [|w o _ IH].
  - unfold msg_id_ok. cbn. lia.
  - by apply mid_exec.
Qed.

(** Claim C10.  In every state a program can reach from a new engine the
    message-id counter is between 1 and 65535; an id that [_send] allocates
    is the counter itself, hence never 0, and the counter then moves to the
    next value, going from 0xFFFF back to 1; [connect] sets the counter to 1
    and the login takes that id, leaving 2. *)
Theorem msg_id_never_zero :
  (∀ w, reachable w → 1 ≤ msg_id w ≤ 0xFFFF)
  ∧ (∀ w, 1 ≤ msg_id w ≤ 0xFFFF →
       let r := alloc_msg_id None w in
       result r = Ok (msg_id w)
       ∧ msg_id w ≠ 0
       ∧ msg_id (world r) = (if msg_id w =? 0xFFFF then 1 else msg_id w + 1)
       ∧ 1 ≤ msg_id (world r) ≤ 0xFFFF)
  ∧ (∀ w, msg_id (world (protocol_connect w)) = 2).
Proof.
  split; [apply reachable_msg_id_ok|]. split; [|apply protocol_connect_msg_id].
  intros w Hw. cbv zeta. rewrite alloc_msg_id_run. cbn.
  split; [done|]. split; [lia|].
  destruct (msg_id w =? 65535) eqn:E;
    [apply Z.eqb_eq in E|apply Z.eqb_neq in E];
    (destruct (msg_id w + 1 >? 65535) eqn:E2;
     rewrite Z.gtb_ltb in E2;
     [apply Z.ltb_lt in E2|apply Z.ltb_ge in E2]); lia.
Qed.

Ltac bool_to_prop :=
  repeat match goal with
  | H : (_ <? _) = true |- _ => apply Z.ltb_lt in H
  | H : (_ <? _) = false |- _ => apply Z.ltb_ge in H
  | H : (_ <=? _) = true |- _ => apply Z.leb_le in H
  | H : (_ <=? _) = false |- _ => apply Z.leb_gt in H
  | H : (_ >? _) = true |- _ => rewrite Z.gtb_ltb in H
  | H : (_ >? _) = false |- _ => rewrite Z.gtb_ltb in H
  | H : (_ =? _) = true |- _ => apply Z.eqb_eq in H
  | H : (_ =? _) = false |- _ => apply Z.eqb_neq in H
  | H : (_ <? _)%nat = true |- _ => apply Nat.ltb_lt in H
  | H : (_ <? _)%nat = false |- _ => apply Nat.ltb_ge in H
  | H : _ && _ = true |- _ => apply andb_prop in H as [? ?]
  | H : _ && _ = false |- _ => apply andb_false_iff in H as [?|?]
  | H : _ || _ = true |- _ => apply orb_prop in H as [?|?]
  | H : _ || _ = false |- _ => apply orb_false_elim in H as [? ?]
  | H : negb _ = true |- _ => apply negb_true_iff in H
  | H : negb _ = false |- _ => apply negb_false_iff in H
  end.

(** ** The header of the receive buffer *)

Lemma struct_unpack_take (b : bytes) :
  (5 ≤ length b)%nat →
  ∃ cmd i n, struct_unpack (take 5 b) = Some (cmd, i, n)
             ∧ 0 ≤ cmd ≤ 255 ∧ 0 ≤ i ≤ 65535 ∧ 0 ≤ n ≤ 65535.
Proof.
  intros Hl. destruct b as [|c [|i1 [|i0 [|l1 [|l0 rest]]]]]; cbn in Hl; try lia.
  cbn [take struct_unpack]. eexists _, _, _. split; [reflexivity|].
  pose proof (byte_to_Z_range c). pose proof (byte_to_Z_range i1).
  pose proof (byte_to_Z_range i0). pose proof (byte_to_Z_range l1).
  pose proof (byte_to_Z_range l0). lia.
Qed.

Lemma take_header (hdr rest : bytes) : length hdr = 5%nat → take 5 (hdr ++ rest) = hdr.
Proof. intros <-. apply take_app_length. Qed.

Lemma drop_header (hdr rest : bytes) : length hdr = 5%nat → drop 5 (hdr ++ rest) = rest.
Proof. intros <-. apply drop_app_length. Qed.

(** ** The turns of the receive loop, case by case *)

Section Turns.
Variables (now : Z) (w : Blynk).

Lemma process_one_short :
  (length (bin w) < 5)%nat → process_one now w = Run w [] (Ok Return).
Proof.
  intros Hl. unfold process_one. run_simp.
  by replace (length (bin w) <? 5)%nat with true
    by (symmetry; by apply Nat.ltb_lt).
Qed.

Variables (cmd i n : Z).
Hypothesis Hlen : (5 ≤ length (bin w))%nat.
Hypothesis Hhdr : struct_unpack (take 5 (bin w)) = Some (cmd, i, n).

Lemma process_one_parsed :
  process_one now w =
  (if i =? 0 then log LogInvalidMsgId ;; disconnect ;; ret Return
   else
     let* bf := gets buffin in
     if (n <? 0) || (n >? bf * 2) then
       log (LogInvalidLen n bf) ;; disconnect ;; ret Return
     else
       modify (set_lastRecv now) ;;
       if cmd =? MSG_RSP then
         modify (set_bin (drop 5 (bin w))) ;;
         log (LogRecvRsp cmd i n) ;;
         let* st := gets state in
         if bool_decide (st = CONNECTING) && (i =? 1)
         then login_response now n
         else ret Continue
       else if (Z.of_nat (length (bin w)) <? 5 + n) then ret Return
       else
         let data := take (Z.to_nat n) (drop 5 (bin w)) in
         modify (set_bin (drop (5 + Z.to_nat n) (bin w))) ;;
         let* args :=
           match decode_fields data with
           | Some a => ret a
           | None => log LogUtf8Error ;; ret []
           end in
         log (LogRecv cmd i args) ;;
         dispatch cmd i args ;;
         ret Continue) w.
Proof.
  unfold process_one. run_simp.
  replace (length (bin w) <? 5)%nat with false
    by (symmetry; by apply Nat.ltb_ge).
  by rewrite Hhdr.
Qed.

Lemma process_one_bad_id :
  i = 0 →
  process_one now w =
  (log LogInvalidMsgId ;; disconnect ;; ret Return) w.
Proof.
  intros Hi. rewrite process_one_parsed.
  destruct (i =? 0) eqn:E; bool_to_prop; done.
Qed.

Lemma process_one_bad_len :
  i ≠ 0 → n > buffin w * 2 →
  process_one now w =
  (log (LogInvalidLen n (buffin w)) ;; disconnect ;; ret Return) w.
Proof.
  intros Hi Hn. rewrite process_one_parsed.
  destruct (i =? 0) eqn:E; bool_to_prop; [done|]. run_simp.
  destruct (_ || _) eqn:E2; bool_to_prop; [done..|lia].
Qed.

Hypothesis Hid : i ≠ 0.
Hypothesis Hn : 0 ≤ n ≤ buffin w * 2.

Lemma process_one_rsp :
  cmd = MSG_RSP →
  process_one now w =
  prepend [Log (LogRecvRsp MSG_RSP i n)]
    ((if bool_decide (state w = CONNECTING) && (i =? 1)
      then login_response now n else ret Continue)
       (set_bin (drop 5 (bin w)) (set_lastRecv now w))).
Proof.
  intros Hc. rewrite process_one_parsed.
  destruct (i =? 0) eqn:E; bool_to_prop; [done|]. run_simp.
  destruct (_ || _) eqn:E2; bool_to_prop; [lia..|].
  run_simp. destruct (cmd =? MSG_RSP) eqn:E3; bool_to_prop; [|done].
  run_simp. cbn [state set_bin set_lastRecv]. by rewrite Hc.
Qed.

Lemma process_one_wait :
  cmd ≠ MSG_RSP → Z.of_nat (length (bin w)) < 5 + n →
  process_one now w = Run (set_lastRecv now w) [] (Ok Return).
Proof.
  intros Hc Hl. rewrite process_one_parsed.
  destruct (i =? 0) eqn:E; bool_to_prop; [done|]. run_simp.
  destruct (_ || _) eqn:E2; bool_to_prop; [lia..|].
  run_simp. destruct (cmd =? MSG_RSP) eqn:E3; bool_to_prop; [done|].
  cbn [bin set_lastRecv].
  destruct (_ <? _) eqn:E4; bool_to_prop; [done|lia].
Qed.

Lemma process_one_msg :
  cmd ≠ MSG_RSP → 5 + n ≤ Z.of_nat (length (bin w)) →
  process_one now w =
  (let* args :=
     match decode_fields (take (Z.to_nat n) (drop 5 (bin w))) with
     | Some a => ret a
     | None => log LogUtf8Error ;; ret []
     end in
   log (LogRecv cmd i args) ;;
   dispatch cmd i args ;;
   ret Continue)
    (set_bin (drop (5 + Z.to_nat n) (bin w)) (set_lastRecv now w)).
Proof.
  intros Hc Hl. rewrite process_one_parsed.
  destruct (i =? 0) eqn:E; bool_to_prop; [done|]. run_simp.
  destruct (_ || _) eqn:E2; bool_to_prop; [lia..|].
  run_simp. destruct (cmd =? MSG_RSP) eqn:E3; bool_to_prop; [done|].
  cbn [bin set_lastRecv].
  destruct (_ <? _) eqn:E4; bool_to_prop; [lia|].
  by run_simp.
Qed.
End Turns.

(** ** [process] before the loop *)

Lemma timed_out_tick now w : timed_out now (tick w) = timed_out now w.
Proof. unfold tick. by destruct (clock_next w). Qed.

Lemma process_disconnected data w :
  state w = DISCONNECTED → process data w = Run w [] (Ok tt).
Proof. intros Hs. unfold process. run_simp. by rewrite bool_decide_true. Qed.

Lemma process_timed_out data w :
  state w ≠ DISCONNECTED → timed_out (next_time w) w = true →
  process data w =
  prepend [Log LogHeartbeatTimeout] (disconnect (tick w)).
Proof.
  intros Hs Ht. unfold process. run_simp. rewrite bool_decide_false by done.
  rewrite (bind_run _ _ _ _ _ _ (gettime_run w)), prepend_nil. run_simp.
  rewrite timed_out_tick, Ht. by run_simp.
Qed.

Lemma process_in_time data w :
  state w ≠ DISCONNECTED → timed_out (next_time w) w = false →
  process data w =
  (send_ping (next_time w) ;;
   append_data data ;;
   let* b := gets bin in
   process_loop (S (length b)) (next_time w)) (tick w).
Proof.
  intros Hs Ht. unfold process. run_simp. rewrite bool_decide_false by done.
  rewrite (bind_run _ _ _ _ _ _ (gettime_run w)), prepend_nil. run_simp.
  by rewrite timed_out_tick, Ht.
Qed.

Lemma send_ping_idle now w :
  ping_due now w = false → send_ping now w = Run w [] (Ok tt).
Proof. intros H. unfold send_ping. run_simp. by rewrite H. Qed.

Lemma ping_due_not_connected now w :
  state w ≠ CONNECTED → ping_due now w = false.
Proof. intros H. unfold ping_due. by rewrite bool_decide_false. Qed.

Lemma append_data_run data w :
  append_data data w = Run (set_bin (bin w ++ received data) w) [] (Ok tt).
Proof.
  destruct data as [[|b d]|]; cbn [append_data received default].
  - by rewrite app_nil_r, set_bin_id.
  - reflexivity.
  - by rewrite app_nil_r, set_bin_id.
Qed.

Lemma process_loop_S fuel now w :
  process_loop (S fuel) now w =
  bind (process_one now)
    (λ c, match c with
          | Return => ret tt
          | Continue => process_loop fuel now
          end) w.
Proof. reflexivity. Qed.

(** A turn that ends in [return self.disconnect()]. *)
Lemma turn_disconnects pre w w' fuel now :
  process_one now w = prepend pre ((disconnect ;; ret Return) w') →
  ∃ t res,
    process_loop (S fuel) now w
    = Run (set_state DISCONNECTED (set_conn None w')) (pre ++ t) res
    ∧ disc_trace t ∧ res ≠ NoFuel.
Proof.
  intros H. rewrite process_loop_S.
  destruct (disconnect_run w') as (t & res & Hd & Ht & Hres).
  destruct res as [[]|e|]; [| |done].
  - rewrite (bind_run _ _ _ _ _ _ Hd) in H. run_simp. 
    rewrite (bind_run _ _ _ _ _ _ H).
    exists t, (Ok tt). unfold prepend, ret. cbn [world trace result].
    by rewrite !app_nil_r.
  - rewrite (bind_run_exc _ _ _ _ _ _ Hd) in H.
    rewrite (bind_run_exc _ _ _ _ _ _ H).
    by exists t, (Exc e).
Qed.

Lemma connected_not_disconnected : str "connected" ≠ str "disconnected".
Proof. discriminate. Qed.

Lemma disc_trace_no_connected t :
  disc_trace t → str "connected" ∉ emitted t.
Proof.
  intros [_ [-> | ->]]; [apply not_elem_of_nil|].
  intros H. apply list_elem_of_singleton in H. discriminate.
Qed.

Lemma rsp_frame_pack i status :
  0 ≤ i ≤ 65535 → 0 ≤ status ≤ 65535 →
  struct_pack MSG_RSP i status = Some (rsp_frame i status).
Proof.
  intros Hi Hs. unfold rsp_frame.
  destruct (struct_pack_Some MSG_RSP i status) as [hdr ->]; [done..|]. done.
Qed.

(** Claim C5.  When the engine is connecting and the receive buffer, with
    the data handed to [process], starts with a response message of id 1
    whose status is not 200, the call leaves the engine disconnected and no
    [connected] event is emitted. *)
Theorem handshake_failure (w : Blynk) data status rest :
  state w = CONNECTING →
  0 ≤ status ≤ 65535 → status ≠ STA_SUCCESS →
  bin w ++ received data = rsp_frame 1 status ++ rest →
  let r := process data w in
  state (world r) = DISCONNECTED ∧ str "connected" ∉ emitted (trace r).
Proof.
  intros Hs Hst Hne Hbin. cbv zeta.
  assert (state w ≠ DISCONNECTED) as Hnd by (rewrite Hs; discriminate).
  destruct (timed_out (next_time w) w) eqn:Hto.
  - rewrite (process_timed_out _ _ Hnd Hto).
    destruct (disconnect_run (tick w)) as (t & res & -> & Ht & _).
    split; [done|]. cbn [prepend trace]. obs_simp.
    by apply disc_trace_no_connected.
  - rewrite (process_in_time _ _ Hnd Hto). set (now := next_time w).
    rewrite (bind_run _ _ _ _ _ _ (send_ping_idle now (tick w)
      (ping_due_not_connected _ _ ltac:(rewrite tick_state, Hs; discriminate)))).
    rewrite prepend_nil.
    rewrite (bind_run _ _ _ _ _ _ (append_data_run data (tick w))).
    rewrite prepend_nil. run_simp.
    set (w2 := set_bin _ _).
    assert (bin w2 = rsp_frame 1 status ++ rest) as Hb2.
    { subst w2. cbn [bin set_bin]. rewrite <- Hbin. f_equal.
      unfold tick. by destruct (clock_next w). }
    assert (state w2 = CONNECTING) as Hs2.
    { subst w2. cbn. by rewrite tick_state. }
    pose proof (rsp_frame_pack 1 status ltac:(lia) Hst) as Hpack.
    pose proof (struct_pack_length _ _ _ _ Hpack) as Hl5.
    assert (5 ≤ length (bin w2))%nat as Hlen.
    { rewrite Hb2, length_app. lia. }
    assert (struct_unpack (take 5 (bin w2)) = Some (MSG_RSP, 1, status)) as Hhdr.
    { rewrite Hb2, take_header by done. by apply struct_unpack_pack. }
    enough (∃ pre w', process_one now w2
                      = prepend pre ((disconnect ;; ret Return) w')
                      ∧ emitted pre = []) as (pre & w' & Hone & Hpre).
    { destruct (turn_disconnects _ _ _ (length (bin w2)) _ Hone)
        as (t & res & -> & Ht & _).
      split; [done|]. cbn [trace]. obs_simp. rewrite Hpre.
      by apply disc_trace_no_connected. }
    clearbody w2.
    destruct (Z_gt_le_dec status (buffin w2 * 2)) as [Hbig|Hsmall].
    + rewrite (process_one_bad_len now w2 _ _ _ Hlen Hhdr) by (done || lia).
      run_simp. by eexists _, _.
    + rewrite (process_one_rsp now w2 _ _ _ Hlen Hhdr) by (done || lia).
      cbn [state set_bin set_lastRecv]. rewrite Hs2.
      rewrite bool_decide_true by done. cbn [andb Z.eqb Pos.eqb].
      unfold login_response.
      destruct (status =? STA_SUCCESS) eqn:E; bool_to_prop; [done|].
      run_simp. unfold when.
      destruct (status =? STA_INVALID_TOKEN); run_simp;
        rewrite !prepend_prepend; by eexists _, _.
Qed.

Lemma tame_process_one now : tame (process_one now).
Proof. unfold process_one. tame_tac. Qed.

Lemma process_loop_quiet fuel now w :
  Log LogHeartbeatTimeout ∉ trace (process_loop fuel now w).
Proof.
  revert w. induction fuel as [|fuel IH]; intros w; [apply not_elem_of_nil|].
  rewrite process_loop_S. unfold bind.
  destruct (tame_process_one now w) as [_ Hq].
  destruct (process_one now w) as [w1 t1 [[]| |]]; cbn in *; try done.
  - rewrite elem_of_app. intros [?|?]; [done|]. by eapply IH.
  - by rewrite app_nil_r.
Qed.

Lemma ping_due_tick now w : ping_due now (tick w) = ping_due now w.
Proof. unfold tick. by destruct (clock_next w). Qed.

Lemma timed_out_spec now w :
  timed_out now w = true ↔ now - lastRecv w > heartbeat w + heartbeat w / 2.
Proof. unfold timed_out. rewrite Z.gtb_ltb, Z.ltb_lt. lia. Qed.

Lemma timed_out_false now w :
  timed_out now w = false ↔ now - lastRecv w ≤ heartbeat w + heartbeat w / 2.
Proof. unfold timed_out. rewrite Z.gtb_ltb, Z.ltb_ge. lia. Qed.

Lemma bin_tick w : bin (tick w) = bin w.
Proof. unfold tick. by destruct (clock_next w). Qed.

Lemma process_idle w :
  state w ≠ DISCONNECTED →
  timed_out (next_time w) w = false → ping_due (next_time w) w = false →
  (length (bin w) < 5)%nat →
  process None w = Run (tick w) [] (Ok tt).
Proof.
  intros Hs Hto Hp Hl. rewrite (process_in_time _ _ Hs Hto).
  rewrite (bind_run _ _ _ _ _ _ (send_ping_idle _ (tick w)
    ltac:(by rewrite ping_due_tick))), prepend_nil.
  rewrite (bind_run _ _ _ _ _ _ (append_data_run None (tick w))), prepend_nil.
  run_simp. rewrite process_loop_S.
  cbn [received default]. rewrite app_nil_r, set_bin_id.
  rewrite (bind_run _ _ _ _ _ _ (process_one_short _ (tick w)
    ltac:(by rewrite bin_tick))).
  reflexivity.
Qed.

(** Claim C4.  On an engine that is not disconnected, with [now] the
    reading of the clock that [process] takes and [H] the heartbeat in
    milliseconds: if [now - lastRecv > H + H / 2] the call logs the timeout
    and leaves the engine disconnected; otherwise no timeout is reported,
    and on an idle line (no data, less than a header buffered, no ping due)
    the call changes no state and does nothing at all. *)
Theorem heartbeat_timeout (w : Blynk) (data : option bytes) :
  state w ≠ DISCONNECTED →
  let now := next_time w in
  let H := heartbeat w in
  let r := process data w in
  (now - lastRecv w > H + H / 2 →
     state (world r) = DISCONNECTED ∧ Log LogHeartbeatTimeout ∈ trace r)
  ∧ (now - lastRecv w ≤ H + H / 2 → Log LogHeartbeatTimeout ∉ trace r)
  ∧ (now - lastRecv w ≤ H + H / 2 →
     data = None → (length (bin w) < 5)%nat → ping_due now w = false →
     state (world r) = state w ∧ trace r = [] ∧ result r = Ok tt).
Proof.
  intros Hs. cbv zeta. split; [|split].
  - intros H. apply timed_out_spec in H. rewrite (process_timed_out _ _ Hs H).
    split; [apply disconnect_state|apply list_elem_of_here].
  - intros Hle. apply timed_out_false in Hle.
    rewrite (process_in_time _ _ Hs Hle).
    set (now := next_time w). unfold bind at 1.
    destruct (good_tame _ (good_send_ping now) (tick w)) as [_ Hq].
    destruct (send_ping now (tick w)) as [w1 t1 [[]| |]];
      cbn [world trace result] in *; try done.
    rewrite (bind_run _ _ _ _ _ _ (append_data_run data w1)), prepend_nil.
    run_simp. rewrite elem_of_app. intros [?|?]; [done|].
    by eapply process_loop_quiet.
  - intros Hle -> Hl Hp. apply timed_out_false in Hle.
    rewrite (process_idle _ Hs Hle Hp Hl). cbn. by rewrite tick_state.
Qed.

Lemma frame_pack cmd i (body : bytes) :
  0 ≤ cmd ≤ 255 → 0 ≤ i ≤ 65535 → Z.of_nat (length body) ≤ 65535 →
  ∃ hdr, struct_pack cmd i (Z.of_nat (length body)) = Some hdr
         ∧ frame cmd i body = hdr ++ body ∧ length hdr = 5%nat.
Proof.
  intros Hc Hi Hb.
  destruct (struct_pack_Some cmd i (Z.of_nat (length body))) as [hdr Hh];
    [lia..|].
  exists hdr. unfold frame. rewrite Hh. repeat split.
  by eapply struct_pack_length.
Qed.

(** A turn on a buffer that starts with a whole message. *)
Lemma process_one_frame now w cmd i body rest :
  0 ≤ cmd ≤ 255 → cmd ≠ MSG_RSP → 1 ≤ i ≤ 65535 →
  Z.of_nat (length body) ≤ 65535 → Z.of_nat (length body) ≤ buffin w * 2 →
  bin w = frame cmd i body ++ rest →
  process_one now w =
  (let* args :=
     match decode_fields body with
     | Some a => ret a
     | None => log LogUtf8Error ;; ret []
     end in
   log (LogRecv cmd i args) ;;
   dispatch cmd i args ;;
   ret Continue) (set_bin rest (set_lastRecv now w)).
Proof.
  intros Hc Hr Hi Hb Hbf Hbin.
  destruct (frame_pack cmd i body) as (hdr & Hp & Hf & Hl); [lia..|].
  rewrite Hf, <- app_assoc in Hbin.
  assert (5 ≤ length (bin w))%nat as Hlen.
  { rewrite Hbin, length_app. lia. }
  assert (struct_unpack (take 5 (bin w))
          = Some (cmd, i, Z.of_nat (length body))) as Hhdr.
  { rewrite Hbin, take_header by done. by apply struct_unpack_pack. }
  rewrite (process_one_msg now w _ _ _ Hlen Hhdr); [|lia|lia|done|].
  - rewrite Nat2Z.id, Hbin, drop_header by done.
    rewrite take_app_length. 
    replace (drop (5 + length body) (hdr ++ body ++ rest)) with rest; [done|].
    rewrite <- drop_drop, drop_header by done. by rewrite drop_app_length.
  - rewrite Hbin, !length_app. lia.
Qed.

Lemma dispatch_no_fields cmd i :
  cmd ≠ MSG_PING →
  ∃ m, dispatch cmd i [] = log m
       ∧ (m = LogMalformedHW [] ∨ m = LogMalformedInternal []
          ∨ m = LogIgnoring cmd).
Proof.
  intros Hc. unfold dispatch.
  destruct (cmd =? MSG_PING) eqn:E; bool_to_prop; [done|].
  destruct (_ || _); [by eauto|].
  destruct (cmd =? MSG_INTERNAL); by eauto.
Qed.

Lemma tick_bin w : bin (tick w) = bin w.
Proof. unfold tick. by destruct (clock_next w). Qed.


(** Claim C2, as the code has it.  For a command other than the response
    and the hardware login, an id in 1..65535 and a list of fields that is
    not empty, whose fields hold no NUL and encode in UTF-8 into a body that
    fits the length field and the receiver's bound of twice [buffin]:
    [_send] puts on the wire exactly the header (command, id, length of the
    body, big-endian) followed by the body, 5 + length bytes in all, and one
    turn of the receive loop on a buffer that starts with these bytes reads
    back that command, that id and those fields, hands them to the
    dispatcher and leaves what followed in the buffer. *)
Theorem framing_round_trip (ws wr : Blynk) (now : Z) cmd i fields body rest :
  0 ≤ cmd ≤ 255 → cmd ≠ MSG_RSP → cmd ≠ MSG_HW_LOGIN → 1 ≤ i ≤ 65535 →
  fields ≠ [] → Forall (λ f, 0 ∉ f) fields →
  utf8_encode (join NUL fields) = Some body →
  Z.of_nat (length body) ≤ 65535 → Z.of_nat (length body) ≤ buffin wr * 2 →
  state ws ≠ DISCONNECTED → reliable ws →
  wired (trace (_send cmd (AStr <$> fields) (Some i) ws)) = frame cmd i body
  ∧ length (frame cmd i body) = (5 + length body)%nat
  ∧ (bin wr = frame cmd i body ++ rest →
     let r := process_one now wr in
     r = prepend [Log (LogRecv cmd i fields)]
           ((dispatch cmd i fields ;; ret Continue)
              (set_bin rest (set_lastRecv now wr)))
     ∧ bin (world r) = rest).
Proof.
  intros Hc Hr Hl Hi Hne Hnul Henc Hb Hbf Hs Hrel.
  destruct (frame_pack cmd i body) as (hdr & Hp & Hf & Hl5); [lia..|].
  split; [|split].
  - rewrite send_reliable by done. unfold send_outcome, encode_payload.
    destruct (cmd =? MSG_RSP) eqn:E1; bool_to_prop; [done|].
    destruct (cmd =? MSG_HW_LOGIN) eqn:E2; bool_to_prop; [done|].
    rewrite <- list_fmap_compose.
    replace (py_str ∘ AStr <$> fields) with fields
      by (symmetry; apply list_fmap_id).
    rewrite Henc. cbn [pick_id pack_header]. rewrite Hp. cbn [trace].
    obs_simp. by rewrite Hf.
  - rewrite Hf, length_app. lia.
  - intros Hbin. cbv zeta.
    rewrite (process_one_frame now wr cmd i body rest) by done.
    rewrite (decode_fields_encode _ _ Hne Hnul Henc). run_simp.
    split; [done|]. cbn [world prepend].
    assert (good (dispatch cmd i fields ;; ret Continue)) as Hg
      by good_tac.
    by rewrite (good_bin _ _ Hg).
Qed.

Lemma tick_fields w :
  callbacks (tick w) = callbacks w ∧ heartbeat (tick w) = heartbeat w
  ∧ buffin (tick w) = buffin w ∧ auth (tick w) = auth w
  ∧ msg_id (tick w) = msg_id w ∧ lastRecv (tick w) = lastRecv w
  ∧ lastSend (tick w) = lastSend w ∧ lastPing (tick w) = lastPing w.
Proof. unfold tick. by destruct (clock_next w). Qed.

Lemma reliable_tick w : reliable w → reliable (tick w).
Proof. intros [cf H]. exists cf. by rewrite tick_conn. Qed.


(** ** The loop consumes its buffer *)

Lemma stop_not_continue (m : log_msg) w :
  result ((log m ;; disconnect ;; ret Return) w) ≠ Ok Continue.
Proof.
  run_simp. destruct (disconnect_run w) as (t & r & Hd & _).
  destruct r as [[]|e|].
  - by rewrite (bind_run _ _ _ _ _ _ Hd).
  - by rewrite (bind_run_exc _ _ _ _ _ _ Hd).
  - unfold bind. by rewrite Hd.
Qed.

Lemma good_login_or_continue (b : bool) now n :
  good (if b then login_response now n else ret Continue).
Proof. destruct b; good_tac. Qed.

Lemma good_message cmd i (body : bytes) :
  good (let* args :=
          match decode_fields body with
          | Some a => ret a
          | None => log LogUtf8Error ;; ret []
          end in
        log (LogRecv cmd i args) ;;
        dispatch cmd i args ;;
        ret Continue).
Proof. good_tac. Qed.

Lemma process_one_shrinks now w :
  result (process_one now w) = Ok Continue →
  (length (bin (world (process_one now w))) + 5 ≤ length (bin w))%nat.
Proof.
  destruct (decide (length (bin w) < 5)%nat) as [Hs|Hl].
  { by rewrite process_one_short. }
  assert (5 ≤ length (bin w))%nat as Hlen by lia.
  destruct (struct_unpack_take _ Hlen) as (cmd & i & n & Hhdr & Hc & Hi & Hn).
  destruct (decide (i = 0)) as [Hi0|Hi0].
  { rewrite (process_one_bad_id now w _ _ _ Hlen Hhdr Hi0).
    intros H. by apply stop_not_continue in H. }
  destruct (Z_gt_le_dec n (buffin w * 2)) as [Hbig|Hsmall].
  { rewrite (process_one_bad_len now w _ _ _ Hlen Hhdr Hi0 Hbig).
    intros H. by apply stop_not_continue in H. }
  destruct (decide (cmd = MSG_RSP)) as [Hr|Hr].
  { rewrite (process_one_rsp now w _ _ _ Hlen Hhdr Hi0 ltac:(lia) Hr).
    intros _. cbn [prepend world].
    rewrite (good_bin _ _ (good_login_or_continue _ _ _)).
    cbn [bin set_bin]. rewrite length_drop. lia. }
  destruct (Z_lt_le_dec (Z.of_nat (length (bin w))) (5 + n)) as [Hw|Hm].
  { by rewrite (process_one_wait now w _ _ _ Hlen Hhdr Hi0 ltac:(lia) Hr Hw). }
  rewrite (process_one_msg now w _ _ _ Hlen Hhdr Hi0 ltac:(lia) Hr Hm).
  intros _. rewrite (good_bin _ _ (good_message _ _ _)).
  cbn [bin set_bin]. rewrite length_drop. lia.
Qed.

Lemma process_loop_fuel f1 f2 now w :
  (length (bin w) < f1)%nat → (length (bin w) < f2)%nat →
  process_loop f1 now w = process_loop f2 now w.
Proof.
  revert f2 w. induction f1 as [|f1 IH]; intros f2 w H1 H2; [lia|].
  destruct f2 as [|f2]; [lia|]. rewrite !process_loop_S. unfold bind.
  pose proof (process_one_shrinks now w) as Hsh.
  destruct (process_one now w) as [w1 t1 [[]|e|]]; cbn in *; try done.
  specialize (Hsh eq_refl). rewrite (IH f2 w1) by lia. done.
Qed.

Lemma process_loop_total fuel now w :
  (length (bin w) < fuel)%nat → result (process_loop fuel now w) ≠ NoFuel.
Proof.
  revert w. induction fuel as [|fuel IH]; intros w Hl; [lia|].
  rewrite process_loop_S. unfold bind.
  pose proof (process_one_shrinks now w) as Hsh.
  destruct (tame_process_one now w) as [Ht _].
  destruct (process_one now w) as [w1 t1 [[]|e|]]; cbn in *; try done.
  apply IH. specialize (Hsh eq_refl). lia.
Qed.

(** [process] always comes back: the loop bound of the model is never hit. *)
Lemma process_total data w : result (process data w) ≠ NoFuel.
Proof.
  destruct (decide (state w = DISCONNECTED)) as [Hs|Hs].
  { by rewrite process_disconnected. }
  destruct (timed_out (next_time w) w) eqn:Hto.
  { rewrite (process_timed_out _ _ Hs Hto).
    destruct (disconnect_run (tick w)) as (t & r & -> & _ & Hr). done. }
  rewrite (process_in_time _ _ Hs Hto). unfold bind at 1.
  destruct (good_tame _ (good_send_ping (next_time w)) (tick w)) as [Ht _].
  destruct (send_ping (next_time w) (tick w)) as [w1 t1 [[]|e|]];
    cbn [world trace result] in *; try done.
  rewrite (bind_run _ _ _ _ _ _ (append_data_run data w1)), prepend_nil.
  run_simp. apply process_loop_total. lia.
Qed.

Lemma drain_unfold now w :
  drain now w =
  bind (process_one now)
    (λ c, match c with
          | Return => ret tt
          | Continue => drain now
          end) w.
Proof.
  unfold drain. rewrite process_loop_S. unfold bind.
  pose proof (process_one_shrinks now w) as Hsh.
  destruct (process_one now w) as [w1 t1 [[]|e|]]; cbn in *; try done.
  specialize (Hsh eq_refl).
  rewrite (process_loop_fuel (length (bin w)) (S (length (bin w1)))) by lia.
  done.
Qed.

(** ** More data behind the buffer *)

Lemma good_app {A} (m : M A) d w :
  good m → m (app_bin d w) = map_world (app_bin d) (m w).
Proof.
  intros Hg. unfold app_bin. destruct Hg as [Hb Ht].
  rewrite (Hb (bin w ++ d) w). unfold map_world. f_equal.
  by rewrite (good_bin m w (conj Hb Ht)).
Qed.

Lemma app_bin_nil w : app_bin [] w = w.
Proof. unfold app_bin. by rewrite app_nil_r, set_bin_id. Qed.

Lemma app_bin_app d1 d2 w : app_bin (d1 ++ d2) w = app_bin d2 (app_bin d1 w).
Proof. unfold app_bin. cbn. by rewrite app_assoc. Qed.

Lemma take_app_long (b d : bytes) k :
  (k ≤ length b)%nat → take k (b ++ d) = take k b.
Proof. intros. by apply take_app_le. Qed.

Lemma drop_app_long (b d : bytes) k :
  (k ≤ length b)%nat → drop k (b ++ d) = drop k b ++ d.
Proof. intros. by apply drop_app_le. Qed.

(** A turn that does not wait for data runs the same way whatever follows
    in the buffer, and leaves what follows in place. *)
Lemma process_one_app now w d :
  pending now w = None →
  process_one now (app_bin d w) = map_world (app_bin d) (process_one now w).
Proof.
  unfold pending. intros Hp.
  destruct (length (bin w) <? 5)%nat eqn:E5; [done|]. bool_to_prop.
  destruct (struct_unpack_take _ E5) as (cmd & i & n & Hhdr & Hc & Hi & Hn).
  rewrite Hhdr in Hp.
  assert (5 ≤ length (bin (app_bin d w)))%nat as Hlen'.
  { cbn. rewrite length_app. lia. }
  assert (struct_unpack (take 5 (bin (app_bin d w))) = Some (cmd, i, n))
    as Hhdr'.
  { cbn. by rewrite take_app_long. }
  destruct (decide (i = 0)) as [Hi0|Hi0].
  { rewrite (process_one_bad_id now w _ _ _ E5 Hhdr Hi0).
    rewrite (process_one_bad_id now _ _ _ _ Hlen' Hhdr' Hi0).
    apply good_app. good_tac. }
  destruct (Z_gt_le_dec n (buffin w * 2)) as [Hbig|Hsmall].
  { rewrite (process_one_bad_len now w _ _ _ E5 Hhdr Hi0 Hbig).
    rewrite (process_one_bad_len now _ _ _ _ Hlen' Hhdr' Hi0 Hbig).
    change (buffin (app_bin d w)) with (buffin w).
    apply good_app. good_tac. }
  destruct (decide (cmd = MSG_RSP)) as [Hr|Hr].
  { rewrite (process_one_rsp now w _ _ _ E5 Hhdr Hi0 ltac:(lia) Hr).
    rewrite (process_one_rsp now _ _ _ _ Hlen' Hhdr' Hi0 ltac:(cbn; lia) Hr).
    rewrite map_world_prepend. f_equal.
    change (state (app_bin d w)) with (state w).
    rewrite <- (good_app _ d _ (good_login_or_continue _ _ _)).
    f_equal. unfold app_bin. cbn. by rewrite drop_app_long. }
  destruct (i =? 0) eqn:E1; bool_to_prop; [done|].
  destruct (n >? buffin w * 2) eqn:E2; bool_to_prop; [lia|].
  destruct (cmd =? MSG_RSP) eqn:E3; bool_to_prop; [done|].
  cbn [orb] in Hp.
  destruct (Z.of_nat (length (bin w)) <? 5 + n) eqn:E4; [done|]. bool_to_prop.
  rewrite (process_one_msg now w _ _ _ E5 Hhdr Hi0 ltac:(lia) Hr E4).
  rewrite (process_one_msg now _ _ _ _ Hlen' Hhdr' Hi0 ltac:(cbn; lia) Hr).
  2:{ cbn. rewrite length_app. lia. }
  cbn [bin app_bin set_bin].
  rewrite drop_app_long by lia.
  rewrite take_app_long by (rewrite length_drop; lia).
  rewrite <- (good_app _ d _ (good_message _ _ _)).
  f_equal. unfold app_bin. cbn. by rewrite drop_app_long by lia.
Qed.

(** A turn that waits for data: nothing happens but the receive stamp, and
    with more data the turn runs as it would have from the start. *)
Lemma process_one_pending now w w' :
  pending now w = Some w' →
  process_one now w = Run w' [] (Ok Return)
  ∧ (w' = w ∨ w' = set_lastRecv now w)
  ∧ ∀ d, process_one now (app_bin d w) = process_one now (app_bin d w').
Proof.
  unfold pending. intros Hp.
  destruct (length (bin w) <? 5)%nat eqn:E5; bool_to_prop.
  { injection Hp as <-. split; [by apply process_one_short|]. by split; [left|]. }
  destruct (struct_unpack_take _ E5) as (cmd & i & n & Hhdr & Hc & Hi & Hn).
  rewrite Hhdr in Hp.
  destruct (i =? 0) eqn:E1; bool_to_prop; [done|].
  destruct (n >? buffin w * 2) eqn:E2; bool_to_prop; [done|].
  destruct (cmd =? MSG_RSP) eqn:E3; bool_to_prop; [done|].
  cbn [orb] in Hp.
  destruct (Z.of_nat (length (bin w)) <? 5 + n) eqn:E4; [|done]. bool_to_prop.
  injection Hp as <-.
  split; [by apply (process_one_wait now w cmd i n); try lia|].
  split; [by right|]. intros d.
  assert (5 ≤ length (bin (app_bin d w)))%nat as Hlen'.
  { cbn. rewrite length_app. lia. }
  assert (struct_unpack (take 5 (bin (app_bin d w))) = Some (cmd, i, n))
    as Hhdr'.
  { cbn. by rewrite take_app_long. }
  destruct (Z_lt_le_dec (Z.of_nat (length (bin w ++ d))) (5 + n)) as [Hw|Hm].
  - rewrite (process_one_wait now (app_bin d w) cmd i n); [|done..|cbn; lia|done|done].
    rewrite (process_one_wait now (app_bin d (set_lastRecv now w)) cmd i n);
      [|done..|cbn; lia|done|done].
    reflexivity.
  - rewrite (process_one_msg now (app_bin d w) cmd i n); [|done..|cbn; lia|done|done].
    rewrite (process_one_msg now (app_bin d (set_lastRecv now w)) cmd i n);
      [|done..|cbn; lia|done|done].
    reflexivity.
Qed.

(** ** Strings of 8-bit characters always encode *)

Lemma utf8_encode_latin s : latin s → is_Some (utf8_encode s).
Proof.
  induction 1 as [|c s Hc _ IH]; cbn [utf8_encode]; [by eexists|].
  destruct IH as [r ->].
  assert (is_Some (encode_cp c)) as [b ->]; [|by eexists].
  unfold encode_cp. repeat case_match; try (by eexists); bool_to_prop; lia.
Qed.

Lemma latin_str s : latin (str s).
Proof.
  unfold str, latin. apply Forall_fmap, Forall_forall. intros a _. cbn.
  pose proof (Ascii.N_ascii_bounded a). lia.
Qed.

Lemma latin_join sep l : latin sep → Forall latin l → latin (join sep l).
Proof.
  intros Hsep. induction 1 as [|x l Hx Hl IH]; cbn [join]; [constructor|].
  destruct l; [done|]. unfold latin in *. rewrite !Forall_app. auto.
Qed.

Lemma client_info_encodable hb bf :
  is_Some (utf8_encode (join NUL (py_str <$> client_info hb bf))).
Proof.
  apply utf8_encode_latin, latin_join.
  - repeat constructor; lia.
  - unfold client_info. cbn [fmap list_fmap py_str].
    repeat (constructor; [apply latin_str|]). constructor.
Qed.

(** ** The engine on a quiet line *)

Lemma ping_due_false now w :
  ping_due now w = false ↔
  state w ≠ CONNECTED ∨ now - lastPing w ≤ heartbeat w / 10
  ∨ (now - lastSend w ≤ heartbeat w ∧ now - lastRecv w ≤ heartbeat w).
Proof.
  unfold ping_due. rewrite !andb_false_iff, orb_false_iff.
  rewrite bool_decide_eq_false, !Z.gtb_ltb, !Z.ltb_ge. tauto.
Qed.

Lemma live_bin now b w : live now w → live now (set_bin b w).
Proof. intros []. by split. Qed.

Lemma live_recv now w : live now w → live now (set_lastRecv now w).
Proof.
  intros [Hc Hh Hi Hs Hr Ht Hp]. split; try done.
  - apply timed_out_false. cbn. Z.div_mod_to_equations. lia.
  - apply ping_due_false. apply ping_due_false in Hp. cbn.
    destruct Hp as [?|[?|[? ?]]]; [by left|by right; left|right; right; lia].
Qed.

Lemma live_sent now w : live now w → live now (set_lastSend now w).
Proof.
  intros [Hc Hh Hi Hs Hr Ht Hp]. split; try done.
  apply ping_due_false. apply ping_due_false in Hp. cbn.
  destruct Hp as [?|[?|[? ?]]]; [by left|by right; left|right; right; lia].
Qed.

Lemma live_bump now idk w : live now w → live now (bump_id idk w).
Proof.
  intros Hl. destruct idk as [i|]; [done|]. destruct Hl as [Hc Hh Hi Hs Hr Ht Hp].
  split; try done.
  pose proof (mid_alloc_msg_id None w Hi) as H.
  by rewrite alloc_msg_id_run in H.
Qed.

Lemma carries_bind {A B} now (m : M A) (k : A → M B) w :
  carries now (m w) → (∀ a w1, live now w1 → carries now (k a w1)) →
  carries now (bind m k w).
Proof.
  unfold carries, bind. intros Hm Hk.
  destruct (m w) as [w1 t1 [a|e|]]; cbn in *; [|done..].
  by apply Hk.
Qed.

Lemma carries_emit now evt a kv w : live now w → carries now (emit evt a kv w).
Proof.
  intros Hl. destruct (emit_run evt a kv w) as (t & r & -> & _ & Hr).
  unfold carries. cbn. by destruct r.
Qed.

Lemma carries_log now m w : live now w → carries now (log m w).
Proof. done. Qed.

Lemma carries_ret {A} now (a : A) w : live now w → carries now (ret a w).
Proof. done. Qed.

Lemma carries_send now cmd args idk w :
  live now w → carries now (_send cmd args idk w).
Proof.
  intros Hl. pose proof (live_bump now idk w Hl) as Hb.
  rewrite send_reliable by apply Hl. unfold send_outcome.
  destruct (encode_payload cmd args) as [data dlen|m|e]; [|done..].
  destruct (pack_header _ _ _); [|done]. unfold carries. cbn.
  rewrite (tick_frozen now), (next_time_frozen now) by apply Hb.
  by apply live_sent.
Qed.

Lemma carries_dispatch now cmd i args w :
  live now w → carries now (dispatch cmd i args w).
Proof.
  intros Hl. unfold dispatch.
  repeat case_match; 
    repeat first [ apply carries_send | apply carries_emit | apply carries_log
                 | apply carries_ret | done
                 | apply carries_bind; [|intros ? ? ?] ].
Qed.

Lemma turn_ok_prepend now t r : turn_ok now r → turn_ok now (prepend t r).
Proof. done. Qed.

Lemma turn_ok_stop now m w :
  turn_ok now ((log m ;; disconnect ;; ret Return) w).
Proof.
  run_simp. apply turn_ok_prepend.
  destruct (disconnect_run w) as (t & r & Hd & _ & Hr).
  destruct r as [[]|e|]; [| |done].
  - by rewrite (bind_run _ _ _ _ _ _ Hd).
  - by rewrite (bind_run_exc _ _ _ _ _ _ Hd).
Qed.

Lemma turn_ok_carries now (m : M unit) w :
  carries now (m w) → turn_ok now ((m ;; ret Continue) w).
Proof.
  unfold carries, turn_ok, bind.
  by destruct (m w) as [w1 t1 [[]|e|]].
Qed.

Lemma turn_ok_login now n w :
  live now w → lastRecv w = now →
  turn_ok now (login_response now n w).
Proof.
  intros Hl Hlr. unfold login_response.
  destruct (n =? STA_SUCCESS).
  2:{ run_simp. apply turn_ok_prepend. unfold when.
      destruct (n =? STA_INVALID_TOKEN); run_simp.
      - apply turn_ok_prepend.
        apply (turn_ok_stop now LogInvalidMsgId w).
      - apply (turn_ok_stop now LogInvalidMsgId w). }
  run_simp. set (w4 := set_state CONNECTED w).
  destruct Hl as [Hc Hh Hi Hs Hr Ht Hp].
  assert (heartbeat w4 = heartbeat w ∧ buffin w4 = buffin w) as [-> ->]
    by done.
  pose proof (send_reliable MSG_INTERNAL
    (client_info (heartbeat w) (buffin w)) None w4 ltac:(done)
    ltac:(destruct Hr as [cf Hr]; by exists cf)) as Hsend.
  unfold send_outcome, encode_payload in Hsend.
  change (MSG_INTERNAL =? MSG_RSP) with false in Hsend.
  change (MSG_INTERNAL =? MSG_HW_LOGIN) with false in Hsend.
  cbv iota in Hsend.
  destruct (client_info_encodable (heartbeat w) (buffin w)) as [body Hbody].
  rewrite Hbody in Hsend.
  destruct (pack_header _ _ _) as [hdr|].
  2:{ by rewrite (bind_run_exc _ _ _ _ _ _ Hsend). }
  assert (frozen_at now (bump_id None w4)) as Hf by done.
  rewrite (tick_frozen now), (next_time_frozen now) in Hsend by done.
  rewrite (bind_run _ _ _ _ _ _ Hsend).
  set (w5 := set_lastSend now _).
  assert (live now w5) as Hl5.
  { split; try done.
    - pose proof (mid_alloc_msg_id None w4 Hi) as H.
      by rewrite alloc_msg_id_run in H.
    - apply ping_due_false. cbn. rewrite Hlr. right; right. lia. }
  apply turn_ok_prepend. run_simp. apply turn_ok_prepend.
  apply turn_ok_carries. by apply carries_emit.
Qed.

(** A turn that does not wait for data keeps a live engine live, or ends
    the loop disconnected. *)
Lemma turn_ok_process_one now w :
  live now w → pending now w = None → turn_ok now (process_one now w).
Proof.
  intros Hl. unfold pending. intros Hp.
  destruct (length (bin w) <? 5)%nat eqn:E5; [done|]. bool_to_prop.
  destruct (struct_unpack_take _ E5) as (cmd & i & n & Hhdr & Hc & Hi & Hn).
  rewrite Hhdr in Hp.
  destruct (decide (i = 0)) as [Hi0|Hi0].
  { rewrite (process_one_bad_id now w _ _ _ E5 Hhdr Hi0).
    apply turn_ok_stop. }
  destruct (Z_gt_le_dec n (buffin w * 2)) as [Hbig|Hsmall].
  { rewrite (process_one_bad_len now w _ _ _ E5 Hhdr Hi0 Hbig).
    apply turn_ok_stop. }
  pose proof (live_bin now (drop 5 (bin w)) _ (live_recv now w Hl)) as Hl3.
  destruct (decide (cmd = MSG_RSP)) as [Hr|Hr].
  { rewrite (process_one_rsp now w _ _ _ E5 Hhdr Hi0 ltac:(lia) Hr).
    apply turn_ok_prepend. destruct (_ && _).
    - by apply turn_ok_login.
    - done. }
  destruct (i =? 0) eqn:E1; bool_to_prop; [done|].
  destruct (n >? buffin w * 2) eqn:E2; bool_to_prop; [lia|].
  destruct (cmd =? MSG_RSP) eqn:E3; bool_to_prop; [done|].
  cbn [orb] in Hp.
  destruct (Z.of_nat (length (bin w)) <? 5 + n) eqn:E4; [done|]. bool_to_prop.
  rewrite (process_one_msg now w _ _ _ E5 Hhdr Hi0 ltac:(lia) Hr E4).
  set (w3 := set_bin _ _).
  assert (live now w3) as Hl3' by (apply live_bin; by apply live_recv).
  clearbody w3.
  assert (∀ args, turn_ok now
            ((log (LogRecv cmd i args) ;; dispatch cmd i args ;; ret Continue)
               w3)) as Hd.
  { intros args. run_simp. apply turn_ok_prepend.
    apply turn_ok_carries. by apply carries_dispatch. }
  destruct (decode_fields _); run_simp; [apply Hd|].
  apply turn_ok_prepend, Hd.
Qed.

(** ** The loop on a buffer that grows *)

Lemma live_pending now w w' :
  live now w → pending now w = Some w' → live now w'.
Proof.
  intros Hl Hp. destruct (process_one_pending _ _ _ Hp) as (_ & [->| ->] & _);
    [done|by apply live_recv].
Qed.

Lemma drain_app now d n w :
  (length (bin w) ≤ n)%nat → live now w → resumes now d w (drain now w).
Proof.
  revert w. induction n as [|n IH]; intros w Hn Hl.
  - (* fewer than five bytes: the turn waits *)
    destruct (process_one_pending now w w) as (Hone & _ & Hmore).
    { unfold pending.
      by replace (length (bin w) <? 5)%nat with true
        by (symmetry; apply Nat.ltb_lt; lia). }
    unfold resumes. rewrite (drain_unfold now w), (bind_run _ _ _ _ _ _ Hone).
    cbn [prepend ret world trace result].
    rewrite decide_False by apply Hl. split; [done|].
    by rewrite prepend_nil.
  - destruct (pending now w) as [w'|] eqn:Hp.
    + destruct (process_one_pending _ _ _ Hp) as (Hone & _ & Hmore).
      pose proof (live_pending _ _ _ Hl Hp) as Hl'.
      unfold resumes. rewrite (drain_unfold now w), (bind_run _ _ _ _ _ _ Hone).
      cbn [prepend ret world trace result].
      rewrite decide_False by apply Hl'. split; [done|].
      rewrite prepend_nil, !(drain_unfold now (app_bin d _)).
      unfold bind. by rewrite (Hmore d).
    + pose proof (process_one_app now w d Hp) as Hframe.
      pose proof (turn_ok_process_one now w Hl Hp) as Hok.
      pose proof (process_one_shrinks now w) as Hsh.
      unfold turn_ok in Hok.
      destruct (process_one now w) as [w1 t1 [[|]|e|]] eqn:Hone;
        cbn [map_world world trace result] in *; [| | |done].
      * specialize (Hsh eq_refl).
        pose proof (IH w1 ltac:(lia) Hok) as Hres. unfold resumes in *.
        rewrite (drain_unfold now w), (bind_run _ _ _ _ _ _ Hone).
        rewrite (drain_unfold now (app_bin d w)), (bind_run _ _ _ _ _ _ Hframe).
        cbn [prepend world trace result].
        destruct (result (drain now w1)) as [[]|e|]; [| |done].
        -- destruct (decide (state (world (drain now w1)) = DISCONNECTED)).
           ++ rewrite Hres. reflexivity.
           ++ destruct Hres as [Hl1 ->]. split; [done|].
              by rewrite prepend_prepend.
        -- rewrite Hres. reflexivity.
      * unfold resumes.
        rewrite (drain_unfold now w), (bind_run _ _ _ _ _ _ Hone).
        rewrite (drain_unfold now (app_bin d w)), (bind_run _ _ _ _ _ _ Hframe).
        cbn [prepend ret world trace result].
        rewrite decide_True by done. reflexivity.
      * unfold resumes.
        rewrite (drain_unfold now w), (bind_run_exc _ _ _ _ _ _ Hone).
        rewrite (drain_unfold now (app_bin d w)),
          (bind_run_exc _ _ _ _ _ _ Hframe).
        reflexivity.
Qed.

(** ** [process] on a live engine *)

Lemma process_live now data w :
  live now w → process data w = drain now (app_bin (received data) w).
Proof.
  intros [Hc Hh Hi Hs Hr Ht Hp].
  pose proof (tick_frozen now w Hc) as Htk.
  pose proof (next_time_frozen now w Hc) as Hnt.
  rewrite (process_in_time _ _ Hs) by (rewrite Hnt; assumption).
  rewrite Htk, Hnt.
  rewrite (bind_run _ _ _ _ _ _ (send_ping_idle now w Hp)), prepend_nil.
  rewrite (bind_run _ _ _ _ _ _ (append_data_run data w)), prepend_nil.
  by run_simp.
Qed.

Lemma live_steady now w : live now w → steady now w.
Proof. intros [? ? ? ? ? ? ?]. unfold steady. auto. Qed.

Lemma send_ping_live now w :
  steady now w → state w ≠ DISCONNECTED → timed_out now w = false →
  ∃ wp tp, send_ping now w = Run wp tp (Ok tt) ∧ live now wp.
Proof.
  intros (Hc & Hh & Hi & Hr) Hs Ht. specialize (Hr Hs).
  destruct (ping_due now w) eqn:Hp.
  2:{ exists w, []. split; [by apply send_ping_idle|]. by split. }
  unfold send_ping. run_simp. rewrite Hp. cbn [when].
  pose proof (send_reliable MSG_PING [] None w Hs Hr) as Hsend.
  unfold send_outcome in Hsend.
  change (encode_payload MSG_PING []) with (PayloadOk [] (AInt 0)) in Hsend.
  cbn [pick_id pack_header] in Hsend.
  destruct (struct_pack_Some MSG_PING (msg_id w) 0) as [hdr Hh6];
    [unfold MSG_PING; lia|lia|lia|].
  rewrite Hh6 in Hsend.
  assert (frozen_at now (bump_id None w)) as Hf by done.
  rewrite (tick_frozen now), (next_time_frozen now) in Hsend by done.
  eexists _, _. split.
  - erewrite try_run_ok; [reflexivity|].
    rewrite (bind_run _ _ _ _ _ _ Hsend). reflexivity.
  - cbn [world]. split; try done.
    + pose proof (mid_alloc_msg_id None w Hi) as H.
      by rewrite alloc_msg_id_run in H.
    + apply ping_due_false. cbn. right; left.
      Z.div_mod_to_equations. lia.
Qed.

(** ** One call or several *)

Lemma agree_refl r : agree r r.
Proof. by repeat split. Qed.

Lemma agree_trans r1 r2 r3 : agree r1 r2 → agree r2 r3 → agree r1 r3.
Proof.
  intros (Ht & Hr & Hw & He) (Ht' & Hr' & Hw' & He').
  repeat split; [congruence..|].
  intros H1 H2. rewrite He by done. apply He'; [congruence|].
  by rewrite <- He.
Qed.

Lemma agree_seq (m : M unit) (k k' : M unit) w :
  (result (m w) = Ok tt → agree (k (world (m w))) (k' (world (m w)))) →
  agree (bind m (λ _, k) w) (bind m (λ _, k') w).
Proof.
  unfold bind. destruct (m w) as [w1 t1 [[]|e|]]; cbn; [|by intros _..].
  intros H. destruct (H eq_refl) as (Ht & Hr & Hw & He).
  repeat split; cbn; [congruence..|done].
Qed.

(** Feeding a byte string in two calls. *)
Lemma process_split now w d1 d2 :
  steady now w →
  agree (process (Some (d1 ++ d2)) w)
        ((process (Some d1) ;; process (Some d2)) w)
  ∧ (result (process (Some d1) w) = Ok tt →
     state (world (process (Some d1) w)) ≠ DISCONNECTED →
     live now (world (process (Some d1) w))).
Proof.
  intros Hst. pose proof Hst as (Hc & Hh & Hi & Hr).
  destruct (decide (state w = DISCONNECTED)) as [Hs|Hs].
  { rewrite !(process_disconnected _ w Hs).
    rewrite (bind_run _ _ _ _ _ _ (process_disconnected (Some d1) w Hs)).
    rewrite (process_disconnected _ w Hs). split; [apply agree_refl|].
    by intros _ []. }
  pose proof (tick_frozen now w Hc) as Htk.
  pose proof (next_time_frozen now w Hc) as Hnt.
  destruct (timed_out now w) eqn:Hto.
  { rewrite !(process_timed_out _ w Hs) by (rewrite Hnt; assumption).
    unfold bind. rewrite (process_timed_out _ w Hs) by (rewrite Hnt; assumption).
    destruct (disconnect_run (tick w)) as (t & r & -> & _ & _).
    cbn [prepend world trace result]. split; [|by intros _ []].
    destruct r as [[]|e|]; try apply agree_refl.
    rewrite process_disconnected by done. cbn.
    rewrite app_nil_r. apply agree_refl. }
  destruct (send_ping_live now w Hst Hs Hto) as (wp & tp & Hping & Hlp).
  assert (∀ d, process (Some d) w = prepend tp (drain now (app_bin d wp)))
    as Hproc.
  { intros d. rewrite (process_in_time _ _ Hs) by (rewrite Hnt; assumption).
    rewrite Htk, Hnt. rewrite (bind_run _ _ _ _ _ _ Hping).
    rewrite (bind_run _ _ _ _ _ _ (append_data_run (Some d) wp)), prepend_nil.
    by run_simp. }
  unfold bind. rewrite !Hproc. rewrite app_bin_app.
  pose proof (drain_app now d2 _ (app_bin d1 wp) (le_n _)
                (live_bin _ _ _ Hlp)) as Hres.
  unfold resumes in Hres. cbn [prepend world trace result].
  destruct (drain now (app_bin d1 wp)) as [w1 t1 [[]|e|]] eqn:Hd1;
    cbn [world trace result] in *; [| |done].
  - destruct (decide (state w1 = DISCONNECTED)) as [Hs1|Hs1].
    + rewrite Hres. rewrite (process_disconnected _ w1 Hs1).
      split; [|by intros _ []].
      repeat split; cbn; [by rewrite app_nil_r|done].
    + destruct Hres as [Hl1 ->]. split; [|done].
      rewrite (process_live now _ w1 Hl1). cbn [received default].
      rewrite prepend_prepend. apply agree_refl.
  - rewrite Hres. split; [|done]. repeat split; cbn; done.
Qed.

Lemma feed_disconnected chunks w :
  state w = DISCONNECTED → feed chunks w = Run w [] (Ok tt).
Proof.
  intros Hs. induction chunks as [|c cs IH]; [done|]. cbn [feed].
  by rewrite (bind_run _ _ _ _ _ _ (process_disconnected (Some c) w Hs)), IH.
Qed.

Lemma feed_agree now chunks w :
  steady now w → chunks ≠ [] →
  agree (process (Some (concat chunks)) w) (feed chunks w).
Proof.
  revert w. induction chunks as [|c cs IH]; intros w Hst Hne; [done|].
  destruct cs as [|c' cs].
  - cbn [concat feed]. rewrite app_nil_r. unfold bind.
    destruct (process (Some c) w) as [w1 t1 [[]|e|]]; cbn; try apply agree_refl.
    rewrite app_nil_r. apply agree_refl.
  - change (concat (c :: c' :: cs)) with (c ++ concat (c' :: cs)).
    destruct (process_split now w c (concat (c' :: cs)) Hst) as [Hsp Hlive].
    eapply agree_trans; [apply Hsp|].
    change (feed (c :: c' :: cs)) with (process (Some c) ;; feed (c' :: cs)).
    apply agree_seq. intros Hok.
    destruct (decide (state (world (process (Some c) w)) = DISCONNECTED))
      as [Hs1|Hs1].
    + rewrite process_disconnected, feed_disconnected by done.
      apply agree_refl.
    + apply IH; [|done]. apply live_steady. by apply Hlive.
Qed.

Lemma concat_singletons {A} (l : list A) : concat ((λ b, [b]) <$> l) = l.
Proof. induction l as [|a l IH]; [done|]. cbn. by rewrite IH. Qed.

Lemma feed_two (d1 d2 : bytes) (w : Blynk) :
  feed [d1; d2] w = (process (Some d1) ;; process (Some d2)) w.
Proof.
  change (feed [d1; d2])
    with (process (Some d1) ;; (process (Some d2) ;; ret tt)).
  generalize (process (Some d1)) (process (Some d2)). intros m1 m2.
  unfold bind, ret.
  destruct (m1 w) as [w1 t1 [[]|e|]]; cbn; [|done..].
  destruct (m2 w1) as [w2 t2 [[]|e|]]; cbn; by rewrite ?app_nil_r.
Qed.


(** ** The theorems at work on a sample device *)



Lemma framing_round_trip_witness :
  let fields := [str "vw"; str "3"; str "42"] in
  let body := default [] (utf8_encode (join NUL fields)) in
  let wr := set_bin (frame MSG_HW 2 body ++ [x00]) online in
  wired (trace (_send MSG_HW (AStr <$> fields) (Some 2) online))
    = frame MSG_HW 2 body
  ∧ length (frame MSG_HW 2 body) = (5 + length body)%nat
  ∧ process_one 6000 wr
    = prepend [Log (LogRecv MSG_HW 2 fields)]
        ((dispatch MSG_HW 2 fields ;; ret Continue)
           (set_bin [x00] (set_lastRecv 6000 wr)))
  ∧ bin (world (process_one 6000 wr)) = [x00].
Proof.
  intros fields body wr.
  destruct (framing_round_trip online wr 6000 MSG_HW 2 fields body [x00])
    as (H1 & H2 & H3).
  - by vm_compute.
  - by vm_compute.
  - by vm_compute.
  - by vm_compute.
  - by vm_compute.
  - apply (bool_decide_unpack _). by vm_compute.
  - by vm_compute.
  - by vm_compute.
  - by vm_compute.
  - by vm_compute.
  - by exists false.
  - destruct H3 as [H3 H4]; [reflexivity|]. by split_and!.
Defined.

Lemma framing_no_fields_cex :
  let sent := wired (trace (_send MSG_INTERNAL (AStr <$> []) (Some 1) online)) in
  let sent' :=
    wired (trace (_send MSG_INTERNAL (AStr <$> [[0]]) (Some 1) online)) in
  sent = frame MSG_INTERNAL 1 []
  ∧ trace (process_one 6000 (set_bin sent online))
    = [Log (LogRecv MSG_INTERNAL 1 [[]]);
       Log (LogEvent (str "int_") [VList []])]
  ∧ [[]] ≠ ([] : list pystr)
  ∧ sent' = frame MSG_INTERNAL 1 [x00]
  ∧ trace (process_one 6000 (set_bin sent' online))
    = [Log (LogRecv MSG_INTERNAL 1 [[]; []]);
       Log (LogEvent (str "int_") [VList [[]]])]
  ∧ [[]; []] ≠ ([[0]] : list pystr).
Proof. by vm_compute. Qed.



Lemma heartbeat_timeout_witness :
  let late := set_clock 6000 [21001] dialled in
  let due := set_clock 6000 [21000] dialled in
  (state (world (process None late)) = DISCONNECTED
   ∧ Log LogHeartbeatTimeout ∈ trace (process None late))
  ∧ (Log LogHeartbeatTimeout ∉ trace (process None due))
  ∧ (state (world (process None due)) = state due
     ∧ trace (process None due) = [] ∧ result (process None due) = Ok tt).
Proof.
  intros late due.
  destruct (heartbeat_timeout late None) as (H1 & _); [by vm_compute|].
  destruct (heartbeat_timeout due None) as (_ & H2 & H3); [by vm_compute|].
  split_and!.
  - apply H1. by vm_compute.
  - apply H1. by vm_compute.
  - apply H2. by vm_compute.
  - apply H3; first [by vm_compute | vm_compute; lia].
  - apply H3; first [by vm_compute | vm_compute; lia].
  - apply H3; first [by vm_compute | vm_compute; lia].
Defined.

Lemma handshake_failure_witness :
  let r := process (Some (rsp_frame 1 STA_INVALID_TOKEN)) dialled in
  state (world r) = DISCONNECTED ∧ str "connected" ∉ emitted (trace r).
Proof.
  apply (handshake_failure dialled (Some (rsp_frame 1 STA_INVALID_TOKEN))
           STA_INVALID_TOKEN []).
  - by vm_compute.
  - by vm_compute.
  - by vm_compute.
  - by vm_compute.
Defined.

Lemma emit_handler_fault_witness :
  let w := world (on (str "connected") legacy_cb online) in
  let w' := world (on (str "V1") broken_cb online) in
  let kv := [(str "ping", VInt 0)] in
  (world (emit (str "connected") [] kv w) = w
   ∧ result (emit (str "connected") [] kv w) = Ok tt
   ∧ trace (emit (str "connected") [] kv w)
     = [Log (LogEvent (str "connected") []);
        Invoke (str "connected") (Call [] kv);
        Invoke (str "connected") (Call [] [])])
  ∧ (world (emit (str "V1") [VList [str "1"]] [] w') = w'
     ∧ result (emit (str "V1") [VList [str "1"]] [] w') = Exc OtherError).
Proof.
  intros w w' kv.
  destruct (emit_handler_fault (str "connected") [] kv legacy_cb w TypeError)
    as (H1 & H2 & _); [by vm_compute..|].
  destruct (emit_handler_fault (str "V1") [VList [str "1"]] [] broken_cb w'
              OtherError) as (H3 & _ & H4); [by vm_compute..|].
  destruct H2 as [H2 H2']; [done|]. destruct H4 as [H4 _]; [done|].
  by split_and!.
Defined.

Lemma emit_handler_fault_cex :
  let w := world (on (str "V1") broken_cb online) in
  callbacks w !! str "V1" = Some broken_cb
  ∧ broken_cb (Call [VList [str "1"]] []) = Raises OtherError
  ∧ result (emit (str "V1") [VList [str "1"]] [] w) = Exc OtherError
  ∧ result (emit (str "V1") [VList [str "1"]] [] w) ≠ Ok tt
  ∧ trace (emit (str "V1") [VList [str "1"]] [] w)
    = [Log (LogEvent (str "V1") [VList [str "1"]]);
       Invoke (str "V1") (Call [VList [str "1"]] [])].
Proof. by vm_compute. Qed.

Lemma send_failure_witness :
  let hdr := default [] (struct_pack MSG_HW 3 7) in
  let data :=
    default [] (utf8_encode (join NUL [str "vw"; str "1"; str "42"])) in
  let w := set_conn (Some (Socket [Accepts 3; SendFails] false)) online in
  let res := api_run (VirtualWrite (AInt 1) [AInt 42]) w in
  state (world res) = DISCONNECTED
  ∧ conn (world res) = None
  ∧ result res = Ok tt
  ∧ Log LogSocketWriteError ∈ trace res
  ∧ (∃ e, Log (LogSendError e) ∈ trace res)
  ∧ (3 < length (hdr ++ data))%nat
  ∧ wired (trace res) = take 3 (hdr ++ data).
Proof.
  intros hdr data.
  apply (send_failure_disconnects_and_returns
           (VirtualWrite (AInt 1) [AInt 42])
           (set_conn (Some (Socket [Accepts 3; SendFails] false)) online)
           [Accepts 3; SendFails] false data (AInt 7) hdr 3).
  - by vm_compute.
  - reflexivity.
  - by vm_compute.
  - by vm_compute.
  - by vm_compute.
Defined.

Lemma send_failure_cex :
  let w := set_conn (Some (Socket [SendFails] false)) online in
  let res := api_run (VirtualWrite (AInt 1) [AInt 42]) w in
  state w = CONNECTED
  ∧ state (world res) = DISCONNECTED
  ∧ result res = Ok tt
  ∧ (∀ e, result res ≠ Exc e).
Proof. by vm_compute. Qed.

Lemma api_disconnected_noop_witness :
  state fresh = DISCONNECTED
  ∧ api_run (VirtualWrite (AInt 1) [AInt 42]) fresh
    = Run fresh [Log LogWarnCannotSend] (Ok tt).
Proof.
  split; [reflexivity|]. apply api_disconnected_noop. reflexivity.
Defined.


Lemma msg_id_never_zero_witness :
  1 ≤ msg_id
        (world (exec (OpApi (Notify (AStr (str "hi"))))
           (world (exec (OpProcess (Some (rsp_frame 1 STA_SUCCESS)))
              (world (exec (OpConnect (Connects (Socket [] false)))
                 (init (AStr (str "token")) 10 1024 6000 []))))))) ≤ 0xFFFF
  ∧ result (alloc_msg_id None online) = Ok (msg_id online)
  ∧ msg_id online ≠ 0.
Proof.
  destruct msg_id_never_zero as (H1 & H2 & _).
  split.
  - apply H1. do 3 apply reach_step. apply reach_init.
  - destruct (H2 online) as (H3 & H4 & _); [by vm_compute|]. by split.
Defined.

(* ================================================================== *)
(** * Part III: further properties of the code *)
(* ================================================================== *)

(** ** Messages that reach a registered callback *)

Lemma registered (key : pystr) (f : handler) (w : Blynk) :
  callbacks (set_callbacks (<[key := f]> (callbacks w)) w) !! key = Some f.
Proof. cbn. apply lookup_insert_eq. Qed.

Lemma emit_returns evt a kv (f : handler) w :
  callbacks w !! evt = Some f → f (Call a kv) = Returns →
  emit evt a kv w = Run w [Log (LogEvent evt a); Invoke evt (Call a kv)] (Ok tt).
Proof.
  intros Hk Hf. unfold emit. rewrite bind_log, bind_gets, Hk.
  rewrite (try_run_ok _ _ w w [Invoke evt (Call a kv)] tt); [done|].
  by rewrite invoke_run, Hf.
Qed.

Lemma dispatch_vw cmd i pin_str vals :
  cmd = MSG_HW ∨ cmd = MSG_BRIDGE →
  dispatch cmd i (str "vw" :: pin_str :: vals)
  = (emit (str "V" ++ pin_str) [VList vals] [] ;;
     emit (str "V*") [VStr pin_str; VList vals] []).
Proof. intros [-> | ->]; reflexivity. Qed.

Lemma dispatch_vr cmd i pin_str vals :
  cmd = MSG_HW ∨ cmd = MSG_BRIDGE →
  dispatch cmd i (str "vr" :: pin_str :: vals)
  = (emit (str "readV" ++ pin_str) [] [] ;;
     emit (str "readV*") [VStr pin_str] []).
Proof. intros [-> | ->]; reflexivity. Qed.

(** Property X1.  After [@blynk.VIRTUAL_WRITE(pin)] has registered [f], a
    hardware (or bridge) message [vw pin v1 v2 ...] at the head of the
    receive buffer is read off the buffer and [f] is called with the list
    of the values; when [f] returns, the wildcard event [V*] follows with
    the pin and the values, and the loop goes on behind the message. *)
Theorem virtual_write_reaches_handler
    (now : Z) (w : Blynk) (pin : sarg) (f : handler) cmd i vals body rest :
  cmd = MSG_HW ∨ cmd = MSG_BRIDGE →
  1 ≤ i ≤ 65535 →
  Z.of_nat (length body) ≤ 65535 → Z.of_nat (length body) ≤ buffin w * 2 →
  decode_fields body = Some (str "vw" :: py_str pin :: vals) →
  bin w = frame cmd i body ++ rest →
  f (Call [VList vals] []) = Returns →
  let w1 := world (VIRTUAL_WRITE pin f w) in
  process_one now w1
  = prepend
      [Log (LogRecv cmd i (str "vw" :: py_str pin :: vals));
       Log (LogEvent (str "V" ++ py_str pin) [VList vals]);
       Invoke (str "V" ++ py_str pin) (Call [VList vals] [])]
      ((emit (str "V*") [VStr (py_str pin); VList vals] [] ;; ret Continue)
         (set_bin rest (set_lastRecv now w1))).
Proof.
  intros Hc Hi Hl Hb Hd Hbin Hf w1.
  assert (Hw1 : w1 = set_callbacks
                       (<[str "V" ++ py_str pin := f]> (callbacks w)) w).
  { subst w1. unfold VIRTUAL_WRITE. by rewrite bind_gets. }
  rewrite (process_one_frame now w1 cmd i body rest);
    [|destruct Hc as [-> | ->]; done..|by rewrite Hw1|by rewrite Hw1].
  rewrite Hd, bind_ret. cbv beta. rewrite bind_log, (dispatch_vw _ _ _ _ Hc).
  set (w2 := set_bin rest (set_lastRecv now w1)).
  assert (Hk : callbacks w2 !! (str "V" ++ py_str pin) = Some f).
  { subst w2. rewrite Hw1. cbn. apply lookup_insert_eq. }
  clearbody w2. rewrite bind_assoc.
  rewrite (bind_run _ _ _ _ _ _ (emit_returns _ _ _ _ _ Hk Hf)).
  by rewrite prepend_prepend.
Qed.

(** Property X2.  After [@blynk.VIRTUAL_READ(pin)] has registered [f], a
    hardware (or bridge) message [vr pin] at the head of the receive buffer
    is read off the buffer and [f] is called without arguments; when [f]
    returns, the wildcard event [readV*] follows with the pin. *)
Theorem virtual_read_reaches_handler
    (now : Z) (w : Blynk) (pin : sarg) (f : handler) cmd i vals body rest :
  cmd = MSG_HW ∨ cmd = MSG_BRIDGE →
  1 ≤ i ≤ 65535 →
  Z.of_nat (length body) ≤ 65535 → Z.of_nat (length body) ≤ buffin w * 2 →
  decode_fields body = Some (str "vr" :: py_str pin :: vals) →
  bin w = frame cmd i body ++ rest →
  f (Call [] []) = Returns →
  let w1 := world (VIRTUAL_READ pin f w) in
  process_one now w1
  = prepend
      [Log (LogRecv cmd i (str "vr" :: py_str pin :: vals));
       Log (LogEvent (str "readV" ++ py_str pin) []);
       Invoke (str "readV" ++ py_str pin) (Call [] [])]
      ((emit (str "readV*") [VStr (py_str pin)] [] ;; ret Continue)
         (set_bin rest (set_lastRecv now w1))).
Proof.
  intros Hc Hi Hl Hb Hd Hbin Hf w1.
  assert (Hw1 : w1 = set_callbacks
                       (<[str "readV" ++ py_str pin := f]> (callbacks w)) w).
  { subst w1. unfold VIRTUAL_READ. by rewrite bind_gets. }
  rewrite (process_one_frame now w1 cmd i body rest);
    [|destruct Hc as [-> | ->]; done..|by rewrite Hw1|by rewrite Hw1].
  rewrite Hd, bind_ret. cbv beta. rewrite bind_log, (dispatch_vr _ _ _ _ Hc).
  set (w2 := set_bin rest (set_lastRecv now w1)).
  assert (Hk : callbacks w2 !! (str "readV" ++ py_str pin) = Some f).
  { subst w2. rewrite Hw1. cbn. apply lookup_insert_eq. }
  clearbody w2. rewrite bind_assoc.
  rewrite (bind_run _ _ _ _ _ _ (emit_returns _ _ _ _ _ Hk Hf)).
  by rewrite prepend_prepend.
Qed.

(** Property X3.  After [@blynk.ON("int_" + name)] has registered [f], an
    internal message [name v1 v2 ...] at the head of the receive buffer is
    read off the buffer and [f] is called with the list of the values;
    when [f] returns the turn ends normally with nothing else done. *)
Theorem internal_reaches_handler
    (now : Z) (w : Blynk) (name : pystr) (f : handler) i vals body rest :
  1 ≤ i ≤ 65535 →
  Z.of_nat (length body) ≤ 65535 → Z.of_nat (length body) ≤ buffin w * 2 →
  decode_fields body = Some (name :: vals) →
  bin w = frame MSG_INTERNAL i body ++ rest →
  f (Call [VList vals] []) = Returns →
  let w1 := world (ON (str "int_" ++ name) f w) in
  process_one now w1
  = Run (set_bin rest (set_lastRecv now w1))
      [Log (LogRecv MSG_INTERNAL i (name :: vals));
       Log (LogEvent (str "int_" ++ name) [VList vals]);
       Invoke (str "int_" ++ name) (Call [VList vals] [])]
      (Ok Continue).
Proof.
  intros Hi Hl Hb Hd Hbin Hf w1.
  assert (Hw1 : w1 = set_callbacks
                       (<[str "int_" ++ name := f]> (callbacks w)) w).
  { subst w1. unfold ON. by rewrite bind_gets. }
  rewrite (process_one_frame now w1 MSG_INTERNAL i body rest);
    [|done..|by rewrite Hw1|by rewrite Hw1].
  rewrite Hd, bind_ret. cbv beta. rewrite bind_log.
  change (dispatch MSG_INTERNAL i (name :: vals))
    with (emit (str "int_" ++ name) [VList vals] []).
  set (w2 := set_bin rest (set_lastRecv now w1)).
  assert (Hk : callbacks w2 !! (str "int_" ++ name) = Some f).
  { subst w2. rewrite Hw1. cbn. apply lookup_insert_eq. }
  clearbody w2.
  by rewrite (bind_run _ _ _ _ _ _ (emit_returns _ _ _ _ _ Hk Hf)).
Qed.


(** ** What the outbound API puts on the wire *)

Lemma api_cmd_plain c :
  0 ≤ api_cmd c ≤ 255 ∧ api_cmd c ≠ MSG_RSP ∧ api_cmd c ≠ MSG_HW_LOGIN.
Proof. by destruct c. Qed.

Lemma encode_payload_plain cmd args :
  cmd ≠ MSG_RSP → cmd ≠ MSG_HW_LOGIN →
  encode_payload cmd args =
  match utf8_encode (join NUL (py_str <$> args)) with
  | Some data => PayloadOk data (AInt (Z.of_nat (length data)))
  | None => PayloadReturn (LogEncodeError cmd)
  end.
Proof.
  intros H1 H2. unfold encode_payload.
  destruct (cmd =? MSG_RSP) eqn:E1; [apply Z.eqb_eq in E1; done|].
  destruct (cmd =? MSG_HW_LOGIN) eqn:E2; [apply Z.eqb_eq in E2; done|].
  done.
Qed.

Lemma struct_pack_long cmd i n : 65535 < n → struct_pack cmd i n = None.
Proof.
  intros Hn. unfold struct_pack.
  replace (n <=? 65535) with false by (symmetry; apply Z.leb_gt; lia).
  by rewrite !andb_false_r.
Qed.

Lemma bump_id_wraps w :
  1 ≤ msg_id w ≤ 0xFFFF →
  msg_id (bump_id None w) = (if msg_id w =? 0xFFFF then 1 else msg_id w + 1).
Proof.
  intros H. cbn.
  destruct (msg_id w =? 65535) eqn:E.
  - apply Z.eqb_eq in E. by rewrite E.
  - apply Z.eqb_neq in E.
    destruct (msg_id w + 1 >? 65535) eqn:E'; [|done].
    rewrite Z.gtb_ltb in E'. apply Z.ltb_lt in E'. lia.
Qed.

(** Property X5.  On an engine that is not disconnected and whose socket
    takes every write, a call of the outbound API writes exactly one
    message: the header with the command of the call, the current value of
    the counter as id and the length of the body, then the body, which is
    the UTF-8 encoding of the arguments joined by NUL.  The counter moves
    on (from 0xFFFF to 1), the time of the last send is the clock reading,
    no event is emitted, and the state and the receive buffer are
    unchanged. *)
Theorem api_call_frame (c : api_call) (w : Blynk) (body : bytes) :
  state w ≠ DISCONNECTED → reliable w → 1 ≤ msg_id w ≤ 0xFFFF →
  utf8_encode (join NUL (py_str <$> api_args c)) = Some body →
  Z.of_nat (length body) ≤ 65535 →
  let r := api_run c w in
  result r = Ok tt
  ∧ wired (trace r) = frame (api_cmd c) (msg_id w) body
  ∧ emitted (trace r) = []
  ∧ msg_id (world r) = (if msg_id w =? 0xFFFF then 1 else msg_id w + 1)
  ∧ state (world r) = state w
  ∧ bin (world r) = bin w
  ∧ lastSend (world r) = next_time w.
Proof.
  intros Hs Hr Hm He Hl r. subst r.
  destruct (api_cmd_plain c) as (Hc & H1 & H2).
  rewrite api_run_send, send_reliable by done.
  unfold send_outcome. rewrite encode_payload_plain, He by done.
  cbn [pack_header pick_id].
  destruct (frame_pack (api_cmd c) (msg_id w) body) as (hdr & Hp & Hf & _);
    [lia..|].
  rewrite Hp, Hf. cbn [result trace world]. obs_simp.
  split_and!; try done.
  - unfold send_log. by destruct (_ =? _).
  - transitivity (msg_id (bump_id None w)); [|by apply bump_id_wraps].
    unfold tick. by destruct (clock_next _).
  - unfold tick. by destruct (clock_next _).
  - unfold tick. by destruct (clock_next _).
Qed.

(** Property X6.  When the encoded arguments of an outbound API call take
    more than 65535 bytes, [struct.pack] fails: the call raises
    [struct.error] to its caller, nothing is written, and the engine is
    unchanged but for the message id that the call has used up. *)
Theorem oversized_body_raises (c : api_call) (w : Blynk) (body : bytes) :
  state w ≠ DISCONNECTED → 1 ≤ msg_id w ≤ 0xFFFF →
  utf8_encode (join NUL (py_str <$> api_args c)) = Some body →
  65535 < Z.of_nat (length body) →
  let r := api_run c w in
  result r = Exc StructError
  ∧ wired (trace r) = []
  ∧ world r
    = set_msg_id (if msg_id w =? 0xFFFF then 1 else msg_id w + 1) w.
Proof.
  intros Hs Hm He Hl r. subst r.
  destruct (api_cmd_plain c) as (Hc & H1 & H2).
  rewrite api_run_send.
  rewrite (send_prefix _ _ _ _ (AInt (Z.of_nat (length body))) body Hs)
    by (by rewrite encode_payload_plain, He).
  cbn [pack_header].
  rewrite (struct_pack_long (api_cmd c) (pick_id None w) _ Hl).
  cbn [result trace world]. obs_simp. split_and!; [done..|].
  pose proof (bump_id_wraps w Hm) as Hb. cbn in Hb |- *. by rewrite Hb.
Qed.

(** Property X7.  When the arguments of an outbound API call cannot be
    encoded in UTF-8 (a lone surrogate), the call logs the encoding error
    and returns normally: nothing is written, and the engine is unchanged
    but for the message id that the call has used up. *)
Theorem unencodable_field_dropped (c : api_call) (w : Blynk) :
  state w ≠ DISCONNECTED → 1 ≤ msg_id w ≤ 0xFFFF →
  utf8_encode (join NUL (py_str <$> api_args c)) = None →
  api_run c w
  = Run (set_msg_id (if msg_id w =? 0xFFFF then 1 else msg_id w + 1) w)
      [Log (LogEncodeError (api_cmd c))] (Ok tt).
Proof.
  intros Hs Hm He.
  destruct (api_cmd_plain c) as (Hc & H1 & H2).
  rewrite api_run_send. unfold _send.
  rewrite bind_gets, bool_decide_eq_false_2 by done.
  rewrite (bind_run _ _ _ _ _ _ (alloc_msg_id_run None w)), prepend_nil.
  rewrite encode_payload_plain, He by done.
  pose proof (bump_id_wraps w Hm) as Hb. cbn in Hb |- *. by rewrite Hb.
Qed.

(** ** Writes taken in pieces *)

Lemma take_drop_min {A} (l : list A) (k : nat) :
  take k l ++ drop (k `min` length l) l = l.
Proof.
  destruct (Nat.le_ge_cases k (length l)) as [H|H].
  - rewrite Nat.min_l by done. apply take_drop.
  - rewrite Nat.min_r by done.
    by rewrite take_ge, drop_all, app_nil_r by done.
Qed.

Lemma send_loop_pieces fuel : ∀ data sent w script cf,
  conn w = Some (Socket script cf) → Forall takes_some script →
  (length data - sent ≤ fuel)%nat →
  ∃ script' t,
    send_loop fuel data sent w
    = Run (set_conn (Some (Socket script' cf)) w) t (Ok tt)
    ∧ wired t = drop sent data ∧ emitted t = []
    ∧ script' `suffix_of` script.
Proof.
  induction fuel as [|fuel IH]; intros data sent w script cf Hc Hs Hf.
  - exists script, []. cbn [send_loop].
    replace (sent <? length data)%nat with false
      by (symmetry; apply Nat.ltb_ge; lia).
    rewrite <-Hc, set_conn_id. split_and!; [done| |done..].
    by rewrite drop_ge by lia.
  - cbn [send_loop].
    destruct (sent <? length data)%nat eqn:E.
    2:{ apply Nat.ltb_ge in E. exists script, [].
        rewrite <-Hc, set_conn_id. split_and!; [done| |done..].
        by rewrite drop_ge by lia. }
    apply Nat.ltb_lt in E.
    assert (Hlen : length (drop sent data) = (length data - sent)%nat)
      by apply length_drop.
    destruct script as [|s0 script].
    + rewrite (bind_run _ _ _ _ _ _
                 (conn_send_reliable (drop sent data) w cf Hc)).
      replace (length (drop sent data) =? 0)%nat with false
        by (symmetry; apply Nat.eqb_neq; lia).
      destruct (IH data (sent + length (drop sent data))%nat w [] cf)
        as (s' & t & Hrun & Hw & He & Hsuf); [done|done|lia|].
      exists s', (Wire (drop sent data) :: t).
      rewrite Hrun. split_and!; [done| |done..].
      rewrite wired_cons, Hw.
      rewrite (drop_ge data (sent + length (drop sent data))) by lia.
      by rewrite app_nil_r.
    + apply Forall_cons in Hs as [[n ->] Hs].
      set (w' := set_conn (Some (Socket script cf)) w).
      assert (Hsend : conn_send (drop sent data) w
                = Run w' [Wire (take (S n) (drop sent data))]
                    (Ok (S n `min` length (drop sent data))%nat)).
      { unfold conn_send. rewrite bind_gets, Hc. cbn [send_script].
        by rewrite bind_modify, bind_tell. }
      rewrite (bind_run _ _ _ _ _ _ Hsend).
      replace (S n `min` length (drop sent data) =? 0)%nat with false
        by (symmetry; apply Nat.eqb_neq; lia).
      destruct (IH data (sent + S n `min` length (drop sent data))%nat
                  w' script cf) as (s' & t & Hrun & Hw & He & Hsuf);
        [done|done|lia|].
      exists s', (Wire (take (S n) (drop sent data)) :: t).
      rewrite Hrun. split_and!; [done| |done|by apply suffix_cons_r].
      rewrite wired_cons, Hw, <-drop_drop. apply take_drop_min.
Qed.

(** Property X8.  [_write] on a socket whose [send] calls each take at
    least one byte, in any pattern of partial writes, returns normally
    after having put exactly the given bytes on the wire, in order and
    once; the engine is unchanged apart from the socket's own progress. *)
Theorem partial_writes_complete (data : bytes) (w : Blynk) script cf :
  conn w = Some (Socket script cf) → state w ≠ DISCONNECTED →
  Forall takes_some script →
  ∃ script',
    script' `suffix_of` script
    ∧ world (_write data w) = set_conn (Some (Socket script' cf)) w
    ∧ result (_write data w) = Ok tt
    ∧ wired (trace (_write data w)) = data
    ∧ emitted (trace (_write data w)) = [].
Proof.
  intros Hc Hs Hsc.
  destruct (send_loop_pieces (length data) data 0 w script cf)
    as (s' & t & Hrun & Hw & He & Hsuf); [done|done|lia|].
  exists s'. unfold _write.
  rewrite !bind_gets, Hc, bool_decide_eq_true_2 by by eexists.
  rewrite bool_decide_eq_false_2 by done. cbn [negb orb].
  by rewrite (try_run_ok _ _ _ _ _ _ Hrun).
Qed.

(** ** Closing the connection *)

Lemma emit_contained evt a kv w :
  contained w evt (Call a kv) →
  evt ≠ str "connected" →
  ∃ t, emit evt a kv w = Run w (Log (LogEvent evt a) :: t) (Ok tt)
       ∧ silent t.
Proof.
  intros Hc He. unfold emit. rewrite bind_log, bind_gets.
  destruct (callbacks w !! evt) as [f|] eqn:Hk.
  - destruct (Hc f Hk) as [Hf|Hf].
    + rewrite (try_run_ok _ _ w w [Invoke evt (Call a kv)] tt)
        by (by rewrite invoke_run, Hf).
      by eexists.
    + rewrite (try_run_exc _ _ w w [Invoke evt (Call a kv)] TypeError)
        by (by rewrite invoke_run, Hf).
      rewrite bool_decide_eq_false_2 by done. cbn. by eexists.
  - by eexists.
Qed.

Lemma close_run w :
  ∃ t, match conn w with
       | Some s =>
           (if close_fails s then log LogSocketCloseError
            else tell SockClose ;; log LogSocketClosed) ;;
           modify (set_conn None)
       | None => ret tt
       end w = Run (set_conn None w) t (Ok tt)
       ∧ silent t.
Proof.
  destruct (conn w) as [[sc []]|] eqn:Hc.
  - by eexists.
  - by eexists.
  - exists []. by rewrite <-Hc, set_conn_id.
Qed.

Lemma disconnect_outcome (w : Blynk) :
  ∃ t r,
    disconnect w = Run (set_state DISCONNECTED (set_conn None w)) t r
    ∧ wired t = []
    ∧ emitted t
      = (if decide (state w = DISCONNECTED) then [] else [str "disconnected"])
    ∧ r ≠ NoFuel
    ∧ (contained w (str "disconnected") (Call [] []) → r = Ok tt).
Proof.
  unfold disconnect. rewrite bind_gets.
  destruct (close_run w) as (tc & Hclose & Htc1 & Htc2).
  rewrite (bind_run _ _ _ _ _ _ Hclose).
  set (w1 := set_conn None w).
  unfold protocol_disconnect. rewrite bind_gets.
  destruct (decide (state w = DISCONNECTED)) as [Hs|Hs].
  - rewrite bool_decide_eq_true_2 by done.
    unfold ret, prepend; cbn [world trace result]. rewrite app_nil_r.
    exists tc, (Ok tt). split_and!; try done.
    f_equal. subst w1.
    transitivity (set_state (state (set_conn None w)) (set_conn None w));
      [by rewrite set_state_id|].
    change (state (set_conn None w)) with (state w). by rewrite Hs.
  - rewrite bool_decide_eq_false_2 by done.
    rewrite bind_modify. cbn [negb when].
    set (w2 := set_state DISCONNECTED w1).
    destruct (emit_run (str "disconnected") [] [] w2)
      as (te & re & Hemit & [Hte1 Hte2] & Hre).
    destruct re as [[]|e|]; [| |done].
    + rewrite (bind_run _ _ _ _ _ _ Hemit).
      unfold log, tell, prepend; cbn [world trace result].
      eexists _, _. split; [done|]. obs_simp.
      by rewrite Htc1, Htc2, Hte1, Hte2.
    + rewrite (bind_run_exc _ _ _ _ _ _ Hemit).
      unfold prepend; cbn [world trace result].
      eexists _, _. split; [done|]. obs_simp.
      rewrite Htc1, Htc2, Hte1, Hte2. split_and!; try done.
      intros Hc.
      destruct (emit_contained (str "disconnected") [] [] w2)
        as (t' & Hemit' & _); [done|done|].
      by rewrite Hemit' in Hemit.
Qed.

(** Property X9.  [Blynk.disconnect] always leaves the engine disconnected
    and without a socket, every other field unchanged, whether or not
    closing the socket fails and whether or not the callback raises.  It
    writes nothing; it emits [disconnected] exactly when the engine was
    not disconnected before; it returns normally when the [disconnected]
    callback lets no exception out; and calling it again does nothing. *)
Theorem disconnect_always (w : Blynk) :
  let r := disconnect w in
  world r = set_state DISCONNECTED (set_conn None w)
  ∧ wired (trace r) = []
  ∧ emitted (trace r)
    = (if decide (state w = DISCONNECTED) then [] else [str "disconnected"])
  ∧ result r ≠ NoFuel
  ∧ (contained w (str "disconnected") (Call [] []) → result r = Ok tt)
  ∧ disconnect (world r) = Run (world r) [] (Ok tt).
Proof.
  destruct (disconnect_outcome w) as (t & r & Hrun & H1 & H2 & H3 & H4).
  cbv zeta. rewrite Hrun. cbn [world trace result]. by split_and!.
Qed.

(** ** Opening the connection *)

Lemma tick_connect_fields w :
  last_connect_attempt (tick w) = last_connect_attempt w
  ∧ connect_retry_interval (tick w) = connect_retry_interval w.
Proof. unfold tick. by destruct (clock_next w). Qed.

Lemma connect_start p w :
  state w = DISCONNECTED →
  connect p w =
  (let now := next_time w in
   if now - last_connect_attempt w <? connect_retry_interval w
   then Run (tick w) [] (Ok false)
   else
     prepend [Log LogConnecting]
       (try_except
          (match p with
           | ResolveFails e => raise e
           | SocketFails e => log LogResolved ;; raise e
           | ConnectFails s e =>
               log LogResolved ;; modify (set_conn (Some s)) ;; raise e
           | Connects s =>
               log LogResolved ;;
               modify (set_conn (Some s)) ;;
               log LogSocketConnected ;;
               protocol_connect ;;
               ret true
           end)
          (λ e,
            match e with
            | MemoryError =>
                log LogConnectMemoryError ;; disconnect ;; raise MemoryError
            | OSError => log LogConnectFailed ;; disconnect ;; ret false
            | _ => log (LogConnectUnexpected e) ;; disconnect ;; ret false
            end)
          (set_state CONNECTING
             (set_last_connect_attempt now (tick w))))).
Proof.
  intros Hs. unfold connect. rewrite bind_gets, Hs.
  rewrite bool_decide_eq_true_2 by done. cbn [negb].
  rewrite (bind_run _ _ _ _ _ _ (gettime_run w)), prepend_nil.
  rewrite !bind_gets.
  destruct (tick_connect_fields w) as [-> ->]. cbv zeta.
  destruct (_ <? _); [done|].
  by rewrite bind_modify, bind_log, bind_modify.
Qed.

(** Property X10.  [Blynk.connect] on an engine that is not disconnected
    only logs and returns [True].  On a disconnected engine, less than the
    retry interval after the last attempt, it returns [False] having done
    nothing but read the clock, and so does [run], which then returns. *)
Theorem connect_guards (p : pool_result) (rcv : recv_result) (w : Blynk) :
  (state w ≠ DISCONNECTED →
   connect p w = Run w [Log LogAlreadyConnected] (Ok true))
  ∧ (state w = DISCONNECTED →
     next_time w - last_connect_attempt w < connect_retry_interval w →
     connect p w = Run (tick w) [] (Ok false)
     ∧ run_once p rcv w = Run (tick w) [] (Ok tt)).
Proof.
  split.
  - intros Hs. unfold connect. rewrite bind_gets.
    by rewrite bool_decide_eq_false_2 by done.
  - intros Hs Ht.
    assert (Hc : connect p w = Run (tick w) [] (Ok false)).
    { rewrite connect_start by done. cbv zeta.
      by replace (_ <? _) with true by (symmetry; apply Z.ltb_lt; lia). }
    split; [done|]. unfold run_once. rewrite bind_gets.
    rewrite bool_decide_eq_true_2 by done.
    by rewrite (bind_run _ _ _ _ _ _ Hc).
Qed.

Lemma connect_cleanup (e : exn) pre (w3 : Blynk) :
  state w3 = CONNECTING →
  ∃ t r,
    prepend pre
      (match e with
       | MemoryError =>
           log LogConnectMemoryError ;; disconnect ;; raise MemoryError
       | OSError => log LogConnectFailed ;; disconnect ;; ret false
       | _ => log (LogConnectUnexpected e) ;; disconnect ;; ret false
       end w3)
    = Run (set_state DISCONNECTED (set_conn None w3)) (pre ++ t) r
    ∧ wired t = [] ∧ emitted t = [str "disconnected"]
    ∧ r ≠ NoFuel
    ∧ (contained w3 (str "disconnected") (Call [] []) →
       r = match e with MemoryError => Exc MemoryError | _ => Ok false end).
Proof.
  intros Hs.
  destruct (disconnect_outcome w3) as (t & r & Hrun & H1 & H2 & H3 & H4).
  rewrite decide_False in H2 by (by rewrite Hs).
  assert (Hgen : ∀ m (k : M bool) (rk : res bool),
            (∀ w, k w = Run w [] rk) → rk ≠ NoFuel → emitted [Log m] = [] →
            ∃ t' r',
              prepend pre ((log m ;; disconnect ;; k) w3)
              = Run (set_state DISCONNECTED (set_conn None w3)) (pre ++ t') r'
              ∧ wired t' = [] ∧ emitted t' = [str "disconnected"]
              ∧ r' ≠ NoFuel
              ∧ (contained w3 (str "disconnected") (Call [] []) → r' = rk)).
  { intros m k rk Hk Hrk Hm. rewrite bind_log.
    destruct r as [[]|e'|]; [| |done].
    - rewrite (bind_run _ _ _ _ _ _ Hrun), Hk.
      unfold prepend; cbn [world trace result].
      exists ([Log m] ++ t ++ []), rk. split; [done|].
      rewrite !emitted_app, !wired_app, Hm, H1, H2. by split_and!.
    - rewrite (bind_run_exc _ _ _ _ _ _ Hrun).
      unfold prepend; cbn [world trace result].
      exists ([Log m] ++ t), (Exc e'). split; [done|].
      rewrite !emitted_app, !wired_app, Hm, H1, H2. split_and!; try done.
      intros Hc. by specialize (H4 Hc). }
  destruct e; by apply Hgen.
Qed.

(** Property X11.  When resolving the address, creating the socket or
    connecting it raises, [Blynk.connect] leaves the engine disconnected
    and without a socket, with the time of the attempt recorded; nothing
    is written and, the state having been set to connecting first, the
    event [disconnected] is emitted once.  A [MemoryError] is raised again;
    after any other exception the call returns [False] (provided the
    [disconnected] callback lets no exception out). *)
Theorem connect_failure_cleans_up (p : pool_result) (e : exn) (w : Blynk) :
  state w = DISCONNECTED →
  connect_retry_interval w ≤ next_time w - last_connect_attempt w →
  pool_failure p = Some e →
  let r := connect p w in
  state (world r) = DISCONNECTED
  ∧ conn (world r) = None
  ∧ last_connect_attempt (world r) = next_time w
  ∧ wired (trace r) = []
  ∧ emitted (trace r) = [str "disconnected"]
  ∧ result r ≠ NoFuel
  ∧ (contained w (str "disconnected") (Call [] []) →
     result r = match e with MemoryError => Exc MemoryError | _ => Ok false end).
Proof.
  intros Hs Ht Hp r. subst r. rewrite connect_start by done. cbv zeta.
  replace (_ <? _) with false by (symmetry; apply Z.ltb_ge; lia).
  set (w3 := set_state CONNECTING _).
  assert (Hcb : callbacks w3 = callbacks w).
  { subst w3. cbn. unfold tick. by destruct (clock_next w). }
  assert (Hbody : ∃ pre w4,
    match p with
    | ResolveFails e => raise e
    | SocketFails e => log LogResolved ;; raise e
    | ConnectFails s e =>
        log LogResolved ;; modify (set_conn (Some s)) ;; raise e
    | Connects s =>
        log LogResolved ;;
        modify (set_conn (Some s)) ;;
        log LogSocketConnected ;;
        protocol_connect ;;
        ret true
    end w3 = Run w4 pre (Exc e)
    ∧ state w4 = CONNECTING ∧ callbacks w4 = callbacks w
    ∧ last_connect_attempt w4 = next_time w
    ∧ wired pre = [] ∧ emitted pre = []).
  { destruct p as [e0|e0|s e0|s]; simplify_eq/=.
    - exists [], w3. by split_and!.
    - exists [Log LogResolved], w3. by split_and!.
    - exists [Log LogResolved], (set_conn (Some s) w3). by split_and!. }
  destruct Hbody as (pre & w4 & Hbody & Hs4 & Hc4 & Hl4 & Hw4 & He4).
  rewrite (try_run_exc _ _ _ _ _ _ Hbody).
  destruct (connect_cleanup e pre w4 Hs4) as (t & r & Hrun & H1 & H2 & H3 & H4).
  rewrite Hrun. unfold prepend; cbn [world trace result].
  rewrite !emitted_app, !wired_app, Hw4, He4, H1, H2.
  split_and!; try done.
  intros Hc. apply H4. intros f Hf. apply Hc. by rewrite <-Hc4.
Qed.

Lemma protocol_connect_start (w4 : Blynk) :
  state w4 = CONNECTING →
  protocol_connect w4
  = _send MSG_HW_LOGIN [auth w4] None
      (set_bin [] (set_lastPing 0 (set_lastSend 0
         (set_lastRecv (next_time w4) (tick (set_msg_id 1 w4)))))).
Proof.
  intros Hs. unfold protocol_connect.
  rewrite bind_gets, Hs, bool_decide_eq_true_2 by done. cbn [negb when].
  rewrite bind_ret, bind_modify.
  rewrite (bind_run _ _ _ _ _ _ (gettime_run _)), prepend_nil.
  rewrite !bind_modify, bind_gets.
  do 2 f_equal. unfold tick. by destruct (clock_next _).
Qed.

Lemma login_run (w4 : Blynk) (cf : bool) token (data : bytes) :
  state w4 = CONNECTING → conn w4 = Some (Socket [] cf) →
  auth w4 = AStr token → utf8_encode token = Some data →
  Z.of_nat (length data) ≤ 65535 →
  ∃ w6 t,
    protocol_connect w4 = Run w6 t (Ok tt)
    ∧ state w6 = CONNECTING ∧ conn w6 = Some (Socket [] cf)
    ∧ msg_id w6 = 2 ∧ bin w6 = []
    ∧ last_connect_attempt w6 = last_connect_attempt w4
    ∧ wired t = frame MSG_HW_LOGIN 1 data ∧ emitted t = [].
Proof.
  intros Hs Hc Ha He Hl.
  rewrite protocol_connect_start by done. rewrite Ha.
  set (w5 := set_bin [] _).
  assert (Hl5 : last_connect_attempt w5 = last_connect_attempt w4).
  { subst w5. cbn. unfold tick. by destruct (clock_next _). }
  assert (Hs5 : state w5 = CONNECTING).
  { subst w5. cbn. unfold tick. by destruct (clock_next _). }
  assert (Hc5 : conn w5 = Some (Socket [] cf)).
  { subst w5. cbn. unfold tick. by destruct (clock_next _). }
  assert (Hm5 : msg_id w5 = 1).
  { subst w5. cbn. unfold tick. by destruct (clock_next _). }
  assert (Hb5 : bin w5 = []) by done.
  clearbody w5.
  rewrite send_reliable by (by rewrite ?Hs5; try by exists cf).
  unfold send_outcome.
  change (encode_payload MSG_HW_LOGIN [AStr token])
    with (match utf8_encode token with
          | Some data => PayloadOk data (AInt (Z.of_nat (length data)))
          | None => PayloadRaise UnicodeError
          end).
  rewrite He. cbn [pack_header pick_id]. rewrite Hm5.
  destruct (frame_pack MSG_HW_LOGIN 1 data) as (hdr & Hp & Hf & _);
    [done..|].
  rewrite Hp, Hf. eexists _, _. split; [done|].
  split_and!.
  - unfold tick. destruct (clock_next _); cbn; by rewrite Hs5.
  - unfold tick. destruct (clock_next _); cbn; by rewrite Hc5.
  - unfold tick. destruct (clock_next _); cbn; by rewrite Hm5.
  - unfold tick. destruct (clock_next _); cbn; by rewrite Hb5.
  - unfold tick. destruct (clock_next _); cbn; by rewrite Hl5.
  - by obs_simp.
  - done.
Qed.

(** Property X12.  A successful [Blynk.connect] on a disconnected engine,
    the retry interval having passed: the call returns [True], the engine
    is connecting and holds the socket, the receive buffer is empty, and
    exactly the login message has been written: command 29, id 1, the
    length of the token and the UTF-8 bytes of the token.  The counter
    stands at 2 and no event is emitted. *)
Theorem connect_sends_login (w : Blynk) (cf : bool) token (data : bytes) :
  state w = DISCONNECTED →
  connect_retry_interval w ≤ next_time w - last_connect_attempt w →
  auth w = AStr token → utf8_encode token = Some data →
  Z.of_nat (length data) ≤ 65535 →
  let r := connect (Connects (Socket [] cf)) w in
  result r = Ok true
  ∧ state (world r) = CONNECTING
  ∧ conn (world r) = Some (Socket [] cf)
  ∧ msg_id (world r) = 2
  ∧ bin (world r) = []
  ∧ last_connect_attempt (world r) = next_time w
  ∧ wired (trace r) = frame MSG_HW_LOGIN 1 data
  ∧ emitted (trace r) = [].
Proof.
  intros Hs Ht Ha He Hl r. subst r. rewrite connect_start by done. cbv zeta.
  replace (_ <? _) with false by (symmetry; apply Z.ltb_ge; lia).
  set (w3 := set_state CONNECTING _).
  set (w4 := set_conn (Some (Socket [] cf)) w3).
  assert (Ha4 : auth w4 = AStr token).
  { subst w4 w3. cbn. unfold tick. by destruct (clock_next w). }
  destruct (login_run w4 cf token data)
    as (w6 & t & Hrun & H1 & H2 & H3 & H4 & H5 & H6 & H7); [done..|].
  rewrite (try_run_ok _ _ _ w6
             ([Log LogResolved; Log LogSocketConnected] ++ t) true).
  2:{ rewrite bind_log, bind_modify, bind_log.
      fold w4. rewrite (bind_run _ _ _ _ _ _ Hrun).
      unfold prepend, ret; cbn [world trace result]. by rewrite app_nil_r. }
  unfold prepend; cbn [world trace result].
  change (Log LogConnecting :: ?l) with ([Log LogConnecting] ++ l).
  rewrite !emitted_app, !wired_app, H6, H7. by split_and!.
Qed.

(** Property X13.  With a token that is not a string, [Blynk.connect]
    opens the socket, logs that the login lacks a string token and sends
    nothing: the call still returns [True] and leaves the engine
    connecting, with the id 1 used up. *)
Theorem login_needs_string_token (w : Blynk) (s : socket) (n : Z) :
  state w = DISCONNECTED →
  connect_retry_interval w ≤ next_time w - last_connect_attempt w →
  auth w = AInt n →
  let r := connect (Connects s) w in
  result r = Ok true
  ∧ state (world r) = CONNECTING
  ∧ conn (world r) = Some s
  ∧ msg_id (world r) = 2
  ∧ trace r = [Log LogConnecting; Log LogResolved; Log LogSocketConnected;
               Log LogHwLoginNoToken].
Proof.
  intros Hs Ht Ha r. subst r. rewrite connect_start by done. cbv zeta.
  replace (_ <? _) with false by (symmetry; apply Z.ltb_ge; lia).
  set (w3 := set_state CONNECTING _).
  set (w4 := set_conn (Some s) w3).
  assert (Ha4 : auth w4 = AInt n).
  { subst w4 w3. cbn. unfold tick. by destruct (clock_next w). }
  assert (Hrun : ∃ w6, protocol_connect w4
                       = Run w6 [Log LogHwLoginNoToken] (Ok tt)
                       ∧ state w6 = CONNECTING ∧ conn w6 = Some s
                       ∧ msg_id w6 = 2).
  { rewrite protocol_connect_start by done. rewrite Ha4.
    set (w5 := set_bin [] _).
    assert (Hs5 : state w5 = CONNECTING).
    { subst w5. cbn. unfold tick. by destruct (clock_next _). }
    assert (Hc5 : conn w5 = Some s).
    { subst w5. cbn. unfold tick. by destruct (clock_next _). }
    assert (Hm5 : msg_id w5 = 1).
    { subst w5. cbn. unfold tick. by destruct (clock_next _). }
    clearbody w5. unfold _send.
    rewrite bind_gets, Hs5, bool_decide_eq_false_2 by done.
    rewrite (bind_run _ _ _ _ _ _ (alloc_msg_id_run None w5)), prepend_nil.
    change (encode_payload MSG_HW_LOGIN [AInt n])
      with (PayloadReturn LogHwLoginNoToken).
    eexists. split; [done|]. cbn. by rewrite Hm5. }
  destruct Hrun as (w6 & Hrun & H1 & H2 & H3).
  rewrite (try_run_ok _ _ _ w6
             ([Log LogResolved; Log LogSocketConnected;
               Log LogHwLoginNoToken]) true).
  2:{ rewrite bind_log, bind_modify, bind_log.
      fold w4. by rewrite (bind_run _ _ _ _ _ _ Hrun). }
  by split_and!.
Qed.

(** ** Where the receive loop stops *)

Lemma yields_bind {A B} (P : Blynk → B → Prop) (m : M A) (k : A → M B) :
  (∀ a, yields P (k a)) → yields P (bind m k).
Proof.
  intros Hk w b. unfold bind.
  destruct (m w) as [w1 t1 [a|e|]] eqn:Hm; cbn; [|done..].
  specialize (Hk a w1 b).
  destruct (k a w1) as [w2 t2 r2]; cbn in *. done.
Qed.

Lemma stopped_use (m : M ctl) pre w :
  yields stopped m → result (prepend pre (m w)) = Ok Return →
  state (world (prepend pre (m w))) = DISCONNECTED.
Proof. intros H Hr. by apply (H w Return). Qed.

Lemma stopped_raise e : yields stopped (raise e).
Proof. by intros w a. Qed.

Lemma stopped_continue : yields stopped (ret Continue).
Proof. by intros w a [= <-]. Qed.

Lemma stopped_disconnect : yields stopped (disconnect ;; ret Return).
Proof.
  intros w a _ _.
  destruct (disconnect_outcome w) as (t & r & Hrun & _).
  destruct r as [[]|e|].
  - by rewrite (bind_run _ _ _ _ _ _ Hrun).
  - by rewrite (bind_run_exc _ _ _ _ _ _ Hrun).
  - unfold bind. by rewrite Hrun.
Qed.

Ltac stopped_step :=
  lazymatch goal with
  | |- yields stopped (disconnect ;; ret Return) => apply stopped_disconnect
  | |- yields stopped (bind _ _) => apply yields_bind; intros ?
  | |- yields stopped (ret Continue) => apply stopped_continue
  | |- yields stopped (raise _) => apply stopped_raise
  | |- yields stopped (if ?b then _ else _) => destruct b
  | |- yields stopped (match ?x with _ => _ end) => destruct x
  | |- yields stopped (let _ := _ in _) => cbv zeta
  end.

Lemma stopped_login now n : yields stopped (login_response now n).
Proof. unfold login_response. repeat stopped_step. Qed.

Lemma stopped_message cmd i (body : bytes) :
  yields stopped
    (let* args :=
       match decode_fields body with
       | Some a => ret a
       | None => log LogUtf8Error ;; ret []
       end in
     log (LogRecv cmd i args) ;;
     dispatch cmd i args ;;
     ret Continue).
Proof. repeat stopped_step. Qed.

Lemma process_one_return now w :
  result (process_one now w) = Ok Return →
  state (world (process_one now w)) = DISCONNECTED
  ∨ waiting (world (process_one now w)).
Proof.
  destruct (decide (length (bin w) < 5)%nat) as [Hs|Hl].
  { rewrite process_one_short by done. intros _. right. by left. }
  assert (5 ≤ length (bin w))%nat as Hlen by lia.
  destruct (struct_unpack_take _ Hlen) as (cmd & i & n & Hhdr & Hc & Hi & Hn).
  destruct (decide (i = 0)) as [Hi0|Hi0].
  { rewrite (process_one_bad_id now w _ _ _ Hlen Hhdr Hi0).
    rewrite bind_log. intros H. left.
    by apply (stopped_use _ _ _ stopped_disconnect). }
  destruct (Z_gt_le_dec n (buffin w * 2)) as [Hbig|Hsmall].
  { rewrite (process_one_bad_len now w _ _ _ Hlen Hhdr Hi0 Hbig).
    rewrite bind_log. intros H. left.
    by apply (stopped_use _ _ _ stopped_disconnect). }
  destruct (decide (cmd = MSG_RSP)) as [Hr|Hr].
  { rewrite (process_one_rsp now w _ _ _ Hlen Hhdr Hi0 ltac:(lia) Hr).
    intros H. left. revert H. apply stopped_use.
    destruct (_ && _); [apply stopped_login|apply stopped_continue]. }
  destruct (Z_lt_le_dec (Z.of_nat (length (bin w))) (5 + n)) as [Hw|Hm].
  { rewrite (process_one_wait now w _ _ _ Hlen Hhdr Hi0 ltac:(lia) Hr Hw).
    intros _. right. right. by exists cmd, i, n. }
  rewrite (process_one_msg now w _ _ _ Hlen Hhdr Hi0 ltac:(lia) Hr Hm).
  intros H. left. by apply (stopped_message cmd i _ _ Return).
Qed.

Lemma process_loop_waits fuel now w :
  result (process_loop fuel now w) = Ok tt →
  state (world (process_loop fuel now w)) ≠ DISCONNECTED →
  waiting (world (process_loop fuel now w)).
Proof.
  revert w. induction fuel as [|fuel IH]; intros w; [done|].
  rewrite process_loop_S. unfold bind.
  pose proof (process_one_return now w) as Hret.
  destruct (process_one now w) as [w1 t1 [[]|e|]]; cbn in *; [| |done..].
  - specialize (IH w1).
    destruct (process_loop fuel now w1) as [w2 t2 r2]; cbn in *. done.
  - intros _ Hs. by destruct Hret.
Qed.

(** Property X14.  When [process] returns normally and the engine is not
    disconnected, no complete message is left in the receive buffer: the
    buffer is shorter than a header, or it starts with a valid header of a
    message whose body has not arrived in full. *)
Theorem no_complete_message_left (data : option bytes) (w : Blynk) :
  let r := process data w in
  result r = Ok tt → state (world r) ≠ DISCONNECTED → waiting (world r).
Proof.
  intros r. subst r.
  destruct (decide (state w = DISCONNECTED)) as [Hs|Hs].
  { by rewrite process_disconnected. }
  destruct (timed_out (next_time w) w) eqn:Ht.
  { rewrite process_timed_out by done.
    destruct (disconnect_outcome (tick w)) as (t & r & Hrun & _).
    rewrite Hrun. by intros _ []. }
  rewrite process_in_time by done.
  apply (yields_bind (λ w (_ : unit), state w ≠ DISCONNECTED → waiting w)).
  intros _. apply yields_bind. intros _. apply yields_bind. intros b.
  intros w' [] Hr. by apply process_loop_waits.
Qed.

(** ** Headers the loop rejects, messages it passes over *)

(** Property X15.  A header with message id 0, or with a length field
    above twice [buffin] (for a response the status is in that field, so a
    login response with status 200 is rejected when [buffin] is below
    100), makes the receive loop log the error and disconnect.  The bytes
    stay in the buffer, nothing is written, and every field other than the
    state and the socket is unchanged. *)
Theorem bad_header_disconnects (fuel : nat) (now : Z) (w : Blynk) cmd i n :
  (5 ≤ length (bin w))%nat →
  struct_unpack (take 5 (bin w)) = Some (cmd, i, n) →
  i = 0 ∨ n > buffin w * 2 →
  let r := process_loop (S fuel) now w in
  world r = set_state DISCONNECTED (set_conn None w)
  ∧ wired (trace r) = []
  ∧ (∃ t, trace r
          = Log (if decide (i = 0) then LogInvalidMsgId
                 else LogInvalidLen n (buffin w)) :: t)
  ∧ result r ≠ NoFuel.
Proof.
  intros Hlen Hhdr Hbad r. subst r.
  assert (Hone : process_one now w
            = prepend [Log (if decide (i = 0) then LogInvalidMsgId
                            else LogInvalidLen n (buffin w))]
                ((disconnect ;; ret Return) w)).
  { destruct (decide (i = 0)) as [Hi|Hi].
    - by rewrite (process_one_bad_id now w _ _ _ Hlen Hhdr Hi), bind_log.
    - destruct Hbad as [|Hn]; [done|].
      by rewrite (process_one_bad_len now w _ _ _ Hlen Hhdr Hi Hn), bind_log. }
  destruct (turn_disconnects _ _ _ fuel _ Hone) as (t & res & Hrun & [Hw _] & Hres).
  rewrite Hrun. cbn [world trace result]. split_and!; [done| |by eexists|done].
  rewrite wired_app, Hw. by destruct (decide _).
Qed.

(** Property X16.  A response message that is not the answer to the login
    (the engine is not connecting, or the id is not 1), with a status that
    passes the bound on the length field, is taken off the buffer and
    logged, the time of the last reception is updated, and nothing else
    happens. *)
Theorem response_ignored (now : Z) (w : Blynk) i status rest :
  1 ≤ i ≤ 65535 → 0 ≤ status ≤ 65535 → status ≤ buffin w * 2 →
  bin w = rsp_frame i status ++ rest →
  state w ≠ CONNECTING ∨ i ≠ 1 →
  process_one now w
  = Run (set_bin rest (set_lastRecv now w))
      [Log (LogRecvRsp MSG_RSP i status)] (Ok Continue).
Proof.
  intros Hi Hst Hb Hbin Hor.
  pose proof (rsp_frame_pack i status ltac:(lia) Hst) as Hp.
  pose proof (struct_pack_length _ _ _ _ Hp) as H5.
  assert (Hlen : (5 ≤ length (bin w))%nat).
  { rewrite Hbin, length_app. lia. }
  assert (Hhdr : struct_unpack (take 5 (bin w)) = Some (MSG_RSP, i, status)).
  { rewrite Hbin, take_header by done. by apply struct_unpack_pack. }
  rewrite (process_one_rsp now w _ _ _ Hlen Hhdr); [|lia|lia|done].
  rewrite Hbin, drop_header by done.
  replace (bool_decide (state w = CONNECTING) && (i =? 1)) with false; [done|].
  symmetry. apply andb_false_iff. destruct Hor as [H|H].
  - left. by apply bool_decide_eq_false_2.
  - right. by apply Z.eqb_neq.
Qed.

(** Property X17.  A message whose command is none of response, ping,
    hardware, bridge and internal is taken off the buffer and logged as
    ignored: no event, no write, no change of state. *)
Theorem unknown_command_ignored (now : Z) (w : Blynk) cmd i body rest :
  0 ≤ cmd ≤ 255 →
  cmd ∉ [MSG_RSP; MSG_PING; MSG_HW; MSG_BRIDGE; MSG_INTERNAL] →
  1 ≤ i ≤ 65535 →
  Z.of_nat (length body) ≤ 65535 → Z.of_nat (length body) ≤ buffin w * 2 →
  bin w = frame cmd i body ++ rest →
  process_one now w
  = Run (set_bin rest (set_lastRecv now w))
      (match decode_fields body with
       | Some _ => []
       | None => [Log LogUtf8Error]
       end
       ++ [Log (LogRecv cmd i (default [] (decode_fields body)));
           Log (LogIgnoring cmd)])
      (Ok Continue).
Proof.
  intros Hc Hnot Hi Hl Hb Hbin.
  repeat (apply not_elem_of_cons in Hnot as [? Hnot]).
  rewrite (process_one_frame now w cmd i body rest) by done.
  assert (Hd : ∀ args, dispatch cmd i args = log (LogIgnoring cmd)).
  { intros args. unfold dispatch.
    repeat match goal with
    | H : cmd ≠ ?c |- context [cmd =? ?c] =>
        rewrite (proj2 (Z.eqb_neq cmd c) H)
    end. done. }
  destruct (decode_fields body) as [args|]; cbn [default].
  - by rewrite bind_ret, bind_log, Hd, bind_log.
  - by rewrite bind_assoc, bind_log, bind_ret, bind_log, Hd, bind_log.
Qed.

(** ** The ping of an idle connection *)


(** ** What no operation changes *)

Section Configured.
Variable c : gmap pystr handler * Z * Z * sarg * Z.

Lemma cfg_gettime : keeps (configured c) gettime.
Proof. unfold gettime. mid_tac. Qed.

Lemma cfg_emit evt a kv : keeps (configured c) (emit evt a kv).
Proof. unfold emit, invoke. mid_tac. Qed.

Lemma cfg_disconnect : keeps (configured c) disconnect.
Proof.
  pose proof cfg_emit. unfold disconnect, protocol_disconnect. mid_tac.
Qed.

Lemma cfg_send_loop fuel data n : keeps (configured c) (send_loop fuel data n).
Proof.
  revert n. induction fuel as [|fuel IH]; intros n; cbn [send_loop];
    unfold conn_send; mid_tac.
Qed.

Lemma cfg_write data : keeps (configured c) (_write data).
Proof.
  pose proof cfg_disconnect. pose proof cfg_send_loop.
  unfold _write. mid_tac.
Qed.

Lemma cfg_send cmd args idk : keeps (configured c) (_send cmd args idk).
Proof.
  pose proof cfg_gettime. pose proof cfg_write. pose proof cfg_disconnect.
  unfold _send, alloc_msg_id. mid_tac.
Qed.

Lemma cfg_dispatch cmd i args : keeps (configured c) (dispatch cmd i args).
Proof. pose proof cfg_send. pose proof cfg_emit. unfold dispatch. mid_tac. Qed.

Lemma cfg_login_response now st :
  keeps (configured c) (login_response now st).
Proof.
  pose proof cfg_send. pose proof cfg_emit. pose proof cfg_disconnect.
  unfold login_response. mid_tac.
Qed.

Lemma cfg_process_one now : keeps (configured c) (process_one now).
Proof.
  pose proof cfg_dispatch. pose proof cfg_login_response.
  pose proof cfg_disconnect. unfold process_one. mid_tac.
Qed.

Lemma cfg_process_loop fuel now : keeps (configured c) (process_loop fuel now).
Proof.
  pose proof cfg_process_one.
  induction fuel as [|fuel IH]; cbn [process_loop]; mid_tac.
Qed.

Lemma cfg_process data : keeps (configured c) (process data).
Proof.
  pose proof cfg_process_loop. pose proof cfg_send. pose proof cfg_gettime.
  pose proof cfg_disconnect.
  unfold process, send_ping, append_data. mid_tac.
Qed.

Lemma cfg_protocol_connect : keeps (configured c) protocol_connect.
Proof.
  pose proof cfg_send. pose proof cfg_gettime.
  unfold protocol_connect. mid_tac.
Qed.

Lemma cfg_connect p : keeps (configured c) (connect p).
Proof.
  pose proof cfg_protocol_connect. pose proof cfg_gettime.
  pose proof cfg_disconnect. unfold connect. mid_tac.
Qed.

Lemma cfg_run_once p rcv : keeps (configured c) (run_once p rcv).
Proof.
  pose proof cfg_connect. pose proof cfg_process. pose proof cfg_disconnect.
  unfold run_once. mid_tac.
Qed.
End Configured.

Lemma config_fields (w w' : Blynk) :
  config w' = config w →
  heartbeat w' = heartbeat w ∧ buffin w' = buffin w ∧ auth w' = auth w
  ∧ connect_retry_interval w' = connect_retry_interval w
  ∧ callbacks w' = callbacks w.
Proof. unfold config. by intros [= -> -> -> -> ->]. Qed.

(** Property X19.  No operation changes the heartbeat, the buffer size,
    the token or the retry interval, and none but [on] changes the
    registered callbacks; [on] replaces the callback of its key and keeps
    all the others. *)
Theorem configuration_is_stable (o : op) (w : Blynk) :
  let w' := world (exec o w) in
  heartbeat w' = heartbeat w ∧ buffin w' = buffin w ∧ auth w' = auth w
  ∧ connect_retry_interval w' = connect_retry_interval w
  ∧ callbacks w'
    = match o with
      | OpOn evt f => <[evt := f]> (callbacks w)
      | _ => callbacks w
      end.
Proof.
  intros w'. subst w'.
  assert (Hk : ∀ m : M unit, keeps (configured (config w)) m →
            config (world (m w)) = config w).
  { intros m Hm. by apply Hm. }
  assert (Hc : (∀ evt f, o ≠ OpOn evt f) →
            config (world (exec o w)) = config w).
  { intros Hno. apply Hk.
    pose proof (cfg_connect (config w)). pose proof (cfg_process (config w)).
    pose proof (cfg_disconnect (config w)).
    pose proof (cfg_run_once (config w)). pose proof (cfg_send (config w)).
    destruct o; cbn [exec]; try rewrite api_run_send; mid_tac.
    by destruct (Hno evt func). }
  destruct o; [done|..];
    (apply config_fields, Hc; intros ? ? ?; discriminate).
Qed.

(** ** The socket and the state go together *)

Lemma follows_refl w : follows w w.
Proof. by right. Qed.

Lemma follows_trans w1 w2 w3 : follows w1 w2 → follows w2 w3 → follows w1 w3.
Proof.
  intros [[H1 H2]|[H1 H2]] [[H3 H4]|[H3 H4]]; [by left|..|by left|].
  - left. split; [by apply H3|by apply H4].
  - right. split; [by rewrite H3|by rewrite H4].
Qed.

Lemma follows_tidy w w' : tidy w → follows w w' → tidy w'.
Proof.
  unfold tidy. intros Ht [[H1 H2]|[H1 H2]]; [done|].
  by rewrite H1, H2.
Qed.

Section Moves.
Context {A B : Type}.

Lemma moves_bind (m : M A) (k : A → M B) :
  moves m → (∀ a, moves (k a)) → moves (bind m k).
Proof.
  intros Hm Hk w. unfold bind. specialize (Hm w).
  destruct (m w) as [w1 t1 [a| |]]; cbn in *; [|done..].
  specialize (Hk a w1). destruct (k a w1) as [w2 t2 r2]; cbn in *.
  by eapply follows_trans.
Qed.

Lemma moves_try (m : M A) h :
  moves m → (∀ e, moves (h e)) → moves (try_except m h).
Proof.
  intros Hm Hh w. unfold try_except. specialize (Hm w).
  destruct (m w) as [w1 t1 [a|e|]]; cbn in *; [done| |done].
  specialize (Hh e w1). destruct (h e w1) as [w2 t2 r2]; cbn in *.
  by eapply follows_trans.
Qed.

Lemma moves_ret (a : A) : moves (ret a).
Proof. intros w. apply follows_refl. Qed.

Lemma moves_raise e : moves (raise e : M A).
Proof. intros w. apply follows_refl. Qed.

Lemma moves_fuel : moves (out_of_fuel : M A).
Proof. intros w. apply follows_refl. Qed.

Lemma moves_gets (f : Blynk → A) : moves (gets f).
Proof. intros w. apply follows_refl. Qed.
End Moves.

Lemma moves_modify f : (∀ w, follows w (f w)) → moves (modify f).
Proof. intros Hf w. apply Hf. Qed.

Lemma moves_tell e : moves (tell e).
Proof. intros w. apply follows_refl. Qed.

Lemma moves_log m : moves (log m).
Proof. intros w. apply follows_refl. Qed.

Lemma moves_when b m : moves m → moves (when b m).
Proof. destruct b; [done|]. intros _. apply moves_ret. Qed.

Create HintDb moves discriminated.

Ltac moves_step :=
  lazymatch goal with
  | |- moves (bind _ _) => apply moves_bind; [|intros ?]
  | |- moves (ret _) => apply moves_ret
  | |- moves (raise _) => apply moves_raise
  | |- moves out_of_fuel => apply moves_fuel
  | |- moves (gets _) => apply moves_gets
  | |- moves (modify _) =>
      apply moves_modify; intros ?; right; split; reflexivity
  | |- moves (tell _) => apply moves_tell
  | |- moves (log _) => apply moves_log
  | |- moves (try_except _ _) => apply moves_try; [|intros ?]
  | |- moves (when _ _) => apply moves_when
  | |- moves (if ?b then _ else _) => destruct b
  | |- moves (match ?x with _ => _ end) => destruct x
  | |- moves (let _ := _ in _) => cbv zeta
  | |- moves _ => solve [eauto with moves]
  end.
Ltac moves_tac := repeat moves_step.

Lemma moves_gettime : moves gettime.
Proof. unfold gettime. moves_tac. Qed.

Lemma moves_emit evt a kv : moves (emit evt a kv).
Proof. unfold emit, invoke. moves_tac. Qed.

Lemma moves_disconnect : moves disconnect.
Proof.
  intros w. destruct (disconnect_outcome w) as (t & r & -> & _). by left.
Qed.

Lemma moves_conn_send chunk : moves (conn_send chunk).
Proof.
  intros w. unfold conn_send. rewrite bind_gets.
  destruct (conn w) as [[[|[n|] r] cf]|] eqn:Hc; cbn; right; by rewrite ?Hc.
Qed.

#[global] Hint Resolve moves_gettime moves_emit moves_disconnect
  moves_conn_send : moves.

Lemma moves_send_loop fuel data n : moves (send_loop fuel data n).
Proof.
  revert n. induction fuel as [|fuel IH]; intros n; cbn [send_loop];
    moves_tac.
Qed.
#[global] Hint Resolve moves_send_loop : moves.

Lemma moves_write data : moves (_write data).
Proof. unfold _write. moves_tac. Qed.
#[global] Hint Resolve moves_write : moves.

Lemma moves_send cmd args idk : moves (_send cmd args idk).
Proof. unfold _send, alloc_msg_id. moves_tac. Qed.
#[global] Hint Resolve moves_send : moves.

Lemma moves_dispatch cmd i args : moves (dispatch cmd i args).
Proof. unfold dispatch. moves_tac. Qed.
#[global] Hint Resolve moves_dispatch : moves.

Lemma follows_prepend {A} (m : M A) pre w0 w :
  follows w0 (world (m w)) → follows w0 (world (prepend pre (m w))).
Proof. done. Qed.

Lemma login_follows now n w :
  state w = CONNECTING → follows w (world (login_response now n w)).
Proof.
  intros Hs. unfold login_response. destruct (n =? STA_SUCCESS).
  - rewrite bind_modify.
    apply (follows_trans _ (set_state CONNECTED w)).
    + right. split; [|done]. cbn. by rewrite Hs.
    + generalize (set_state CONNECTED w).
      change (moves (let* ls := gets lastSend in
                let connect_time := now - ls in
                let* hb := gets heartbeat in
                let* bf := gets buffin in
                _send MSG_INTERNAL (client_info hb bf) None ;;
                log LogConnOK ;;
                emit (str "connected") [] [(str "ping", VInt connect_time)] ;;
                ret Continue)).
      moves_tac.
  - revert w Hs.
    change (∀ w, state w = CONNECTING →
              follows w (world ((log (LogConnFailed n) ;;
                when (n =? STA_INVALID_TOKEN)
                  (tell (Print "!!! ERROR: Invalid Blynk auth token !!!")) ;;
                disconnect ;; ret Return) w))).
    intros w _. revert w. change (moves (log (LogConnFailed n) ;;
                when (n =? STA_INVALID_TOKEN)
                  (tell (Print "!!! ERROR: Invalid Blynk auth token !!!")) ;;
                disconnect ;; ret Return)).
    moves_tac.
Qed.

Lemma moves_process_one now : moves (process_one now).
Proof.
  intros w.
  destruct (decide (length (bin w) < 5)%nat) as [Hs|Hl].
  { rewrite process_one_short by done. apply follows_refl. }
  assert (5 ≤ length (bin w))%nat as Hlen by lia.
  destruct (struct_unpack_take _ Hlen) as (cmd & i & n & Hhdr & Hc & Hi & Hn).
  destruct (decide (i = 0)) as [Hi0|Hi0].
  { rewrite (process_one_bad_id now w _ _ _ Hlen Hhdr Hi0).
    revert w Hl Hlen Hhdr.
    assert (moves (log LogInvalidMsgId ;; disconnect ;; ret Return)) as H
      by moves_tac.
    intros w _ _ _. apply H. }
  destruct (Z_gt_le_dec n (buffin w * 2)) as [Hbig|Hsmall].
  { rewrite (process_one_bad_len now w _ _ _ Hlen Hhdr Hi0 Hbig).
    assert (∀ m, moves (log m ;; disconnect ;; ret Return)) as H
      by (intros m; moves_tac).
    apply H. }
  destruct (decide (cmd = MSG_RSP)) as [Hr|Hr].
  { rewrite (process_one_rsp now w _ _ _ Hlen Hhdr Hi0 ltac:(lia) Hr).
    apply follows_prepend.
    set (w' := set_bin _ _).
    apply (follows_trans _ w'); [by right|].
    destruct (bool_decide (state w = CONNECTING)) eqn:E; cbn [andb].
    - apply bool_decide_eq_true_1 in E.
      destruct (i =? 1); [by apply login_follows|apply follows_refl].
    - apply follows_refl. }
  destruct (Z_lt_le_dec (Z.of_nat (length (bin w))) (5 + n)) as [Hw|Hm].
  { rewrite (process_one_wait now w _ _ _ Hlen Hhdr Hi0 ltac:(lia) Hr Hw).
    by right. }
  rewrite (process_one_msg now w _ _ _ Hlen Hhdr Hi0 ltac:(lia) Hr Hm).
  set (w' := set_bin _ _).
  apply (follows_trans _ w'); [by right|].
  generalize w'.
  change (moves (let* args :=
                   match decode_fields (take (Z.to_nat n) (drop 5 (bin w))) with
                   | Some a => ret a
                   | None => log LogUtf8Error ;; ret []
                   end in
                 log (LogRecv cmd i args) ;;
                 dispatch cmd i args ;;
                 ret Continue)).
  moves_tac.
Qed.
#[global] Hint Resolve moves_process_one : moves.

Lemma moves_process_loop fuel now : moves (process_loop fuel now).
Proof. induction fuel as [|fuel IH]; cbn [process_loop]; moves_tac. Qed.
#[global] Hint Resolve moves_process_loop : moves.

Lemma moves_process data : moves (process data).
Proof. unfold process, send_ping, append_data. moves_tac. Qed.
#[global] Hint Resolve moves_process : moves.

Lemma down_after_disconnect {A} (m : log_msg) (k : M A) w :
  (∀ w', world (k w') = w') →
  state (world ((log m ;; disconnect ;; k) w)) = DISCONNECTED
  ∧ conn (world ((log m ;; disconnect ;; k) w)) = None.
Proof.
  intros Hk. rewrite bind_log.
  destruct (disconnect_outcome w) as (t & r & Hrun & _).
  destruct r as [[]|e|].
  - rewrite (bind_run _ _ _ _ _ _ Hrun). cbn [prepend world].
    by rewrite Hk.
  - by rewrite (bind_run_exc _ _ _ _ _ _ Hrun).
  - unfold bind. by rewrite Hrun.
Qed.

Lemma try_world {A} (m : M A) h w :
  world (try_except m h w)
  = match result (m w) with
    | Exc e => world (h e (world (m w)))
    | _ => world (m w)
    end.
Proof.
  unfold try_except. destruct (m w) as [w1 t1 [a|e|]]; cbn; try done.
Qed.

Lemma bind_world {A B} (m : M A) (k : A → M B) w :
  world (bind m k w)
  = match result (m w) with
    | Ok a => world (k a (world (m w)))
    | _ => world (m w)
    end.
Proof.
  unfold bind. destruct (m w) as [w1 t1 [a|e|]]; cbn; try done.
Qed.

Lemma connect_tidy p w : tidy w → tidy (world (connect p w)).
Proof.
  intros Ht.
  destruct (decide (state w = DISCONNECTED)) as [Hs|Hs].
  2:{ unfold connect. rewrite bind_gets.
      by rewrite bool_decide_eq_false_2 by done. }
  rewrite connect_start by done. cbv zeta.
  destruct (_ <? _).
  { unfold tidy. cbn [world]. by rewrite tick_state, tick_conn. }
  set (w3 := set_state CONNECTING _). cbn [prepend world].
  assert (Hdown : ∀ e w',
    tidy (world (match e with
                 | MemoryError =>
                     log LogConnectMemoryError ;; disconnect ;;
                     raise MemoryError
                 | OSError => log LogConnectFailed ;; disconnect ;; ret false
                 | _ => log (LogConnectUnexpected e) ;; disconnect ;; ret false
                 end w'))).
  { intros e w'. unfold tidy.
    destruct e;
      match goal with
      | |- context [world ((log ?m ;; disconnect ;; ?k) w')] =>
          destruct (down_after_disconnect m k w') as [-> ->]; done
      end. }
  rewrite try_world.
  destruct p as [e|e|s e|s].
  - cbn [raise world trace result]. apply Hdown.
  - rewrite bind_log. cbn [raise prepend world trace result]. apply Hdown.
  - rewrite bind_log, bind_modify. cbn [raise prepend world trace result].
    apply Hdown.
  - rewrite bind_log, bind_modify, bind_log.
    set (w4 := set_conn (Some s) w3).
    cbn [prepend world result]. rewrite bind_world.
    assert (Hr : ∀ r : run unit,
              result (bind (λ _, r) (λ _, ret true) w4)
              = match result r with
                | Ok _ => Ok true | Exc e => Exc e | NoFuel => NoFuel
                end).
    { intros [w' t' [[]|e|]]; done. }
    pose proof (Hr (protocol_connect w4)) as Hres. cbv beta in Hres.
    change (bind (λ _ : Blynk, protocol_connect w4) (λ _, ret true) w4)
      with (bind protocol_connect (λ _, ret true) w4) in Hres.
    rewrite Hres. clear Hr Hres.
    pose proof (moves_send MSG_HW_LOGIN [auth w4] None) as Hmv.
    rewrite protocol_connect_start by done.
    set (w5 := set_bin [] _) in *.
    assert (Ht5 : tidy w5).
    { subst w5. unfold tidy. cbn. unfold tick. by destruct (clock_next _). }
    specialize (Hmv w5). apply (follows_tidy _ _ Ht5) in Hmv.
    destruct (_send MSG_HW_LOGIN [auth w4] None w5) as [w6 t6 [[]|e|]];
      cbn [world trace result] in *; [done|apply Hdown|done].
Qed.

Lemma run_once_tidy p rcv w : tidy w → tidy (world (run_once p rcv w)).
Proof.
  intros Ht. unfold run_once. rewrite bind_gets.
  destruct (bool_decide (state w = DISCONNECTED)).
  - rewrite bind_world.
    pose proof (connect_tidy p w Ht).
    by destruct (result (connect p w)).
  - apply (follows_tidy w); [done|]. revert w Ht. 
    change (∀ w, tidy w → follows w (world (
      (let* stop :=
         try_except
           (process None ;;
            let* st := gets state in ret (bool_decide (st = DISCONNECTED)))
           (λ e, log (LogProtocolError e) ;; disconnect ;; ret true) in
       if stop : bool then ret tt
       else
         let* c := gets conn in
         let* bf := gets buffin in
         let* data_received :=
           match c with
           | None => ret None
           | Some _ =>
               match rcv with
               | RecvBytes d => ret (Some (take (Z.to_nat bf) d))
               | RecvAgain => ret None
               | RecvFails => log LogSocketReadError ;; disconnect ;; ret None
               | RecvRaises OSError =>
                   log LogSocketReadError ;; disconnect ;; ret None
               | RecvRaises e =>
                   log (LogRecvUnexpected e) ;; disconnect ;; ret None
               end
           end in
         match data_received with
         | None => ret tt
         | Some [] => ret tt
         | Some d =>
             try_except (process (Some d))
               (λ e, log (LogProcessError e) ;; disconnect)
         end) w))).
    intros w _. revert w.
    match goal with |- ∀ w, follows w (world (?m w)) => change (moves m) end.
    moves_tac.
Qed.

Lemma exec_tidy o w : tidy w → tidy (world (exec o w)).
Proof.
  intros Ht. destruct o as [evt f|p| |data|p rcv|c|t r]; cbn [exec].
  - done.
  - rewrite bind_world. pose proof (connect_tidy p w Ht).
    by destruct (result (connect p w)).
  - by apply (follows_tidy w), moves_disconnect.
  - by apply (follows_tidy w), moves_process.
  - by apply run_once_tidy.
  - rewrite api_run_send. by apply (follows_tidy w), moves_send.
  - done.
Qed.

(** Property X20.  In every state a program can reach from a new engine,
    the engine holds a socket exactly when it is not disconnected; every
    operation preserves this. *)
Theorem socket_held_iff_connected :
  (∀ w, reachable w → (state w = DISCONNECTED ↔ conn w = None))
  ∧ (∀ o w, (state w = DISCONNECTED ↔ conn w = None) →
       let w' := world (exec o w) in
       state w' = DISCONNECTED ↔ conn w' = None).
Proof.
  split; [|intros o w; apply exec_tidy].
  induction 1 as [|w o _ IH]; [done|]. by apply exec_tidy.
Qed.

(** ** What [run] lets out *)

Lemma keeps_callbacks {A} (m : M A) w :
  (∀ c, keeps (configured c) m) → callbacks (world (m w)) = callbacks w.
Proof.
  intros Hk. specialize (Hk (config w) w eq_refl).
  by apply config_fields in Hk as (_ & _ & _ & _ & ?).
Qed.

Section Calm.
Variable cbs : gmap pystr handler.
Hypothesis Hcbs : ∀ f : handler, cbs !! str "disconnected" = Some f →
  f (Call [] []) = Returns ∨ f (Call [] []) = Raises TypeError.

Lemma calm_sound {A} (m : M A) : calm cbs m → sound cbs m.
Proof.
  intros Hm w Hw. destruct (Hm w Hw) as [[a Ha] Hc]. by rewrite Ha.
Qed.

Lemma sound_bind {A B} (m : M A) (k : A → M B) :
  sound cbs m → (∀ a, sound cbs (k a)) → sound cbs (bind m k).
Proof.
  intros Hm Hk w Hw. unfold bind. destruct (Hm w Hw) as [Hr Hc].
  destruct (m w) as [w1 t1 [a|e|]]; cbn in *; [|done..].
  destruct (Hk a w1 Hc) as [Hr' Hc'].
  by destruct (k a w1) as [w2 t2 r2].
Qed.

Lemma calm_bind {A B} (m : M A) (k : A → M B) :
  calm cbs m → (∀ a, calm cbs (k a)) → calm cbs (bind m k).
Proof.
  intros Hm Hk w Hw. unfold bind. destruct (Hm w Hw) as [[a Hr] Hc].
  destruct (m w) as [w1 t1 r1]; cbn in *. subst r1.
  destruct (Hk a w1 Hc) as [[b Hr'] Hc'].
  destruct (k a w1) as [w2 t2 r2]; cbn in *. by eauto.
Qed.

Lemma calm_try {A} (m : M A) h :
  sound cbs m → (∀ e, calm cbs (h e)) → calm cbs (try_except m h).
Proof.
  intros Hm Hh w Hw. unfold try_except. destruct (Hm w Hw) as [Hr Hc].
  destruct (m w) as [w1 t1 [a|e|]]; cbn in *; [by eauto| |done].
  destruct (Hh e w1 Hc) as [[b Hr'] Hc'].
  destruct (h e w1) as [w2 t2 r2]; cbn in *. by eauto.
Qed.

Lemma calm_ret {A} (a : A) : calm cbs (ret a).
Proof. intros w Hw. by eauto. Qed.

Lemma calm_gets {A} (f : Blynk → A) : calm cbs (gets f).
Proof. intros w Hw. by eauto. Qed.

Lemma calm_log m : calm cbs (log m).
Proof. intros w Hw. by eauto. Qed.

Lemma calm_disconnect : calm cbs disconnect.
Proof.
  intros w Hw.
  destruct (disconnect_outcome w) as (t & r & -> & _ & _ & _ & Hok).
  cbn. split; [|done]. exists tt. apply Hok.
  intros f Hf. apply Hcbs. by rewrite <-Hw.
Qed.

Lemma sound_process data : sound cbs (process data).
Proof.
  intros w Hw. split; [apply process_total|].
  rewrite <-Hw. apply keeps_callbacks. intros c. apply cfg_process.
Qed.

Lemma sound_connect_body p :
  sound cbs
    (match p with
     | ResolveFails e => raise e
     | SocketFails e => log LogResolved ;; raise e
     | ConnectFails s e =>
         log LogResolved ;; modify (set_conn (Some s)) ;; raise e
     | Connects s =>
         log LogResolved ;;
         modify (set_conn (Some s)) ;;
         log LogSocketConnected ;;
         protocol_connect ;;
         ret true
     end).
Proof.
  intros w Hw. split.
  - assert (tame protocol_connect) as Hp
      by (unfold protocol_connect; tame_tac).
    match goal with |- result (?m w) ≠ _ => assert (tame m) as Ht end.
    { destruct p; tame_tac; exact Hp. }
    apply Ht.
  - rewrite <-Hw. apply keeps_callbacks. intros c.
    pose proof (cfg_protocol_connect c). destruct p; mid_tac.
Qed.

Ltac calm_step :=
  lazymatch goal with
  | |- calm _ (bind _ _) => apply calm_bind; [|intros ?]
  | |- calm _ (ret _) => apply calm_ret
  | |- calm _ (gets _) => apply calm_gets
  | |- calm _ (log _) => apply calm_log
  | |- calm _ disconnect => apply calm_disconnect
  | |- calm _ (try_except _ _) => apply calm_try; [|intros ?]
  | |- calm _ (if ?b then _ else _) => destruct b
  | |- calm _ (match ?x with _ => _ end) => destruct x
  end.

Lemma calm_poll rcv :
  calm cbs
    (let* stop :=
       try_except
         (process None ;;
          let* st := gets state in ret (bool_decide (st = DISCONNECTED)))
         (λ e, log (LogProtocolError e) ;; disconnect ;; ret true) in
     if stop : bool then ret tt
     else
       let* c := gets conn in
       let* bf := gets buffin in
       let* data_received :=
         match c with
         | None => ret None
         | Some _ =>
             match rcv with
             | RecvBytes d => ret (Some (take (Z.to_nat bf) d))
             | RecvAgain => ret None
             | RecvFails => log LogSocketReadError ;; disconnect ;; ret None
             | RecvRaises OSError =>
                 log LogSocketReadError ;; disconnect ;; ret None
             | RecvRaises e =>
                 log (LogRecvUnexpected e) ;; disconnect ;; ret None
             end
         end in
       match data_received with
       | None => ret tt
       | Some [] => ret tt
       | Some d =>
           try_except (process (Some d))
             (λ e, log (LogProcessError e) ;; disconnect)
       end).
Proof.
  repeat calm_step; try apply sound_process.
  apply sound_bind; [apply sound_process|intros []].
  apply calm_sound. repeat calm_step.
Qed.

Lemma try_result {A} (m : M A) h w :
  result (try_except m h w)
  = match result (m w) with
    | Ok a => Ok a
    | Exc e => result (h e (world (m w)))
    | NoFuel => NoFuel
    end.
Proof. unfold try_except. by destruct (m w) as [w1 t1 [a|e|]]. Qed.

Lemma connect_result p w :
  callbacks w = cbs →
  (∃ b, result (connect p w) = Ok b) ∨ result (connect p w) = Exc MemoryError.
Proof.
  intros Hw.
  destruct (decide (state w = DISCONNECTED)) as [Hs|Hs].
  2:{ left. exists true. unfold connect. rewrite bind_gets.
      by rewrite bool_decide_eq_false_2 by done. }
  rewrite connect_start by done. cbv zeta.
  destruct (_ <? _); [left; by exists false|].
  set (w3 := set_state CONNECTING _). cbn [prepend result].
  assert (Hw3 : callbacks w3 = cbs).
  { subst w3. cbn. rewrite <-Hw. unfold tick. by destruct (clock_next w). }
  rewrite try_result.
  destruct (sound_connect_body p w3 Hw3) as [Hr Hc].
  match type of Hr with result ?x ≠ _ => set (rb := x) in * end.
  destruct (result rb) as [b|e|] eqn:Eb; [left; by exists b| |done].
  set (w4 := world rb) in *. clearbody w4.
  assert (Hd : calm cbs disconnect) by apply calm_disconnect.
  destruct e;
    try (left;
         match goal with
         | |- ∃ b, result (?m w4) = _ =>
             assert (calm cbs m) as Hm by repeat calm_step;
             by destruct (Hm w4 Hc) as [? _]
         end).
  right. rewrite bind_log.
  destruct (Hd w4 Hc) as [[[] Hb] _].
  destruct (disconnect w4) as [w5 t5 r5] eqn:E. cbn in Hb. subst r5.
  by rewrite (bind_run _ _ _ _ _ _ E).
Qed.
End Calm.

(** Property X21.  Provided the [disconnected] callback lets no exception
    out, [run] returns normally whatever the socket, the server and the
    other callbacks do; the one exception is a [MemoryError], which only a
    connection attempt of a disconnected engine lets through. *)
Theorem run_contains_exceptions (p : pool_result) (rcv : recv_result)
    (w : Blynk) :
  contained w (str "disconnected") (Call [] []) →
  let r := run_once p rcv w in
  result r = Ok tt
  ∨ (state w = DISCONNECTED ∧ result r = Exc MemoryError).
Proof.
  intros Hc r. subst r. unfold run_once. rewrite bind_gets.
  destruct (decide (state w = DISCONNECTED)) as [Hs|Hs].
  - rewrite bool_decide_eq_true_2 by done.
    destruct (connect_result (callbacks w) Hc p w eq_refl) as [[b Hb]|He].
    + left. unfold bind. by destruct (connect p w) as [w1 t1 []]; simplify_eq/=.
    + right. split; [done|]. unfold bind.
      by destruct (connect p w) as [w1 t1 []]; simplify_eq/=.
  - rewrite bool_decide_eq_false_2 by done. left.
    destruct (calm_poll (callbacks w) Hc rcv w eq_refl) as [[[] Hr] _].
    done.
Qed.

(** ** A callback that fails inside [process] *)

Lemma emit_raises evt a kv (f : handler) e w :
  callbacks w !! evt = Some f → f (Call a kv) = Raises e → e ≠ TypeError →
  emit evt a kv w
  = Run w [Log (LogEvent evt a); Invoke evt (Call a kv)] (Exc e).
Proof.
  intros Hk Hf He. unfold emit. rewrite bind_log, bind_gets, Hk.
  rewrite (try_run_exc _ _ w w [Invoke evt (Call a kv)] e)
    by (by rewrite invoke_run, Hf).
  by destruct e.
Qed.

(** Property X22.  When the callback of a virtual pin raises an exception
    other than [TypeError] on a [vw] message, the exception leaves
    [process]: the message is already off the buffer, the wildcard event
    is not emitted, the rest of the buffer is not processed, and the state
    is unchanged. *)
Theorem handler_exception_propagates
    (now : Z) (w : Blynk) (f : handler) e cmd i pin vals body rest :
  cmd = MSG_HW ∨ cmd = MSG_BRIDGE →
  1 ≤ i ≤ 65535 →
  Z.of_nat (length body) ≤ 65535 → Z.of_nat (length body) ≤ buffin w * 2 →
  decode_fields body = Some (str "vw" :: pin :: vals) →
  bin w = frame cmd i body ++ rest →
  callbacks w !! (str "V" ++ pin) = Some f →
  f (Call [VList vals] []) = Raises e → e ≠ TypeError →
  ∀ fuel,
    process_loop (S fuel) now w
    = Run (set_bin rest (set_lastRecv now w))
        [Log (LogRecv cmd i (str "vw" :: pin :: vals));
         Log (LogEvent (str "V" ++ pin) [VList vals]);
         Invoke (str "V" ++ pin) (Call [VList vals] [])]
        (Exc e).
Proof.
  intros Hc Hi Hl Hb Hd Hbin Hk Hf He fuel.
  assert (Hone : process_one now w
            = Run (set_bin rest (set_lastRecv now w))
                [Log (LogRecv cmd i (str "vw" :: pin :: vals));
                 Log (LogEvent (str "V" ++ pin) [VList vals]);
                 Invoke (str "V" ++ pin) (Call [VList vals] [])]
                (Exc e)).
  { rewrite (process_one_frame now w cmd i body rest);
      [|destruct Hc as [-> | ->]; done..].
    rewrite Hd, bind_ret. cbv beta.
    rewrite bind_log, (dispatch_vw _ _ _ _ Hc), bind_assoc.
    set (w2 := set_bin rest (set_lastRecv now w)).
    assert (Hk2 : callbacks w2 !! (str "V" ++ pin) = Some f) by done.
    by rewrite (bind_run_exc _ _ _ _ _ _ (emit_raises _ _ _ _ _ _ Hk2 Hf He)). }
  by rewrite process_loop_S, (bind_run_exc _ _ _ _ _ _ Hone).
Qed.

(** ** [run] after an exception in [process] *)

(** Property X23.  When [process] raises on the data [run] has received,
    [run] logs the error, disconnects (closing the socket) and returns
    normally, provided the [disconnected] callback lets no exception
    out. *)
Theorem run_disconnects_on_error
    (p : pool_result) (d : bytes) (w : Blynk) (e : exn) :
  state w ≠ DISCONNECTED →
  let r1 := process None w in
  result r1 = Ok tt →
  state (world r1) ≠ DISCONNECTED → conn (world r1) ≠ None →
  d ≠ [] → Z.of_nat (length d) ≤ buffin w →
  result (process (Some d) (world r1)) = Exc e →
  contained w (str "disconnected") (Call [] []) →
  let r := run_once p (RecvBytes d) w in
  result r = Ok tt
  ∧ state (world r) = DISCONNECTED
  ∧ conn (world r) = None
  ∧ Log (LogProcessError e) ∈ trace r.
Proof.
  intros Hs r1 Hr1 Hs1 Hc1 Hd Hl He Hcont r. subst r r1.
  unfold run_once. rewrite bind_gets, bool_decide_eq_false_2 by done.
  destruct (process None w) as [w1 t1 r1] eqn:E1.
  cbn [world result] in *. subst r1.
  assert (Hcb1 : callbacks w1 = callbacks w).
  { change w1 with (world (Run w1 t1 (Ok tt))). rewrite <-E1.
    apply keeps_callbacks. intros c. apply cfg_process. }
  assert (Hbf1 : buffin w1 = buffin w).
  { pose proof (cfg_process (config w) None w eq_refl) as H.
    rewrite E1 in H. by apply config_fields in H as (_ & ? & _). }
  erewrite (bind_run _ _ w w1 t1 false); last first.
  { apply try_run_ok. rewrite (bind_run _ _ _ _ _ _ E1), bind_gets.
    rewrite bool_decide_eq_false_2 by done.
    unfold prepend, ret; cbn [world trace result]. by rewrite app_nil_r. }
  cbn iota. rewrite !bind_gets.
  destruct (conn w1) as [s|] eqn:Ec; [|done].
  rewrite bind_ret. cbv beta.
  rewrite Hbf1, take_ge by lia.
  destruct d as [|b d]; [done|]. cbn iota.
  destruct (process (Some (b :: d)) w1) as [w2 t2 r2] eqn:E2.
  cbn [result world] in He. subst r2.
  rewrite (try_run_exc _ _ _ _ _ _ E2), bind_log.
  destruct (disconnect_outcome w2) as (t & r & Hrun & _ & _ & _ & Hok).
  rewrite Hrun. rewrite Hok.
  2:{ intros f Hf. apply Hcont. rewrite <-Hcb1.
      replace (callbacks w1) with (callbacks w2); [done|].
      change w2 with (world (Run w2 t2 (Exc e) : run unit)). rewrite <-E2.
      apply keeps_callbacks. intros c. apply cfg_process. }
  unfold prepend; cbn [world trace result]. split_and!; try done.
  rewrite !elem_of_app. right. right. left. apply list_elem_of_here.
Qed.

(** ** Every loop ends *)

Lemma returns_bind {A B} (m : M A) (k : A → M B) :
  returns m → (∀ a, returns (k a)) → returns (bind m k).
Proof.
  intros Hm Hk w. unfold bind. specialize (Hm w).
  destruct (m w) as [w1 t1 [a|e|]]; cbn in *; [|done..].
  specialize (Hk a w1). by destruct (k a w1).
Qed.

Lemma returns_try {A} (m : M A) h :
  returns m → (∀ e, returns (h e)) → returns (try_except m h).
Proof.
  intros Hm Hh w. unfold try_except. specialize (Hm w).
  destruct (m w) as [w1 t1 [a|e|]]; cbn in *; [done| |done].
  specialize (Hh e w1). by destruct (h e w1).
Qed.

Lemma tame_returns {A} (m : M A) : tame m → returns m.
Proof. intros H w. apply H. Qed.

Lemma returns_process data : returns (process data).
Proof. intros w. apply process_total. Qed.

Ltac returns_step :=
  lazymatch goal with
  | |- returns (process _) => apply returns_process
  | |- returns (bind _ _) => apply returns_bind; [|intros ?]
  | |- returns (try_except _ _) => apply returns_try; [|intros ?]
  | |- returns (if ?b then _ else _) => destruct b
  | |- returns (match ?x with _ => _ end) => destruct x
  | |- returns _ => apply tame_returns; tame_tac
  end.

Lemma returns_connect p : returns (connect p).
Proof.
  apply tame_returns. unfold connect, protocol_connect. tame_tac.
Qed.

Lemma returns_run_once p rcv : returns (run_once p rcv).
Proof.
  unfold run_once. repeat first [apply returns_connect | returns_step].
Qed.

(** Property X24.  Every operation comes back: a turn of the receive loop
    that goes on has taken at least five bytes off the buffer, and a turn
    of the write loop has sent at least one byte or raised, so the loops
    of [process] and [_write] end on every input. *)
Theorem operations_terminate :
  (∀ o w, result (exec o w) ≠ NoFuel)
  ∧ (∀ now w,
       result (process_one now w) = Ok Continue →
       (length (bin (world (process_one now w))) + 5 ≤ length (bin w))%nat)
  ∧ (∀ data w,
       result (send_loop (length data) data 0 w) ≠ NoFuel).
Proof.
  split_and!.
  - intros o. change (returns (exec o)).
    destruct o; cbn [exec]; try rewrite api_run_send; unfold on;
      repeat first
        [apply returns_connect | apply returns_run_once | returns_step].
  - apply process_one_shrinks.
  - intros data w. apply (good_send_loop (length data) data 0). lia.
Qed.

(** ** The further properties at work on the sample device *)

Lemma virtual_write_reaches_handler_witness :
  let w1 := world (VIRTUAL_WRITE (AInt 3) (λ _, Returns)
                     (set_bin hw_msg online)) in
  process_one 6000 w1
  = prepend
      [Log (LogRecv MSG_HW 2 [str "vw"; str "3"; str "42"]);
       Log (LogEvent (str "V3") [VList [str "42"]]);
       Invoke (str "V3") (Call [VList [str "42"]] [])]
      ((emit (str "V*") [VStr (str "3"); VList [str "42"]] [] ;; ret Continue)
         (set_bin [] (set_lastRecv 6000 w1))).
Proof.
  apply (virtual_write_reaches_handler 6000 (set_bin hw_msg online) (AInt 3)
           (λ _, Returns) MSG_HW 2 [str "42"]
           (default [] (utf8_encode (join NUL [str "vw"; str "3"; str "42"])))
           []).
  - by left.
  - by vm_compute.
  - by vm_compute.
  - by vm_compute.
  - by vm_compute.
  - by vm_compute.
  - reflexivity.
Defined.

Lemma virtual_read_reaches_handler_witness :
  let body := default [] (utf8_encode (join NUL [str "vr"; str "3"])) in
  let w1 := world (VIRTUAL_READ (AInt 3) (λ _, Returns)
                     (set_bin (frame MSG_HW 2 body) online)) in
  process_one 6000 w1
  = prepend
      [Log (LogRecv MSG_HW 2 [str "vr"; str "3"]);
       Log (LogEvent (str "readV3") []);
       Invoke (str "readV3") (Call [] [])]
      ((emit (str "readV*") [VStr (str "3")] [] ;; ret Continue)
         (set_bin [] (set_lastRecv 6000 w1))).
Proof.
  intros body.
  apply (virtual_read_reaches_handler 6000
           (set_bin (frame MSG_HW 2 body) online) (AInt 3)
           (λ _, Returns) MSG_HW 2 [] body []).
  - by left.
  - by vm_compute.
  - by vm_compute.
  - by vm_compute.
  - by vm_compute.
  - by vm_compute.
  - reflexivity.
Defined.

Lemma internal_reaches_handler_witness :
  let body := default [] (utf8_encode (join NUL [str "rtc"; str "1700000000"])) in
  let w1 := world (ON (str "int_rtc") (λ _, Returns)
                     (set_bin (frame MSG_INTERNAL 2 body) online)) in
  process_one 6000 w1
  = Run (set_bin [] (set_lastRecv 6000 w1))
      [Log (LogRecv MSG_INTERNAL 2 [str "rtc"; str "1700000000"]);
       Log (LogEvent (str "int_rtc") [VList [str "1700000000"]]);
       Invoke (str "int_rtc") (Call [VList [str "1700000000"]] [])]
      (Ok Continue).
Proof.
  intros body.
  apply (internal_reaches_handler 6000
           (set_bin (frame MSG_INTERNAL 2 body) online) (str "rtc")
           (λ _, Returns) 2 [str "1700000000"] body []).
  - by vm_compute.
  - by vm_compute.
  - by vm_compute.
  - by vm_compute.
  - by vm_compute.
  - reflexivity.
Defined.


Lemma api_call_frame_witness :
  let c := VirtualWrite (AInt 1) [AInt 42] in
  let body := default [] (utf8_encode (join NUL [str "vw"; str "1"; str "42"])) in
  let r := api_run c online in
  result r = Ok tt
  ∧ wired (trace r) = frame MSG_HW (msg_id online) body
  ∧ emitted (trace r) = []
  ∧ msg_id (world r)
    = (if msg_id online =? 0xFFFF then 1 else msg_id online + 1)
  ∧ state (world r) = state online
  ∧ bin (world r) = bin online
  ∧ lastSend (world r) = next_time online.
Proof.
  intros c body.
  apply (api_call_frame c online body).
  - by vm_compute.
  - by exists false.
  - by vm_compute.
  - by vm_compute.
  - by vm_compute.
Defined.

Lemma unencodable_field_dropped_witness :
  api_run (Notify (AStr [0xD800])) online
  = Run (set_msg_id (if msg_id online =? 0xFFFF then 1 else msg_id online + 1)
           online)
      [Log (LogEncodeError MSG_NOTIFY)] (Ok tt).
Proof.
  apply (unencodable_field_dropped (Notify (AStr [0xD800])) online).
  - by vm_compute.
  - by vm_compute.
  - by vm_compute.
Defined.

Lemma partial_writes_complete_witness :
  let w := set_conn (Some (Socket [Accepts 1; Accepts 5] false)) online in
  ∃ script',
    script' `suffix_of` [Accepts 1; Accepts 5]
    ∧ world (_write [x01; x02; x03] w)
      = set_conn (Some (Socket script' false)) w
    ∧ result (_write [x01; x02; x03] w) = Ok tt
    ∧ wired (trace (_write [x01; x02; x03] w)) = [x01; x02; x03]
    ∧ emitted (trace (_write [x01; x02; x03] w)) = [].
Proof.
  apply (partial_writes_complete [x01; x02; x03]
           (set_conn (Some (Socket [Accepts 1; Accepts 5] false)) online)
           [Accepts 1; Accepts 5] false).
  - reflexivity.
  - by vm_compute.
  - repeat constructor; by eexists.
Defined.

Lemma no_callbacks_contained evt c : contained online evt c.
Proof. intros f Hf. by vm_compute in Hf. Defined.

Lemma doubled_encode n (s : pystr) (b : bytes) :
  utf8_encode s = Some b → utf8_encode (doubled n s) = Some (doubled n b).
Proof.
  intros H. induction n as [|n IH]; [done|].
  cbn [doubled]. by rewrite utf8_encode_app, IH.
Qed.

Lemma doubled_length {A} n (l : list A) :
  Z.of_nat (length (doubled n l)) = 2 ^ Z.of_nat n * Z.of_nat (length l).
Proof.
  induction n as [|n IH]; [cbn [doubled]; lia|].
  cbn [doubled]. rewrite length_app, Nat2Z.inj_add, IH.
  rewrite Nat2Z.inj_succ, Z.pow_succ_r by lia. lia.
Qed.

Lemma oversized_body_raises_witness :
  let c := Notify (AStr (doubled 16 [65])) in
  let r := api_run c online in
  result r = Exc StructError
  ∧ wired (trace r) = []
  ∧ world r
    = set_msg_id (if msg_id online =? 0xFFFF then 1 else msg_id online + 1)
        online.
Proof.
  apply (oversized_body_raises (Notify (AStr (doubled 16 [65]))) online
           (doubled 16 ["A"%byte])).
  - by vm_compute.
  - by vm_compute.
  - cbn [api_args fmap list_fmap py_str join]. by apply doubled_encode.
  - rewrite doubled_length. by vm_compute.
Defined.

Lemma disconnect_always_witness :
  let r := disconnect online in
  world r = set_state DISCONNECTED (set_conn None online)
  ∧ wired (trace r) = []
  ∧ emitted (trace r) = [str "disconnected"]
  ∧ result r = Ok tt
  ∧ disconnect (world r) = Run (world r) [] (Ok tt).
Proof.
  destruct (disconnect_always online) as (H1 & H2 & H3 & _ & H5 & H6).
  split_and!; [exact H1|exact H2|exact H3| |exact H6].
  apply H5, no_callbacks_contained.
Defined.

Lemma connect_guards_witness :
  let early := init (AStr (str "token")) 10 1024 1000 [] in
  connect (Connects (Socket [] false)) online
  = Run online [Log LogAlreadyConnected] (Ok true)
  ∧ connect (Connects (Socket [] false)) early = Run early [] (Ok false)
  ∧ run_once (Connects (Socket [] false)) RecvAgain early
    = Run early [] (Ok tt).
Proof.
  intros early.
  destruct (connect_guards (Connects (Socket [] false)) RecvAgain online)
    as [H1 _].
  destruct (connect_guards (Connects (Socket [] false)) RecvAgain early)
    as [_ H2].
  split; [apply H1; by vm_compute|].
  apply H2; by vm_compute.
Defined.

Lemma connect_failure_cleans_up_witness :
  let r := connect (ResolveFails OSError) fresh in
  state (world r) = DISCONNECTED
  ∧ conn (world r) = None
  ∧ last_connect_attempt (world r) = 6000
  ∧ wired (trace r) = []
  ∧ emitted (trace r) = [str "disconnected"]
  ∧ result r = Ok false.
Proof.
  destruct (connect_failure_cleans_up (ResolveFails OSError) OSError fresh)
    as (H1 & H2 & H3 & H4 & H5 & _ & H7).
  - reflexivity.
  - by vm_compute.
  - reflexivity.
  - split_and!; [exact H1|exact H2|exact H3|exact H4|exact H5|].
    apply H7. intros f Hf. by vm_compute in Hf.
Defined.

Lemma connect_sends_login_witness :
  let r := connect (Connects (Socket [] false)) fresh in
  result r = Ok true
  ∧ state (world r) = CONNECTING
  ∧ conn (world r) = Some (Socket [] false)
  ∧ msg_id (world r) = 2
  ∧ bin (world r) = []
  ∧ last_connect_attempt (world r) = next_time fresh
  ∧ wired (trace r)
    = frame MSG_HW_LOGIN 1 ["t"; "o"; "k"; "e"; "n"]%byte
  ∧ emitted (trace r) = [].
Proof.
  apply (connect_sends_login fresh false (str "token")
           ["t"; "o"; "k"; "e"; "n"]%byte).
  - reflexivity.
  - by vm_compute.
  - reflexivity.
  - by vm_compute.
  - by vm_compute.
Defined.

Lemma login_needs_string_token_witness :
  let w := init (AInt 12345) 10 1024 6000 [] in
  let r := connect (Connects (Socket [] false)) w in
  result r = Ok true
  ∧ state (world r) = CONNECTING
  ∧ conn (world r) = Some (Socket [] false)
  ∧ msg_id (world r) = 2
  ∧ trace r = [Log LogConnecting; Log LogResolved; Log LogSocketConnected;
               Log LogHwLoginNoToken].
Proof.
  apply (login_needs_string_token (init (AInt 12345) 10 1024 6000 [])
           (Socket [] false) 12345).
  - reflexivity.
  - by vm_compute.
  - reflexivity.
Defined.

Lemma no_complete_message_left_witness :
  waiting (world (process (Some (take 8 hw_msg)) online)).
Proof.
  apply (no_complete_message_left (Some (take 8 hw_msg)) online).
  - by vm_compute.
  - by vm_compute.
Defined.

Lemma bad_header_disconnects_witness :
  let small := world (connect (Connects (Socket [] false))
                        (init (AStr (str "token")) 10 64 6000 [])) in
  let w := set_bin (rsp_frame 1 STA_SUCCESS) small in
  let r := process_loop 6 6000 w in
  world r = set_state DISCONNECTED (set_conn None w)
  ∧ wired (trace r) = []
  ∧ (∃ t, trace r = Log (LogInvalidLen 200 64) :: t)
  ∧ result r ≠ NoFuel.
Proof.
  intros small w.
  apply (bad_header_disconnects 5 6000 w MSG_RSP 1 STA_SUCCESS).
  - vm_compute. lia.
  - by vm_compute.
  - right. by vm_compute.
Defined.

Lemma response_ignored_witness :
  process_one 6000 (set_bin (rsp_frame 5 STA_SUCCESS ++ hw_msg) online)
  = Run (set_bin hw_msg
           (set_lastRecv 6000
              (set_bin (rsp_frame 5 STA_SUCCESS ++ hw_msg) online)))
      [Log (LogRecvRsp MSG_RSP 5 STA_SUCCESS)] (Ok Continue).
Proof.
  apply (response_ignored 6000
           (set_bin (rsp_frame 5 STA_SUCCESS ++ hw_msg) online)
           5 STA_SUCCESS hw_msg).
  - by vm_compute.
  - by vm_compute.
  - by vm_compute.
  - reflexivity.
  - right. by vm_compute.
Defined.

Lemma unknown_command_ignored_witness :
  let w := set_bin (frame MSG_NOTIFY 4 ["h"; "i"]%byte) online in
  process_one 6000 w
  = Run (set_bin [] (set_lastRecv 6000 w))
      [Log (LogRecv MSG_NOTIFY 4 [str "hi"]); Log (LogIgnoring MSG_NOTIFY)]
      (Ok Continue).
Proof.
  apply (unknown_command_ignored 6000
           (set_bin (frame MSG_NOTIFY 4 ["h"; "i"]%byte) online)
           MSG_NOTIFY 4 ["h"; "i"]%byte []).
  - by vm_compute.
  - apply (bool_decide_unpack _). by vm_compute.
  - by vm_compute.
  - by vm_compute.
  - by vm_compute.
  - reflexivity.
Defined.


Lemma socket_held_iff_connected_witness :
  let w := world (exec (OpRun (Connects (Socket [SendFails] false)) RecvAgain)
             (init (AStr (str "token")) 10 1024 6000 [])) in
  (state w = DISCONNECTED ↔ conn w = None)
  ∧ (state (world (exec OpDisconnect online)) = DISCONNECTED
     ↔ conn (world (exec OpDisconnect online)) = None).
Proof.
  destruct socket_held_iff_connected as [H1 H2].
  split.
  - apply H1. apply reach_step, reach_init.
  - apply (H2 OpDisconnect online). by vm_compute.
Defined.

Lemma run_contains_exceptions_witness :
  let w := world (on (str "V3") broken_cb online) in
  result (run_once (Connects (Socket [] false)) (RecvBytes hw_msg) w) = Ok tt
  ∨ (state w = DISCONNECTED
     ∧ result (run_once (Connects (Socket [] false)) (RecvBytes hw_msg) w)
       = Exc MemoryError).
Proof.
  apply (run_contains_exceptions (Connects (Socket [] false))
           (RecvBytes hw_msg) (world (on (str "V3") broken_cb online))).
  intros f Hf. by vm_compute in Hf.
Defined.

Lemma handler_exception_propagates_witness :
  let w := set_bin hw_msg (world (on (str "V3") broken_cb online)) in
  process_loop 1 6000 w
  = Run (set_bin [] (set_lastRecv 6000 w))
      [Log (LogRecv MSG_HW 2 [str "vw"; str "3"; str "42"]);
       Log (LogEvent (str "V3") [VList [str "42"]]);
       Invoke (str "V3") (Call [VList [str "42"]] [])]
      (Exc OtherError).
Proof.
  apply (handler_exception_propagates 6000
           (set_bin hw_msg (world (on (str "V3") broken_cb online)))
           broken_cb OtherError MSG_HW 2 (str "3") [str "42"]
           (default [] (utf8_encode (join NUL [str "vw"; str "3"; str "42"])))
           []).
  - by left.
  - by vm_compute.
  - by vm_compute.
  - by vm_compute.
  - by vm_compute.
  - by vm_compute.
  - by vm_compute.
  - reflexivity.
  - discriminate.
Defined.

Lemma run_disconnects_on_error_witness :
  let w := world (on (str "V3") broken_cb online) in
  let r := run_once (Connects (Socket [] false)) (RecvBytes hw_msg) w in
  result r = Ok tt
  ∧ state (world r) = DISCONNECTED
  ∧ conn (world r) = None
  ∧ Log (LogProcessError OtherError) ∈ trace r.
Proof.
  apply (run_disconnects_on_error (Connects (Socket [] false)) hw_msg
           (world (on (str "V3") broken_cb online)) OtherError).
  - by vm_compute.
  - by vm_compute.
  - by vm_compute.
  - by vm_compute.
  - by vm_compute.
  - by vm_compute.
  - by vm_compute.
  - intros f Hf. by vm_compute in Hf.
Defined.

Lemma operations_terminate_witness :
  result (exec (OpProcess (Some hw_msg)) online) ≠ NoFuel
  ∧ (length (bin (world (process_one 6000 (set_bin hw_msg online)))) + 5
     ≤ length (bin (set_bin hw_msg online)))%nat.
Proof.
  destruct operations_terminate as (H1 & H2 & _).
  split; [apply H1|]. apply H2. by vm_compute.
Defined.
